(** * NBA milestones: the reconciliation scripts

    A shallow embedding of the Python scripts under [scripts/] that
    reconcile official NBA totals with the totals of the local game log:

    - [coverage_scan_single.py]            (module [CoverageScan])
    - [validate_alltime_leaders.py]        (module [ValidateLeaders])
    - [batch_overrides_from_discrepancies.py] and
      [poc_create_season_overrides.py]     (module [Overrides])
    - [update_active_players_nba_api.py]   (module [UpdateActive])

    Further modules hold what the properties below need besides:
    [RetryTiming] (time slept by the executor), [CoverageReport] and
    [CoverageNames] (the report of the coverage scan),
    [ValidateFallback] (the fallback of the leaderboard check),
    [UpdateLog] and [UpdateDates] (the update of the active players).

    Conventions of the embedding.

    - Python integers are [Z]; durations in seconds are exact rationals
      [Q] (the scripts compute them in binary floating point; the
      doubling of the base delay and the cap are exact there, the
      jitter product is rounded).
    - An exception is represented by its textual description [str(err)],
      which is all the scripts ever inspect; a computation that may raise
      returns an [outcome].
    - A pandas cell is a [cell]; a DataFrame is a [frame] (column labels
      and positional rows).  Count columns of nba_api are JSON integers
      or null, so numbers are integers; how pandas and Python read a
      number out of a text cell is a parameter ([PyText]).
    - A SQLite table with a primary key is a finite map from the key to
      the remaining columns; a table without one is a list of rows. *)

From Stdlib Require Import ZArith QArith Qminmax Lia Lqa Ascii String.
From stdpp Require Import base option list sorting strings pretty gmap fin_maps.

Open Scope Z_scope.

(** ** Python and pandas primitives *)

Module Py.

(** [str(err)] of the exception raised. *)
Definition exn := string.

Inductive outcome (A : Type) : Type :=
| Returned (a : A)
| Raised (e : exn).
Arguments Returned {A} a.
Arguments Raised {A} e.

Definition bind {A B} (m : outcome A) (k : A → outcome B) : outcome B :=
  match m with
  | Returned a => k a
  | Raised e => Raised e
  end.

#[global] Instance outcome_ret : MRet outcome := λ A a, Returned a.
#[global] Instance outcome_bind : MBind outcome := λ A B k m, bind m k.

(** [try: m except Exception: handler] *)
Definition try_except {A} (m : outcome A) (handler : exn → outcome A) : outcome A :=
  match m with
  | Returned a => Returned a
  | Raised e => handler e
  end.

(** [c.lower()] on one character.  Only ASCII letters change; the only
    non-ASCII characters whose lowercase contains an ASCII letter are
    U+212A (k) and U+0130 (i followed by a combining dot), and neither
    can complete one of the markers searched for below. *)
Definition lower_ascii (c : ascii) : ascii :=
  let n := nat_of_ascii c in
  if ((65 <=? n) && (n <=? 90))%nat then ascii_of_nat (n + 32) else c.

Definition upper_ascii (c : ascii) : ascii :=
  let n := nat_of_ascii c in
  if ((97 <=? n) && (n <=? 122))%nat then ascii_of_nat (n - 32) else c.

Fixpoint lower (s : string) : string :=
  match s with
  | EmptyString => EmptyString
  | String c s' => String (lower_ascii c) (lower s')
  end.

Fixpoint upper (s : string) : string :=
  match s with
  | EmptyString => EmptyString
  | String c s' => String (upper_ascii c) (upper s')
  end.

(** [m in s] on strings: [m] occurs in [s] as a contiguous substring. *)
Fixpoint contains (m s : string) : bool :=
  String.prefix m s ||
  match s with
  | EmptyString => false
  | String _ s' => contains m s'
  end.

(** [s.startswith(p)] *)
Definition startswith (s p : string) : bool := String.prefix p s.

(** A cell of a DataFrame, or a value of a record dict. *)
Inductive cell : Type :=
| CInt (z : Z)          (* an integer *)
| CNaN                  (* float NaN: a missing value in a numeric column *)
| CNone                 (* None: a missing value in an object column *)
| CStr (s : string).    (* text *)

#[global] Instance cell_eq_dec : EqDecision cell.
Proof. solve_decision. Defined.

(** How the runtime reads an integer out of text.
    [numeric_text s] is [pd.to_numeric(s, errors="coerce")] followed by
    [astype(int)]: [None] when pandas cannot read [s] as a number (the
    coerced value is NaN).  [int_text s] is Python's [int(s)]: [None]
    when it raises [ValueError]. *)
Class PyText := {
  numeric_text : string → option Z;
  int_text : string → option Z;
}.

(** [pd.to_numeric(c, errors="coerce")]: [None] stands for NaN. *)
Definition to_numeric `{PyText} (c : cell) : option Z :=
  match c with
  | CInt z => Some z
  | CNaN | CNone => None
  | CStr s => numeric_text s
  end.

(** [pd.to_numeric(c, errors="coerce").fillna(0).astype(int)] *)
Definition coerce_int `{PyText} (c : cell) : Z := default 0 (to_numeric c).

(** [int(c)] *)
Definition py_int `{PyText} (c : cell) : outcome Z :=
  match c with
  | CInt z => Returned z
  | CNaN => Raised "cannot convert float NaN to integer"
  | CNone => Raised "int() argument must be a string, a bytes-like object or a real number, not 'NoneType'"
  | CStr s =>
      match int_text s with
      | Some z => Returned z
      | None => Raised ("invalid literal for int() with base 10: " +:+ s)
      end
  end.

(** [str(c)], also [astype(str)] on a column. *)
Definition py_str (c : cell) : string :=
  match c with
  | CInt z => pretty z
  | CNaN => "nan"
  | CNone => "None"
  | CStr s => s
  end.

(** Truthiness of a cell, as [x or 0] and [if x] test it. *)
Definition truthy (c : cell) : bool :=
  match c with
  | CInt z => negb (z =? 0)
  | CNaN => true
  | CNone => false
  | CStr s => negb (String.eqb s "")
  end.

(** A DataFrame: its column labels and its rows, cells by position. *)
Record frame : Type := Frame {
  columns : list string;
  rows : list (list cell);
}.

(** Position of the first column for which [p] holds. *)
Fixpoint find_column (p : string → bool) (cols : list string) : option nat :=
  match cols with
  | [] => None
  | c :: cols' => if p c then Some 0%nat else S <$> find_column p cols'
  end.

(** The cell of [row] under the column at position [i]. *)
Definition cell_at (row : list cell) (i : nat) : cell := default CNaN (row !! i).

(** [pd.merge(left, right, on=key, how="outer")] for frames keyed by a
    string column.  The keys of the result are the union of the keys of
    both sides in lexicographic order; a key present on both sides
    yields every pairing of its rows, a key present on one side only
    yields that side's rows with the other side missing (NaN cells,
    here [None]). *)
Definition merge_outer {A B} (left : list (string * A)) (right : list (string * B))
    : list (string * option A * option B) :=
  k ← merge_sort String.le (remove_dups (left.*1 ++ right.*1));
  let ls := filter (λ r, r.1 = k) left in
  let rs := filter (λ r, r.1 = k) right in
  match ls, rs with
  | [], _ => (λ r, (k, None, Some r.2)) <$> rs
  | _, [] => (λ l, (k, Some l.2, None)) <$> ls
  | _, _ => l ← ls; r ← rs; [(k, Some l.2, Some r.2)]
  end.

End Py.

(** ** The resilient request executor

    [request_with_retries] is the same loop in [coverage_scan_single.py]
    and in [validate_alltime_leaders.py]; the latter takes the limits as
    keyword arguments whose defaults are the constants of the former. *)

Module Retry.
Import Py.

Definition SLEEP_SECONDS : Q := 1.
Definition MAX_ATTEMPTS : nat := 5.
Definition BASE_DELAY : Q := 8 # 10.
Definition MAX_DELAY : Q := 8.

Definition transient_markers : list string :=
  ["429"; "too many requests"; "timeout"; "timed out"; "connection reset";
   "temporary"; "service unavailable"; "503"; "502"; "bad gateway"].

(** [any(m in msg for m in markers)] with [msg = str(err).lower()] *)
Definition _should_retry_error (err : exn) : bool :=
  let msg := lower err in
  existsb (λ m, contains m msg) transient_markers.

(** What the executor does to the outside world, in order. *)
Inductive event : Type :=
| Sleep (seconds : Q)                              (* time.sleep *)
| Call (attempt : nat)                             (* callable_fn() *)
| Print (attempt : nat) (e : exn) (sleep_for : Q). (* the progress line *)

Section executor.
Context {A : Type}.
(** [callable_fn attempt]: what the call made on attempt number [attempt]
    (counted from 1) does. *)
Variable callable_fn : nat → outcome A.
(** [uniform attempt]: the value [random.uniform(0.2, 0.5)] yields after
    the failure of attempt number [attempt]. *)
Variable uniform : nat → Q.
Variables (max_attempts : nat) (base_delay max_delay : Q).

(** [min(max_delay, base_delay * (2 ** (attempt - 1)))] *)
Definition backoff_delay (attempt : nat) : Q :=
  Qmin max_delay (base_delay * inject_Z (2 ^ Z.of_nat (attempt - 1))).

(** [raise last_err] after the loop; raising [None] is a [TypeError]. *)
Definition raise_last (last_err : option exn) : outcome A :=
  match last_err with
  | Some e => Raised e
  | None => Raised "exceptions must derive from BaseException"
  end.

(** The [for attempt in range(1, max_attempts + 1)] loop, over the
    attempts still to make. *)
Fixpoint attempts (range : list nat) (last_err : option exn) : list event * outcome A :=
  match range with
  | [] => ([], raise_last last_err)
  | attempt :: range' =>
      match callable_fn attempt with
      | Returned a => ([Sleep SLEEP_SECONDS; Call attempt], Returned a)
      | Raised e =>
          if (max_attempts <=? attempt)%nat || negb (_should_retry_error e)
          then ([Sleep SLEEP_SECONDS; Call attempt], raise_last (Some e))
          else
            let delay := backoff_delay attempt in
            let jitter := (delay * uniform attempt)%Q in
            let sleep_for := (delay + jitter)%Q in
            let '(evs, r) := attempts range' (Some e) in
            (Sleep SLEEP_SECONDS :: Call attempt :: Print attempt e sleep_for
               :: Sleep sleep_for :: evs, r)
      end
  end.

Definition request_with_retries : list event * outcome A :=
  attempts (seq 1 max_attempts) None.

End executor.

(** The calls made, and the back-off sleeps taken, in a run. *)
Definition calls (evs : list event) : list nat :=
  omap (λ ev, match ev with Call n => Some n | _ => None end) evs.

Definition retries (evs : list event) : list (nat * Q) :=
  omap (λ ev, match ev with Print n _ q => Some (n, q) | _ => None end) evs.

End Retry.

(** ** Time spent sleeping by the executor *)

Module RetryTiming.
Import Py Retry.

(** Seconds slept in a run: the sum of the arguments of [time.sleep]. *)
Definition total_sleep (evs : list event) : Q :=
  foldr (λ ev acc, match ev with Sleep q => q + acc | _ => acc end)%Q 0%Q evs.

(** The most a run over the attempts of [range] can sleep: the pacing
    second before every call, and one and a half times the back-off
    delay after every attempt but the last one allowed. *)
Definition sleep_budget (max_attempts : nat) (base_delay max_delay : Q)
    (range : list nat) : Q :=
  foldr (λ i acc,
           (SLEEP_SECONDS
            + (if (i <? max_attempts)%nat
               then (3 # 2) * backoff_delay base_delay max_delay i else 0)
            + acc)%Q) 0%Q range.

End RetryTiming.

(** ** The local store and the remote provider *)

Module Db.
Import Py.

(** The five tracked counts of one row: a season of a player, a game, or
    an override. *)
Record totals : Type := Totals {
  points : Z;
  rebounds : Z;
  assists : Z;
  steals : Z;
  blocks : Z;
}.

#[global] Instance totals_eq_dec : EqDecision totals.
Proof. solve_decision. Defined.

Definition zero : totals := Totals 0 0 0 0 0.

(** The count stored under a column label, nba_api's ([PTS]) or the
    store's ([points]). *)
Definition column (label : string) (t : totals) : Z :=
  if bool_decide (label = "points" ∨ label = "PTS") then points t
  else if bool_decide (label = "rebounds" ∨ label = "REB") then rebounds t
  else if bool_decide (label = "assists" ∨ label = "AST") then assists t
  else if bool_decide (label = "steals" ∨ label = "STL") then steals t
  else if bool_decide (label = "blocks" ∨ label = "BLK") then blocks t
  else 0.

(** Modelled from the spec: the [game_summary] fact table, whose schema is
    not among the scripts (spec, section 6: player, game, season,
    season_type and one integer column per metric).  The columns
    [player_name], [game_date] and [age_at_game_years] written by
    [update_active_players_nba_api.py] carry no count and are left out. *)
Record game : Type := Game {
  g_player_id : string;
  g_game_id : string;
  g_season : string;
  g_season_type : string;
  g_stats : totals;
}.

(** Key of [season_totals_override]: (player_id, season, season_type). *)
Abbreviation override_key := (string * string * string)%type.

(** The state of the SQLite database behind a connection.  The override
    table may not exist yet ([None]); [game_summary] always does. *)
Record conn : Type := Conn {
  game_summary : list game;
  season_totals_override : option (gmap override_key totals);
  (** [player_stats], as far as it is read: (player_id, season_type). *)
  player_stats : list (string * option string);
}.

Definition with_overrides (c : conn) (t : gmap override_key totals) : conn :=
  Conn (game_summary c) (Some t) (player_stats c).

(** The sum of [f] over the rows of a list. *)
Definition sum_with {X} (f : X → Z) (xs : list X) : Z :=
  foldr (λ x acc, f x + acc) 0 xs.

(** [SUM(col)] over rows, [COALESCE]d to 0. *)
Definition sum_column (label : string) (ts : list totals) : Z :=
  sum_with (column label) ts.

Definition sum_totals (ts : list totals) : totals :=
  Totals (sum_column "points" ts) (sum_column "rebounds" ts) (sum_column "assists" ts)
         (sum_column "steals" ts) (sum_column "blocks" ts).

(** [WHERE player_id = ? AND season_type = 'Regular Season'] *)
Definition regular_season (player_id : string) (gs : list game) : list game :=
  filter (λ g, g_player_id g = player_id ∧ g_season_type g = "Regular Season") gs.

End Db.

(** The remote provider and the random source, as the scripts see them. *)
Module Api.
Import Py.

Class World := {
  (** [PlayerCareerStats(player_id=...)] on a given attempt of one
      request, with the frames [get_data_frames()] then builds from the
      response (it reads what was received and is taken not to fail). *)
  PlayerCareerStats : string → nat → outcome (list frame);
  (** [AllTimeLeadersGrids(...)], likewise. *)
  AllTimeLeadersGrids : nat → outcome (list frame);
  (** [random.uniform(0.2, 0.5)] drawn after a failed attempt. *)
  uniform : nat → Q;
}.

End Api.

(** ** coverage_scan_single.py *)

Module CoverageScan.
Import Py Db Api.

Definition METRICS : list (string * string) :=
  [("PTS", "points"); ("REB", "rebounds"); ("AST", "assists");
   ("STL", "steals"); ("BLK", "blocks")].

Definition request_with_retries `{World} {A} (callable_fn : nat → outcome A)
    : list Retry.event * outcome A :=
  Retry.request_with_retries callable_fn uniform
    Retry.MAX_ATTEMPTS Retry.BASE_DELAY Retry.MAX_DELAY.

(** One row of the frame [nba_career_by_season] returns. *)
Record nba_row : Type := NbaRow {
  season : string;
  GP : Z;
  stats : totals;   (* the columns PTS, REB, AST, STL, BLK *)
}.

(** [needed.issubset(set(c.upper() for c in f.columns))] *)
Definition has_columns (needed : list string) (f : frame) : bool :=
  forallb (λ c, bool_decide (c ∈ upper <$> columns f)) needed.

(** The first frame that has the needed columns. *)
Definition select_frame (needed : list string) (frames : list frame) : option frame :=
  List.find (has_columns needed) frames.

(** [df[c]] for one row, after the labels were upper-cased; a column the
    frame lacks was created holding 0. *)
Definition upper_cell (f : frame) (row : list cell) (c : string) : cell :=
  match find_column (λ l, String.eqb (upper l) c) (columns f) with
  | Some i => cell_at row i
  | None => CInt 0
  end.

Definition normalize_row `{PyText} (f : frame) (row : list cell) : nba_row :=
  let num c := coerce_int (upper_cell f row c) in
  {| season := py_str (upper_cell f row "SEASON_ID");
     GP := num "GP";
     stats := Totals (num "PTS") (num "REB") (num "AST") (num "STL") (num "BLK") |}.

Definition nba_career_by_season `{World, PyText} (player_id : string)
    : outcome (list nba_row) :=
  frames ← (request_with_retries (PlayerCareerStats player_id)).2;
  match select_frame (["SEASON_ID"; "GP"] ++ METRICS.*1) frames with
  | None => Returned []
  | Some f => Returned (normalize_row f <$> rows f)
  end.

(** The [GROUP BY season] query over the regular-season games of the
    player; the order of the groups is the order in which the seasons
    first occur (SQL leaves it open, and every caller merges on the
    season next, which sorts). *)
Definition db_career_by_season (c : conn) (player_id : string) : list (string * totals) :=
  let gs := regular_season player_id (game_summary c) in
  (λ s, (s, sum_totals (g_stats <$> filter (λ g, g_season g = s) gs)))
    <$> remove_dups (g_season <$> gs).

(** One row of the merged view [main] hands to [render_reports]. *)
Record coverage_row : Type := CoverageRow {
  c_season : string;
  NBA : totals;           (* NBA_PTS .. NBA_BLK, NaN filled with 0 *)
  c_GP : option Z;        (* GP is not filled *)
  DB : totals;            (* DB_points .. DB_blocks, NaN filled with 0 *)
  NBA_present : bool;     (* kept as 0/1 by the numeric pass *)
  DB_present : bool;
  DELTA : totals;         (* DELTA_points .. DELTA_blocks *)
}.

Definition minus (a b : totals) : totals :=
  Totals (points a - points b) (rebounds a - rebounds b) (assists a - assists b)
         (steals a - steals b) (blocks a - blocks b).

(** The merged view of [main]: outer merge on the season, presence
    flags, NaN filled with 0, and [DELTA = DB - NBA]. *)
Definition merged_view (nba_df : list nba_row) (db_df : list (string * totals))
    : list coverage_row :=
  (λ '(k, l, r),
     let nba := default zero (stats <$> l) in
     let db := default zero r in
     {| c_season := k; NBA := nba; c_GP := GP <$> l; DB := db;
        NBA_present := bool_decide (is_Some l);
        DB_present := bool_decide (is_Some r);
        DELTA := minus db nba |})
  <$> merge_outer ((λ r, (season r, r)) <$> nba_df) db_df.

End CoverageScan.

(** *** The coverage report *)

Module CoverageReport.
Import Py Db CoverageScan.

(** [render_reports]: the seasons listed as missing in the store, the
    seasons listed as extra in the store, and whether the report says
    that the season coverage matches exactly. *)
Definition missing_db (merged : list coverage_row) : list string :=
  c_season <$> filter (λ r, NBA_present r = true ∧ DB_present r = false) merged.

Definition missing_nba (merged : list coverage_row) : list string :=
  c_season <$> filter (λ r, DB_present r = true ∧ NBA_present r = false) merged.

Definition coverage_matches (merged : list coverage_row) : bool :=
  bool_decide (missing_db merged = []) && bool_decide (missing_nba merged = []).

End CoverageReport.

(** *** The name of the player in the coverage report *)

Module CoverageNames.
Import Py Db CoverageScan.

(** The official series as [main] hands it to [get_player_name]: the
    frame [nba_career_by_season] returns, its metric columns renamed to
    [NBA_<metric>].  (When the fetch found no frame the same columns
    come in another order.) *)
Definition nba_frame (nba_df : list nba_row) : frame :=
  Frame (["season"; "GP"] ++ ((λ m, "NBA_" +:+ m) <$> METRICS.*1))
        ((λ r, [CStr (season r); CInt (GP r); CInt (points (stats r));
                CInt (rebounds (stats r)); CInt (assists (stats r));
                CInt (steals (stats r)); CInt (blocks (stats r))]) <$> nba_df).

Definition name_cols : list string :=
  ["PLAYER_NAME"; "PLAYER"; "PLAYER_NAME_LAST_FIRST"; "DISPLAY_FIRST_LAST"].

(** [len(fallback_df[c].dropna()) > 0] for a column the frame has. *)
Definition has_value (f : frame) (c : string) : bool :=
  match find_column (String.eqb c) (columns f) with
  | Some i => existsb (λ row, match cell_at row i with
                              | CNaN | CNone => false
                              | _ => true
                              end) (rows f)
  | None => false
  end.

(** [str(fallback_df[c].iloc[0])] *)
Definition first_cell (f : frame) (c : string) : string :=
  match find_column (String.eqb c) (columns f), rows f with
  | Some i, row :: _ => py_str (cell_at row i)
  | _, _ => ""
  end.

(** [get_player_name].  [full_names] is what the query on [players]
    yields: the [full_name] of the rows with this id ([None] for NULL),
    or the error it raises, which is swallowed. *)
Definition get_player_name (full_names : outcome (list (option string)))
    (player_id : string) (fallback_df : frame) : string :=
  let from_db :=
    match full_names with
    | Returned (Some name :: _) => if bool_decide (name = "") then None else Some name
    | _ => None
    end in
  match from_db with
  | Some name => name
  | None =>
      match list_find (λ c, has_value fallback_df c = true) name_cols with
      | Some (_, c) => first_cell fallback_df c
      | None => "player_" +:+ player_id
      end
  end.

End CoverageNames.

(** ** batch_overrides_from_discrepancies.py and poc_create_season_overrides.py

    [ensure_table], [upsert_override] and the delta loop are the same
    text in both scripts. *)

Module Overrides.
Import Py Db Api CoverageScan.

(** [CREATE TABLE IF NOT EXISTS season_totals_override ...] and commit. *)
Definition ensure_table (c : conn) : conn :=
  with_overrides c (default ∅ (season_totals_override c)).

(** The row the statement of [upsert_override] binds:
    [int(deltas.get("points", 0))] and so on. *)
Definition override_row (deltas : gmap string Z) : totals :=
  Totals (default 0 (deltas !! "points")) (default 0 (deltas !! "rebounds"))
         (default 0 (deltas !! "assists")) (default 0 (deltas !! "steals"))
         (default 0 (deltas !! "blocks")).

(** [INSERT ... VALUES (?, ?, 'Regular Season', ...) ON CONFLICT(player_id,
    season, season_type) DO UPDATE SET] every count to the excluded one. *)
Definition upsert_override (c : conn) (player_id season : string)
    (deltas : gmap string Z) : outcome conn :=
  match season_totals_override c with
  | None => Raised "no such table: season_totals_override"
  | Some t =>
      Returned (with_overrides c
                  (<[(player_id, season, "Regular Season") := override_row deltas]> t))
  end.

(** A row of [merged] once the columns [<dst>_nba] and [<dst>_db] have
    been filled ([fillna(0).astype(int)]). *)
Record merged_row : Type := MergedRow {
  m_season : string;
  m_nba : totals;   (* points_nba .. blocks_nba *)
  m_db : totals;    (* points_db .. blocks_db *)
}.

(** [pd.merge(nba_df2, db_df2, on="season", how="outer")] and the fill.
    The two sides share no column label but [season], so the suffixes
    are not applied and [merged.get(f"{m}_nba", merged.get(m, 0))] reads
    the column [m]. *)
Definition merged (nba_df : list nba_row) (db_df : list (string * totals))
    : list merged_row :=
  (λ '(k, l, r), MergedRow k (default zero l) (default zero r))
  <$> merge_outer ((λ r, (season r, stats r)) <$> nba_df) db_df.

(** The inner loop over [METRICS]: the dict [deltas] and the flag [nonzero]. *)
Definition season_deltas (row : merged_row) : gmap string Z * bool :=
  foldl (λ acc md,
           let delta := column md.2 (m_nba row) - column md.2 (m_db row) in
           (<[md.2 := delta]> acc.1, if decide (delta ≠ 0) then true else acc.2))
        (∅, false) METRICS.

(** One turn of the loop over [merged.iterrows()]; the state is the
    connection and the count [updated]. *)
Definition process_row (player_id : string) (acc : conn * Z) (row : merged_row)
    : outcome (conn * Z) :=
  let season := m_season row in
  if decide (season = "") then Returned acc          (* if not season: continue *)
  else
    let '(deltas, nonzero) := season_deltas row in
    if nonzero
    then c' ← upsert_override acc.1 player_id season deltas; Returned (c', acc.2 + 1)
    else Returned acc.

Fixpoint for_each {S X} (body : S → X → outcome S) (s : S) (xs : list X) : outcome S :=
  match xs with
  | [] => Returned s
  | x :: xs' => s' ← body s x; for_each body s' xs'
  end.

(** [process_player] of the batch script: the connection afterwards and
    the number of seasons updated. *)
Definition process_player `{World, PyText} (c : conn) (player_id : string)
    : outcome (conn * Z) :=
  nba_df ← nba_career_by_season player_id;
  let db_df := db_career_by_season c player_id in
  for_each (process_row player_id) (c, 0) (merged nba_df db_df).

(** [main] of the batch script, from the set of discrepant players on.
    The result is the database as the run leaves it on disk, with the
    total [main] prints at the end or the error it raises.  The upserts
    are committed once, after the last player; a connection closed
    before that drops them. *)
Definition main `{World, PyText} (players : gset string) (c : conn) : conn * outcome Z :=
  if decide (players = ∅) then (c, Returned 0)
  else
    let c0 := ensure_table c in
    match for_each (λ '(c1, total_updates) pid,
                      '(c2, updated) ← process_player c1 pid;
                      Returned (c2, total_updates + updated))
                   (c0, 0) (merge_sort String.le (elements players)) with
    | Returned (c', total_updates) => (c', Returned total_updates)   (* conn.commit() *)
    | Raised e => (c0, Raised e)                                     (* finally: conn.close() *)
    end.

(** [main] of the proof-of-concept script, for one player: its loop is
    the loop of [process_player] without the count. *)
Definition poc_main `{World, PyText} (player_id : string) (c : conn) : conn * outcome () :=
  let c0 := ensure_table c in
  match process_player c0 player_id with
  | Returned (c', _) => (c', Returned ())
  | Raised e => (c0, Raised e)
  end.

(** *** Vocabulary for the properties of the delta loop *)

(** What the official series and the local game log hold for one season
    of a player (all zero when the season is absent). *)
Definition official_season (nba_df : list nba_row) (s : string) : totals :=
  sum_totals (stats <$> filter (λ r, season r = s) nba_df).

Definition local_season (c : conn) (player_id s : string) : totals :=
  sum_totals (g_stats <$> filter (λ g, g_season g = s)
                            (regular_season player_id (game_summary c))).

(** Official minus local, for one season and one metric of the store. *)
Definition season_delta (nba_df : list nba_row) (c : conn) (player_id s dst : string) : Z :=
  column dst (official_season nba_df s) - column dst (local_season c player_id s).

(** Some tracked metric of the aligned row has a delta other than 0. *)
Definition has_delta (row : merged_row) : Prop :=
  ∃ md, md ∈ METRICS ∧ column md.2 (m_nba row) - column md.2 (m_db row) ≠ 0.

(** The row makes the loop call [upsert_override]. *)
Definition upserted (row : merged_row) : Prop :=
  m_season row ≠ "" ∧ m_nba row ≠ m_db row.

#[global] Instance upserted_dec row : Decision (upserted row).
Proof. unfold upserted. apply _. Defined.

(** The effect of one turn of the loop on the override table. *)
Definition upsert_step (player_id : string) (t : gmap override_key totals)
    (row : merged_row) : gmap override_key totals :=
  if decide (upserted row)
  then <[(player_id, m_season row, "Regular Season") := minus (m_nba row) (m_db row)]> t
  else t.

End Overrides.

(** ** validate_alltime_leaders.py *)

Module ValidateLeaders.
Import Py Db Api.

(** [METRICS]: metric key, then its [table] and [db_col]. *)
Definition METRICS : list (string * (string * string)) :=
  [("points", ("PTS", "points")); ("rebounds", ("REB", "rebounds"));
   ("assists", ("AST", "assists")); ("steals", ("STL", "steals"));
   ("blocks", ("BLK", "blocks"))].

Definition TOP_N : nat := 25.

(** [request_with_retries] with its keyword arguments left at their defaults. *)
Definition request_with_retries `{World} {A} (callable_fn : nat → outcome A)
    : list Retry.event * outcome A :=
  Retry.request_with_retries callable_fn uniform
    Retry.MAX_ATTEMPTS Retry.BASE_DELAY Retry.MAX_DELAY.

(** *** The totals cache *)

(** What is found at [CAREER_TOTALS_CACHE] when it is opened. *)
Inductive cache_file : Type :=
| NoFile                                    (* the path does not exist *)
| Unreadable                                (* open or json.load raises *)
| NotADict                                  (* valid JSON, not an object *)
| Document (d : gmap string (gmap string Z)).   (* player_id to record *)

(** The module-level [_CAREER_CACHE], the cache file, and whether writing
    the file succeeds. *)
Record cache : Type := Cache {
  _CAREER_CACHE : gmap string (gmap string Z);
  file : cache_file;
  disk_ok : bool;
}.

Definition _load_cache (st : cache) : cache :=
  match file st with
  | NoFile => st
  | Document d => Cache d (file st) (disk_ok st)
  | NotADict => st
  | Unreadable => Cache ∅ (file st) (disk_ok st)   (* except Exception *)
  end.

(** Write to the temporary file, then rename it over the cache file; a
    failure is swallowed. *)
Definition _save_cache (st : cache) : cache :=
  if disk_ok st then Cache (_CAREER_CACHE st) (Document (_CAREER_CACHE st)) (disk_ok st)
  else st.

Definition TOTAL_KEYS : list string := ["PTS"; "REB"; "AST"; "STL"; "BLK"].

(** [cached and all(k in cached for k in [...])] *)
Definition full_record (cached : option (gmap string Z)) : bool :=
  match cached with
  | None => false
  | Some r => negb (bool_decide (r = ∅)) && forallb (λ k, bool_decide (is_Some (r !! k))) TOTAL_KEYS
  end.

(** [df[label]]: the cells of the column with exactly this label;
    [KeyError] when the frame has none. *)
Definition column_cells (f : frame) (label : string) : outcome (list cell) :=
  match find_column (String.eqb label) (columns f) with
  | Some i => Returned ((λ row, cell_at row i) <$> rows f)
  | None => Raised label
  end.

(** [int(pd.to_numeric(df[label], errors="coerce").fillna(0).sum())] *)
Definition column_total `{PyText} (f : frame) (label : string) : outcome Z :=
  cells ← column_cells f label;
  Returned (sum_with coerce_int cells).

(** The body of the [try] of [fetch_official_totals], once the request
    has returned its frames: [None] when no frame fits, the totals
    otherwise. *)
Definition career_totals `{PyText} (frames : list frame)
    : outcome (option (gmap string Z)) :=
  match CoverageScan.select_frame TOTAL_KEYS frames with
  | None => Returned None
  | Some f =>
      pts ← column_total f "PTS";
      reb ← column_total f "REB";
      ast ← column_total f "AST";
      stl ← column_total f "STL";
      blk ← column_total f "BLK";
      Returned (Some (<["PTS" := pts]> (<["REB" := reb]> (<["AST" := ast]>
                        (<["STL" := stl]> (<["BLK" := blk]> ∅))))))
  end.

(** [fetch_official_totals]: the cache afterwards, what the executor did,
    and the result ([None] for Python's [None]). *)
Definition fetch_official_totals `{World, PyText} (player_id : string) (st : cache)
    : cache * list Retry.event * option (gmap string Z) :=
  let st := if bool_decide (_CAREER_CACHE st = ∅) then _load_cache st else st in
  let cached := _CAREER_CACHE st !! player_id in
  if full_record cached then (st, [], cached)
  else
    let '(evs, res) := request_with_retries (PlayerCareerStats player_id) in
    match res ≫= career_totals with
    | Returned (Some totals) =>
        let st' := Cache (<[player_id := totals]> (_CAREER_CACHE st)) (file st) (disk_ok st) in
        (_save_cache st', evs, Some totals)
    | Returned None => (st, evs, None)
    | Raised _ => (st, evs, None)               (* except Exception: return None *)
    end.

(** *** Totals of the local store *)

(** [SUM(col)] over the override rows of the player in the regular season. *)
Definition override_total (label player_id : string) (t : gmap override_key totals) : Z :=
  map_fold (λ k v acc,
              if decide (k.1.1 = player_id ∧ k.2 = "Regular Season")
              then column label v + acc else acc) 0 t.

(** What one override row adds to [override_total]. *)
Definition contribution (label player_id : string) (k : override_key) (v : totals) : Z :=
  if decide (k.1.1 = player_id ∧ k.2 = "Regular Season") then column label v else 0.

(** [get_db_total]: the regular-season sum of [game_summary] plus the sum
    of the overrides, 0 when the override table does not exist. *)
Definition get_db_total (c : conn) (player_id db_col : string) : Z :=
  let base_total := sum_column db_col (g_stats <$> regular_season player_id (game_summary c)) in
  let override_total :=
    match season_totals_override c with
    | Some t => override_total db_col player_id t
    | None => 0                                  (* except sqlite3.Error *)
    end in
  base_total + override_total.

Definition get_null_season_type_count (c : conn) (player_id : string) : Z :=
  Z.of_nat (length (filter (λ r, r.1 = player_id ∧ r.2 = None) (player_stats c))).

(** *** The leaderboard check *)

Record report_row : Type := ReportRow {
  r_metric : string;
  r_rank : option Z;
  r_player_id : string;
  r_player : string;
  r_nba_official : Z;
  r_db_total : Z;
  r_delta : Z;
  r_null_season_type_rows : Z;
}.

(** [row[label]] for a row of [f] when [label in row]. *)
Definition row_get (f : frame) (row : list cell) (label : string) : option cell :=
  cell_at row <$> find_column (String.eqb label) (columns f).

(** The first of [labels] that the row has, with its cell. *)
Definition first_present (f : frame) (row : list cell) (labels : list string) : option cell :=
  list_find (λ l, is_Some (row_get f row l)) labels ≫= λ il, row_get f row il.2.

(** One turn of the loop of [validate_metric]: [None] when the row is
    skipped ([continue]), the report row otherwise. *)
Definition validate_row `{PyText} (c : conn) (metric_key table_key db_col : string)
    (rank_col : option string) (f : frame) (row : list cell) : outcome (option report_row) :=
  match first_present f row ["PLAYER_ID"; "PERSON_ID"; "PLAYERID"; "PERSONID"] with
  | None => Returned None
  | Some pid_cell =>
      let player_id := py_str pid_cell in
      let player_name :=
        match first_present f row ["PLAYER"; "PLAYER_NAME"; "PLAYER_NAME_LAST_FIRST";
                                   "DISPLAY_FIRST_LAST"] with
        | Some n => if bool_decide (py_str n = "") then "Unknown" else py_str n
        | None => "Unknown"
        end in
      let official_value :=
        default CNone (first_present f row [table_key; "VALUE"; lower table_key]) in
      match py_int official_value with
      | Raised _ => Returned None                     (* except Exception: continue *)
      | Returned official_value =>
          let db_total := get_db_total c player_id db_col in
          let delta := db_total - official_value in
          let null_season := get_null_season_type_count c player_id in
          rank ← match rank_col ≫= row_get f row with
                 | Some r => z ← py_int r; Returned (Some z)
                 | None => Returned None
                 end;
          Returned (Some (ReportRow metric_key rank player_id player_name
                            official_value db_total delta null_season))
      end
  end.

(** [validate_metric], on the leaders as [sort_values] leaves them (the
    order of the rows is not modelled): the report rows and the
    discrepancies. *)
Definition validate_metric `{PyText} (df : frame) (metric_key : string) (c : conn)
    : outcome (list report_row * list report_row) :=
  match list_find (λ m, m.1 = metric_key) METRICS with
  | None => Raised metric_key                          (* KeyError *)
  | Some (_, (_, (table_key, db_col))) =>
      let rank_col :=
        snd <$> list_find (λ l, l ∈ columns df) [table_key +:+ "_RANK"; "RANK"; "Rank"] in
      let rank_col := rank_col ≫= λ l, if bool_decide (l = "") then None else Some l in
      report_rows ← Overrides.for_each
        (λ acc row,
           r ← validate_row c metric_key table_key db_col rank_col df row;
           Returned (acc ++ option_list r))
        [] (take TOP_N (rows df));
      Returned (report_rows, filter (λ r, r_delta r ≠ 0) report_rows)
  end.

End ValidateLeaders.

(** *** The fallback of the leaderboard check *)

Module ValidateFallback.
Import Py Db Api ValidateLeaders.

(** A row of [compute_db_top25]: player_id, player, db_total. *)
Record top_row : Type := TopRow {
  t_player_id : string;
  t_player : string;
  t_db_total : Z;
}.

(** The rows of [game_summary JOIN players ON p.id = s.player_id] in the
    regular season, each with the player's name and its count for the
    metric.  The table [players] is given by its columns [id] and
    [full_name]. *)
Definition joined (players : list (string * string)) (c : conn) (db_col : string)
    : list (string * string * Z) :=
  s ← filter (λ g, g_season_type g = "Regular Season") (game_summary c);
  p ← filter (λ p, p.1 = g_player_id s) players;
  [(g_player_id s, p.2, column db_col (g_stats s))].

(** [ORDER BY db_total DESC] *)
Definition by_total_desc (a b : top_row) : Prop := t_db_total b ≤ t_db_total a.

#[global] Instance by_total_desc_dec a b : Decision (by_total_desc a b).
Proof. unfold by_total_desc. apply _. Defined.

(** [compute_db_top25]: grouped by player and name, the largest totals
    first, at most [TOP_N] rows (SQL leaves the order among equal totals
    open; the merge sort fixes one). *)
Definition compute_db_top25 (players : list (string * string)) (c : conn)
    (metric_key : string) : outcome (list top_row) :=
  match list_find (λ m, m.1 = metric_key) METRICS with
  | None => Raised metric_key                          (* KeyError *)
  | Some (_, (_, (_, db_col))) =>
      let rows := joined players c db_col in
      let groups := remove_dups ((λ x, x.1) <$> rows) in
      let totals :=
        (λ g, TopRow g.1 g.2 (sum_with (λ x, x.2) (filter (λ x, x.1 = g) rows)))
        <$> groups in
      Returned (take TOP_N (merge_sort by_total_desc totals))
  end.

(** A report row of the fallback: the official total and the delta are
    [None] when the official totals could not be fetched. *)
Record fallback_row : Type := FallbackRow {
  f_metric : string;
  f_rank : Z;
  f_player_id : string;
  f_player : string;
  f_nba_official : option Z;
  f_db_total : Z;
  f_delta : option Z;
  f_null_season_type_rows : Z;
}.

(** The state of the loop: the cache, what the executor has done so far,
    the report rows and the discrepancies. *)
Record progress : Type := Progress {
  p_cache : cache;
  p_events : list Retry.event;
  p_report : list fallback_row;
  p_discrepancies : list fallback_row;
}.

(** One turn of the loop of [validate_metric_fallback]. *)
Definition fallback_step `{World, PyText} (c : conn) (metric_key table_key : string)
    (acc : progress) (ranked : Z * top_row) : progress :=
  let '(rank, row) := ranked in
  let player_id := t_player_id row in
  let db_total := t_db_total row in
  let '(st, evs, official_totals) := fetch_official_totals player_id (p_cache acc) in
  let nba_official := (λ totals, default 0 (totals !! table_key)) <$> official_totals in
  let delta := (λ official, db_total - official) <$> nba_official in
  let null_season := get_null_season_type_count c player_id in
  let row_info := FallbackRow metric_key rank player_id (t_player row) nba_official
                    db_total delta null_season in
  Progress st (p_events acc ++ evs) (p_report acc ++ [row_info])
    (p_discrepancies acc
     ++ match delta with
        | Some d => if bool_decide (d ≠ 0) then [row_info] else []
        | None => []
        end).

(** [validate_metric_fallback], from the cache [st] on: the cache
    afterwards, the events, and the two lists it returns. *)
Definition validate_metric_fallback `{World, PyText} (players : list (string * string))
    (metric_key : string) (c : conn) (st : cache) : outcome progress :=
  db_top ← compute_db_top25 players c metric_key;
  match list_find (λ m, m.1 = metric_key) METRICS with
  | None => Raised metric_key
  | Some (_, (_, (table_key, _))) =>
      Returned (foldl (fallback_step c metric_key table_key) (Progress st [] [] [])
                  (zip (Z.of_nat <$> seq 1 (length db_top)) db_top))
  end.

End ValidateFallback.

(** ** update_active_players_nba_api.py *)

Module UpdateActive.
Import Py.

(** A game record as [df.to_dict('records')] yields it. *)
Abbreviation record := (gmap string cell).

(** A row of [game_summary] in the remote database, as inserted (the
    age column is left out). *)
Record game_row : Type := GameRow {
  player_id : string;
  player_name : string;
  game_id : cell;
  game_date : cell;
  season : string;
  season_type : string;
  points : cell;
  rebounds : cell;
  assists : cell;
  blocks : cell;
  steals : cell;
}.

Record stats : Type := Stats {
  players_processed : Z;
  games_added : Z;
  games_skipped : Z;
  errors : Z;
}.

(** The game log service. *)
Class GameLog := {
  (** [PlayerGameLog(player_id, season, 'Regular Season')] followed by
      [get_data_frames()]. *)
  PlayerGameLog : string → string → outcome (list frame);
}.

(** The state of a run: the remote [game_summary] table, the script of
    the statements still to come on the connection ([Some e] makes the
    next statement raise [e]; an exhausted script means that every
    further statement succeeds), and the [stats] counters. *)
Record state : Type := State {
  game_summary : list game_row;
  faults : list (option exn);
  counters : stats;
}.

(** Computations over the connection and the counters that may raise. *)
Definition M (A : Type) : Type := state → outcome A * state.

#[global] Instance M_ret : MRet M := λ A a s, (Returned a, s).
#[global] Instance M_bind : MBind M := λ A B k m s,
  match m s with
  | (Returned a, s') => k a s'
  | (Raised e, s') => (Raised e, s')
  end.

Definition raise {A} (e : exn) : M A := λ s, (Raised e, s).

(** [try: m except Exception as e: handler e] *)
Definition catch {A} (m : M A) (handler : exn → M A) : M A := λ s,
  match m s with
  | (Returned a, s') => (Returned a, s')
  | (Raised e, s') => handler e s'
  end.

(** One statement on the connection ([cursor.execute], [conn.commit]):
    it raises when the script says so, and otherwise applies [run]. *)
Definition statement {A} (run : list game_row → A * list game_row) : M A := λ s,
  match faults s with
  | Some e :: fs => (Raised e, State (game_summary s) fs (counters s))
  | None :: fs =>
      let '(a, rows') := run (game_summary s) in
      (Returned a, State rows' fs (counters s))
  | [] =>
      let '(a, rows') := run (game_summary s) in
      (Returned a, State rows' [] (counters s))
  end.

Definition count (f : stats → stats) : M () := λ s,
  (Returned (), State (game_summary s) (faults s) (f (counters s))).

(** [game[key]]: [KeyError] when the record has no such key. *)
Definition getitem (game : record) (key : string) : M cell :=
  match game !! key with
  | Some c => mret c
  | None => raise key
  end.

(** [game.get(key, 0) or 0] *)
Definition get_or_0 (game : record) (key : string) : cell :=
  let c := default (CInt 0) (game !! key) in
  if truthy c then c else CInt 0.

(** [df.to_dict('records')] *)
Definition to_records (f : frame) : list record :=
  (λ row, list_to_map (zip (columns f) row)) <$> rows f.

(** [fetch_player_games]: every exception ends in the empty list. *)
Definition fetch_player_games `{GameLog} (player_id season : string) : list record :=
  match PlayerGameLog player_id season with
  | Returned (f :: _) => to_records f
  | Returned [] => []           (* get_data_frames()[0]: IndexError, caught *)
  | Raised _ => []
  end.

(** The body of the loop over the games of one player. *)
Definition add_game (player_id player_name season : string) (game : record) : M () :=
  game_id ← getitem game "Game_ID";
  found ← statement (λ rows,
    (bool_decide (Exists (λ r, UpdateActive.player_id r = player_id ∧
                               UpdateActive.game_id r = game_id) rows), rows));
  if (found : bool) then count (λ st, Stats (players_processed st) (games_added st)
                                   (games_skipped st + 1) (errors st))
  else
    game_date ← getitem game "GAME_DATE";
    _ ← statement (λ rows,
      ((), rows ++ [GameRow player_id player_name game_id game_date season
                      "Regular Season"
                      (get_or_0 game "PTS") (get_or_0 game "REB") (get_or_0 game "AST")
                      (get_or_0 game "BLK") (get_or_0 game "STL")]));
    count (λ st, Stats (players_processed st) (games_added st + 1)
                   (games_skipped st) (errors st)).

Fixpoint for_each {X} (body : X → M ()) (xs : list X) : M () :=
  match xs with
  | [] => mret ()
  | x :: xs' => _ ← body x; for_each body xs'
  end.

(** The body of the [try] of one player. *)
Definition process `{GameLog} (season : string) (player : string * string) : M () :=
  let '(player_id, player_name) := player in
  _ ← for_each (add_game player_id player_name season)
        (fetch_player_games player_id season);
  _ ← statement (λ rows, ((), rows));                               (* conn.commit() *)
  count (λ st, Stats (players_processed st + 1) (games_added st)
                 (games_skipped st) (errors st)).

(** The loop of [update_database] over the active players (id and name;
    the birthdate only feeds the age column, which is left out). *)
Definition update_database `{GameLog} (season : string)
    (active_players : list (string * string)) : M () :=
  for_each (λ player,
              catch (process season player)
                    (λ _, count (λ st, Stats (players_processed st) (games_added st)
                                         (games_skipped st) (errors st + 1))))
           active_players.

(** The two counters the per-player [try] accounts for:
    [players_processed] and [errors]. *)
Definition tally (s : state) : Z * Z :=
  (players_processed (counters s), errors (counters s)).

End UpdateActive.

(** *** Vocabulary for the rows a run appends *)

Module UpdateLog.
Import Py UpdateActive.

(** The pair the existence check of [update_database] looks up. *)
Definition key (r : game_row) : string * cell := (player_id r, game_id r).

(** A count as [game.get(key, 0) or 0] leaves it: the value of the
    record when it is truthy, the integer 0 otherwise; never [None]. *)
Definition count_ok (c : cell) : Prop := truthy c = true ∨ c = CInt 0.

Definition counts_ok (r : game_row) : Prop :=
  count_ok (points r) ∧ count_ok (rebounds r) ∧ count_ok (assists r)
  ∧ count_ok (blocks r) ∧ count_ok (steals r).

(** [s'] is [s] after a run that only appended rows, each satisfying
    [P], counted each of them in [games_added], and inserted no pair
    of player and game that was already there. *)
Definition grows (P : game_row → Prop) (s s' : state) : Prop :=
  ∃ added : list game_row,
    game_summary s' = game_summary s ++ added
    ∧ games_added (counters s') = games_added (counters s) + Z.of_nat (length added)
    ∧ games_skipped (counters s) ≤ games_skipped (counters s')
    ∧ Forall P added
    ∧ (NoDup (key <$> game_summary s) → NoDup (key <$> game_summary s')).

End UpdateLog.

(** *** Seasons and ages *)

Module UpdateDates.
Import Py.

(** [s[-n:]] on a string, for [n > 0]. *)
Fixpoint string_drop (k : nat) (s : string) : string :=
  match k, s with
  | O, _ => s
  | S _, EmptyString => EmptyString
  | S k', String _ s' => string_drop k' s'
  end.

Definition last_chars (n : nat) (s : string) : string :=
  string_drop (String.length s - n) s.

(** [get_current_season], from the year and the month of [datetime.now()]. *)
Definition get_current_season (year month : Z) : string :=
  let season_start := if bool_decide (10 ≤ month) then year else year - 1 in
  let season_end := last_chars 2 (pretty (season_start + 1)) in
  pretty season_start +:+ "-" +:+ season_end.

(** A calendar date, as [datetime] holds it. *)
Record date : Type := Date {
  year : Z;
  month : Z;
  day : Z;
}.

(** [datetime.strptime(text, "%Y-%m-%d")]: [None] when it raises (the
    text does not have the format, or the argument is not text). *)
Class Strptime := strptime : cell → option date.

(** [calculate_age_at_game]: [None] for Python's [None]. *)
Definition calculate_age_at_game `{Strptime} (birthdate game_date : cell) : option Z :=
  match strptime birthdate with
  | None => None                                   (* except: return None *)
  | Some birth =>
      match strptime game_date with
      | None => None
      | Some game =>
          let age := year game - year birth in
          Some (if bool_decide (month game < month birth
                                ∨ (month game = month birth ∧ day game < day birth))
                then age - 1 else age)
      end
  end.

(** Vocabulary: the calendar order, and the [n]-th birthday. *)
Definition date_lt (a b : date) : Prop :=
  year a < year b
  ∨ (year a = year b
     ∧ (month a < month b ∨ (month a = month b ∧ day a < day b))).

Definition birthday (birth : date) (n : Z) : date :=
  Date (year birth + n) (month birth) (day birth).

(** The decimal digit of [pretty], and text without a minus sign. *)
Definition digit (n : Z) : ascii := pretty_N_char (Z.to_N n).

Fixpoint dashless (s : string) : Prop :=
  match s with
  | EmptyString => True
  | String c s' => c ≠ "-"%char ∧ dashless s'
  end.

End UpdateDates.

(** ** Concrete runtimes for the worked examples *)

Module Examples.
Import Py Api.

Fixpoint digits (s : string) (acc : Z) : option Z :=
  match s with
  | EmptyString => Some acc
  | String c s' =>
      let n := nat_of_ascii c in
      if ((48 <=? n) && (n <=? 57))%nat
      then digits s' (10 * acc + Z.of_nat (n - 48))
      else None
  end.

(** A plain decimal integer, with an optional minus sign. *)
Definition decimal (s : string) : option Z :=
  match s with
  | EmptyString => None
  | String "-" EmptyString => None
  | String "-" s' => Z.opp <$> digits s' 0
  | _ => digits s 0
  end.

(** A runtime in which text is a number exactly when it is a plain
    decimal integer. *)
Definition plain_text : PyText :=
  {| numeric_text := decimal; int_text := decimal |}.

(** A provider whose career request fails twice with transient errors
    for player 2544 and then answers, fails for good for player 1, has
    no frame for player 9, and answers at once for everyone else; the
    answer is one frame of two seasons, the older one with a missing
    steals count and an unreadable blocks count. *)
Definition career_frame : frame :=
  Frame ["SEASON_ID"; "Team_ID"; "GP"; "PTS"; "REB"; "AST"; "STL"; "BLK"]
        [[CStr "2018-19"; CInt 7; CInt 3; CInt 7; CInt 0; CInt 0; CNaN; CStr "n/a"];
         [CStr "2019-20"; CInt 7; CInt 10; CInt 100; CInt 10; CInt 5; CInt 0; CInt 0]].

Definition example_world : World :=
  {| PlayerCareerStats player_id attempt :=
       if bool_decide (player_id = "1") then Raised "404 Client Error: Not Found"
       else if bool_decide (player_id = "2544") then
         match attempt with
         | 1%nat => Raised "HTTP 429 Too Many Requests"
         | 2%nat => Raised "Read timed out."
         | _ => Returned [career_frame]
         end
       else if bool_decide (player_id = "9") then Returned []
       else Returned [career_frame];
     AllTimeLeadersGrids attempt := Returned [];
     uniform attempt := 3 # 10 |}.


Definition leaders_zero : frame :=
  Frame ["PLAYER_ID"; "PLAYER_NAME"; "PTS"] [[CInt 2544; CStr "LeBron James"; CInt 0]].

(** A career record, a cache file that holds it, a cache file that cannot
    be read, and the totals of [career_frame]. *)
Definition lebron_totals : gmap string Z :=
  <["PTS" := 38652]> (<["REB" := 10210]> (<["AST" := 10420]>
    (<["STL" := 2219]> (<["BLK" := 1073]> ∅)))).
Definition cache_on_disk : ValidateLeaders.cache := ValidateLeaders.Cache ∅ (ValidateLeaders.Document {["2544" := lebron_totals]}) true.
Definition cache_corrupt : ValidateLeaders.cache := ValidateLeaders.Cache ∅ ValidateLeaders.Unreadable true.
Definition career_frame_totals : gmap string Z :=
  <["PTS" := 107]> (<["REB" := 10]> (<["AST" := 5]> (<["STL" := 0]> (<["BLK" := 0]> ∅)))).

(** Local stores.  [store_fresh]: player 3 has 92 points logged for
    2019-20 and no override.  [store_stale]: the 8 missing points have
    been logged since an override of 8 was stored.  [store_blank]: a game
    of player 9 with an empty season. *)
Definition regular (player_id game_id season : string) (t : Db.totals) : Db.game :=
  Db.Game player_id game_id season "Regular Season" t.

Definition store_fresh : Db.conn :=
  Db.Conn [regular "3" "g1" "2019-20" (Db.Totals 92 10 5 0 0)] (Some ∅) [].

Definition store_stale : Db.conn :=
  Db.Conn [regular "3" "g1" "2019-20" (Db.Totals 92 10 5 0 0);
           regular "3" "g2" "2019-20" (Db.Totals 8 0 0 0 0)]
          (Some {[("3", "2019-20", "Regular Season") := Db.Totals 8 0 0 0 0]}) [].

Definition store_blank : Db.conn :=
  Db.Conn [regular "9" "g1" "" (Db.Totals 5 1 0 0 0)] (Some ∅) [].

(** The official series of player 3, as [career_frame] normalizes. *)
Definition career_rows : list CoverageScan.nba_row :=
  [CoverageScan.NbaRow "2018-19" 3 (Db.Totals 7 0 0 0 0);
   CoverageScan.NbaRow "2019-20" 10 (Db.Totals 100 10 5 0 0)].

(** A game log service whose record for player 1 lacks [Game_ID], and
    which has one well-formed game for everyone else. *)
Definition example_game_log : UpdateActive.GameLog :=
  {| UpdateActive.PlayerGameLog player_id season :=
       if bool_decide (player_id = "1")
       then Returned [Frame ["GAME_DATE"; "PTS"] [[CStr "2025-11-01"; CInt 10]]]
       else Returned [Frame ["Game_ID"; "GAME_DATE"; "PTS"; "REB"; "AST"; "STL"; "BLK"]
                        [[CStr "0022500001"; CStr "2025-11-01";
                          CInt 30; CInt 8; CInt 9; CNone; CInt 1]]] |}.

End Examples.

(** ** More runtimes for the worked examples *)

Module MoreExamples.
Import Py Api.

(** A career response whose labels are in lower case, and a provider
    that answers every career request with it. *)
Definition lowercase_frame : frame :=
  Frame ["season_id"; "gp"; "pts"; "reb"; "ast"; "stl"; "blk"]
        [[CStr "2019-20"; CInt 10; CInt 100; CInt 10; CInt 5; CInt 0; CInt 0]].

Definition lowercase_world : World :=
  {| PlayerCareerStats player_id attempt := Returned [lowercase_frame];
     AllTimeLeadersGrids attempt := Returned [];
     uniform attempt := 3 # 10 |}.

(** A leaderboard of one row whose rank is missing. *)
Definition leaders_no_rank : frame :=
  Frame ["PLAYER_ID"; "PLAYER_NAME"; "PTS"; "PTS_RANK"]
        [[CInt 2544; CStr "LeBron James"; CInt 38652; CNaN]].

(** The [players] table: id and full name. *)
Definition players_table : list (string * string) := [("3", "Player Three")].

End MoreExamples.

(** ** Proof automation *)

(** Case analysis on membership in a list given by its elements: [tac]
    closes the goal for each element in turn. *)
Tactic Notation "each_elem" ident(H) "with" tactic3(tac) :=
  repeat (apply elem_of_cons in H as [-> | H]; [solve [tac] |]);
  by apply elem_of_nil in H.

(** * Properties *)

(** ** The override store *)

Section override_store.
Import Py Db CoverageScan Overrides.

Lemma with_overrides_table c t : season_totals_override (with_overrides c t) = Some t.
Proof. reflexivity. Qed.

Lemma with_overrides_twice c t t' : with_overrides (with_overrides c t) t' = with_overrides c t'.
Proof. reflexivity. Qed.

Lemma upsert_override_some c t player_id season deltas :
  season_totals_override c = Some t →
  upsert_override c player_id season deltas
  = Returned (with_overrides c
                (<[(player_id, season, "Regular Season") := override_row deltas]> t)).
Proof. intros Ht. unfold upsert_override. by rewrite Ht. Qed.

Lemma upsert_override_none c player_id season deltas :
  season_totals_override c = None →
  upsert_override c player_id season deltas
  = Raised "no such table: season_totals_override".
Proof. intros Ht. unfold upsert_override. by rewrite Ht. Qed.

(** C4.  Upserting is idempotent and wholesale: running the same upsert
    a second time yields what the first run yields, and an upsert over a
    table that already holds a record [prior] under the key leaves the
    table that holds the new row under the key in place of [prior],
    whatever [prior] was; the new row has all five counts taken from
    the deltas alone. *)
Theorem upsert_override_idempotent_wholesale :
  ∀ (c : conn) (player_id season : string) (deltas : gmap string Z),
    (upsert_override c player_id season deltas
       ≫= λ c', upsert_override c' player_id season deltas)
    = upsert_override c player_id season deltas
    ∧ ∀ (t : gmap override_key totals) (prior : totals),
        let key := (player_id, season, "Regular Season") in
        upsert_override (with_overrides c (<[key := prior]> t)) player_id season deltas
        = Returned (with_overrides c (<[key := override_row deltas]> t))
        ∧ <[key := override_row deltas]> t !! key
          = Some (Totals (default 0 (deltas !! "points")) (default 0 (deltas !! "rebounds"))
                         (default 0 (deltas !! "assists")) (default 0 (deltas !! "steals"))
                         (default 0 (deltas !! "blocks"))).
Proof.
  intros c player_id season deltas. split.
  - destruct (season_totals_override c) as [t|] eqn:Ht.
    + rewrite (upsert_override_some c t) by done. simpl.
      change (upsert_override (with_overrides c ?t') _ _ _ ≫= _) with
        (upsert_override (with_overrides c t') player_id season deltas).
      rewrite (upsert_override_some _ _ _ _ _ (with_overrides_table _ _)).
      by rewrite with_overrides_twice, insert_insert_eq.
    + by rewrite upsert_override_none.
  - intros t prior key. split.
    + rewrite (upsert_override_some _ _ _ _ _ (with_overrides_table _ _)).
      by rewrite with_overrides_twice, insert_insert_eq.
    + by rewrite lookup_insert_eq.
Qed.



End override_store.

(** ** The resilient request executor *)

Section executor.
Import Py Retry.
Context {A : Type}.
Variable callable_fn : nat → outcome A.
Variable uniform : nat → Q.
Variables (max_attempts : nat) (base_delay max_delay : Q).


Lemma attempts_fatal (start : nat) (range : list nat) (last : option exn) (e : exn) :
  callable_fn start = Raised e →
  _should_retry_error e = false →
  attempts callable_fn uniform max_attempts base_delay max_delay (start :: range) last
  = ([Sleep SLEEP_SECONDS; Call start], Raised e).
Proof.
  intros He Hre. simpl. rewrite He, Hre. by rewrite orb_true_r.
Qed.

Lemma backoff_delay_nonneg (i : nat) :
  (0 <= base_delay)%Q → (0 <= max_delay)%Q →
  (0 <= backoff_delay base_delay max_delay i)%Q.
Proof.
  intros Hb Hm. unfold backoff_delay. apply Q.min_glb; [done|].
  apply Qmult_le_0_compat; [done|].
  change 0%Q with (inject_Z 0). rewrite <- Zle_Qle. apply Z.pow_nonneg. lia.
Qed.



End executor.

Section executor_claims.
Import Py Api Retry.



(** C7.  When the first call of the operation raises an error whose
    lower-cased description contains none of the transient markers (in
    particular when every call does), the executor makes that one call,
    after the pacing sleep, and raises the error: no back-off, no second
    call. *)
Theorem request_with_retries_fatal_once :
  ∀ (W : World) (A : Type) (callable_fn : nat → outcome A) (e : exn),
    callable_fn 1%nat = Raised e →
    _should_retry_error e = false →
    CoverageScan.request_with_retries callable_fn = ([Sleep 1; Call 1], Raised e)
    ∧ ValidateLeaders.request_with_retries callable_fn = ([Sleep 1; Call 1], Raised e)
    ∧ calls [Sleep 1; Call 1] = [1%nat]
    ∧ retries [Sleep 1; Call 1] = [].
Proof.
  intros W A callable_fn e He Hre.
  split_and!; try reflexivity;
    apply (attempts_fatal callable_fn uniform MAX_ATTEMPTS BASE_DELAY MAX_DELAY 1 _ None e He Hre).
Qed.

Lemma request_with_retries_fatal_once_witness :
  let W := Examples.example_world in
  CoverageScan.request_with_retries (PlayerCareerStats "1")
  = ([Sleep 1; Call 1], Raised "404 Client Error: Not Found")
  ∧ ValidateLeaders.request_with_retries (PlayerCareerStats "1")
    = ([Sleep 1; Call 1], Raised "404 Client Error: Not Found")
  ∧ calls [Sleep 1; Call 1] = [1%nat]
  ∧ retries [Sleep 1; Call 1] = [].
Proof.
  apply (request_with_retries_fatal_once Examples.example_world _
           (@PlayerCareerStats Examples.example_world "1") "404 Client Error: Not Found");
    reflexivity.
Defined.
End executor_claims.

(** ** The fetcher: coercion of metric values *)

Section fetcher.
Import Py Db Api CoverageScan ValidateLeaders.







End fetcher.

(** ** The totals cache *)

Section cache.
Import Py Db Api Retry ValidateLeaders.

Lemma full_record_spec (cached : option (gmap string Z)) :
  full_record cached = true ↔ ∃ r, cached = Some r ∧ ∀ k, k ∈ TOTAL_KEYS → is_Some (r !! k).
Proof.
  unfold full_record. split.
  - destruct cached as [r|]; [|done]. intros [_ Hall]%andb_true_iff.
    exists r. split; [done|]. intros k Hk.
    rewrite forallb_forall in Hall. apply list_elem_of_In, Hall in Hk.
    by apply bool_decide_eq_true in Hk.
  - intros (r & -> & Hall). apply andb_true_iff. split.
    + apply negb_true_iff, bool_decide_eq_false. intros ->.
      destruct (Hall "PTS") as [? Hx]; [set_solver|]. by rewrite lookup_empty in Hx.
    + apply forallb_forall. intros k Hk%list_elem_of_In. by apply bool_decide_eq_true, Hall.
Qed.

Lemma full_record_false (cached : option (gmap string Z)) :
  cached = None ∨ (∃ r k, cached = Some r ∧ k ∈ TOTAL_KEYS ∧ r !! k = None) →
  full_record cached = false.
Proof.
  intros Hmiss. apply not_true_is_false. intros (r & -> & Hall)%full_record_spec.
  destruct Hmiss as [? | (r' & k & [= <-] & Hk & Hnone)]; [done|].
  destruct (Hall k Hk) as [? Hx]. by rewrite Hnone in Hx.
Qed.

Lemma request_with_retries_calls (W : World) {A} (callable_fn : nat → outcome A) :
  ∃ evs, (ValidateLeaders.request_with_retries callable_fn).1
         = Sleep SLEEP_SECONDS :: Call 1 :: evs.
Proof.
  unfold ValidateLeaders.request_with_retries, Retry.request_with_retries. simpl.
  destruct (callable_fn 1%nat) as [a|e]; [by eexists|].
  destruct (negb (_should_retry_error e)); simpl; [by eexists|].
  destruct (callable_fn 2%nat); [by eexists|].
  match goal with |- context [let '(_, _) := ?x in _] => destruct x end.
  by eexists.
Qed.

(** C9.  With [st1] the cache after the load that an empty in-memory
    cache triggers: a record of the player that has all five keys is
    returned as it is, with no event at all (no remote call); an absent
    or partial record starts the executor (its first call is made), and
    when the request returns frames from which totals are read, those
    totals are returned, stored in the in-memory cache, and written to
    the file when the disk allows; a cache file that cannot be read or
    parsed leaves the cache empty, so that every lookup misses. *)
Theorem fetch_official_totals_cache_contract :
  ∀ (W : World) (T : PyText) (player_id : string) (st : cache),
    let st1 := if bool_decide (_CAREER_CACHE st = ∅) then _load_cache st else st in
    let cached := _CAREER_CACHE st1 !! player_id in
    (∀ r : gmap string Z,
        cached = Some r →
        (∀ k, k ∈ TOTAL_KEYS → is_Some (r !! k)) →
        fetch_official_totals player_id st = (st1, [], Some r))
    ∧ (cached = None ∨ (∃ r k, cached = Some r ∧ k ∈ TOTAL_KEYS ∧ r !! k = None) →
       ∃ evs res st',
         fetch_official_totals player_id st = (st', evs, res)
         ∧ evs = (ValidateLeaders.request_with_retries (PlayerCareerStats player_id)).1
         ∧ (∃ evs', evs = Sleep 1 :: Call 1 :: evs')
         ∧ ∀ frames totals,
             (ValidateLeaders.request_with_retries (PlayerCareerStats player_id)).2
             = Returned frames →
             career_totals frames = Returned (Some totals) →
             res = Some totals
             ∧ _CAREER_CACHE st' = <[player_id := totals]> (_CAREER_CACHE st1)
             ∧ (disk_ok st = true →
                file st' = Document (<[player_id := totals]> (_CAREER_CACHE st1))))
    ∧ (file st = Unreadable →
       _load_cache st = Cache ∅ Unreadable (disk_ok st)
       ∧ (_CAREER_CACHE st = ∅ → cached = None)).
Proof.
  intros W T player_id st st1 cached. split_and!.
  - intros r Hr Hall. unfold fetch_official_totals. fold st1. fold cached.
    assert (full_record cached = true) as ->
      by (apply full_record_spec; eauto).
    by rewrite Hr.
  - intros Hmiss%full_record_false. unfold fetch_official_totals. fold st1. fold cached.
    rewrite Hmiss.
    destruct (request_with_retries_calls W (PlayerCareerStats player_id)) as [evs' Hevs].
    destruct (ValidateLeaders.request_with_retries (PlayerCareerStats player_id))
      as [evs res] eqn:Hreq.
    simpl in Hevs.
    assert (Hdisk : disk_ok st1 = disk_ok st).
    { unfold st1, _load_cache. case_bool_decide; [|done]. by destruct (file st). }
    destruct res as [frames|e]; simpl.
    + destruct (career_totals frames) as [[totals|]|e] eqn:Htot.
      * eexists _, _, _. split_and!; [reflexivity | reflexivity | by eexists |].
        intros frames' totals' [= <-] Htot'. rewrite Htot in Htot'.
        injection Htot' as <-. split_and!; [done | |].
        -- unfold _save_cache. simpl. by destruct (disk_ok st1).
        -- intros Hok. unfold _save_cache. simpl. by rewrite Hdisk, Hok.
      * eexists _, _, _. split_and!; [reflexivity | reflexivity | by eexists |].
        intros frames' totals' [= <-] Htot'. by rewrite Htot in Htot'.
      * eexists _, _, _. split_and!; [reflexivity | reflexivity | by eexists |].
        intros frames' totals' [= <-] Htot'. by rewrite Htot in Htot'.
    + eexists _, _, _. split_and!; [reflexivity | reflexivity | by eexists |].
      intros frames' totals' [=].
  - intros Hfile. split.
    + unfold _load_cache. by rewrite Hfile.
    + intros Hempty. unfold cached, st1. rewrite bool_decide_eq_true_2 by done.
      unfold _load_cache. rewrite Hfile. simpl. apply lookup_empty.
Qed.

Lemma fetch_official_totals_cache_contract_witness :
  let W := Examples.example_world in
  let T := Examples.plain_text in
  fetch_official_totals "2544" Examples.cache_on_disk
  = (Cache {["2544" := Examples.lebron_totals]} (Document {["2544" := Examples.lebron_totals]}) true,
     [], Some Examples.lebron_totals)
  ∧ ∃ evs st',
      fetch_official_totals "3" Examples.cache_corrupt = (st', evs, Some Examples.career_frame_totals)
      ∧ calls evs = [1%nat]
      ∧ _CAREER_CACHE st' = {["3" := Examples.career_frame_totals]}
      ∧ file st' = Document {["3" := Examples.career_frame_totals]}.
Proof.
  split.
  - apply (fetch_official_totals_cache_contract Examples.example_world Examples.plain_text
             "2544" Examples.cache_on_disk).
    + reflexivity.
    + intros k Hk. unfold TOTAL_KEYS in Hk. each_elem Hk with (by eexists).
  - destruct (fetch_official_totals_cache_contract Examples.example_world Examples.plain_text
                "3" Examples.cache_corrupt) as (_ & Hmiss & _).
    destruct Hmiss as (evs & res & st' & Hrun & Hevs & _ & Hok); [by left|].
    destruct (Hok [Examples.career_frame] Examples.career_frame_totals) as (-> & Hmem & Hfile);
      [reflexivity | reflexivity |].
    exists evs, st'. split_and!; [done | by rewrite Hevs | done | by apply Hfile].
Defined.
End cache.

(** ** Sums, grouping and the outer merge *)

Section sums.
Import Db.
Context {X : Type}.

Lemma sum_with_app (f : X → Z) (l1 l2 : list X) :
  sum_with f (l1 ++ l2) = sum_with f l1 + sum_with f l2.
Proof. induction l1 as [|x l1 IH]; simpl; [done|]. rewrite IH. lia. Qed.

Lemma sum_with_ext (f g : X → Z) (l : list X) :
  (∀ x, x ∈ l → f x = g x) → sum_with f l = sum_with g l.
Proof.
  induction l as [|x l IH]; intros Hfg; simpl; [done|].
  rewrite Hfg by left. rewrite IH; [done|]. intros y Hy. apply Hfg. by right.
Qed.

Lemma sum_with_zero (f : X → Z) (l : list X) :
  (∀ x, x ∈ l → f x = 0) → sum_with f l = 0.
Proof.
  induction l as [|x l IH]; intros Hf; simpl; [done|].
  rewrite Hf by left. rewrite IH; [done|]. intros y Hy. apply Hf. by right.
Qed.

Lemma sum_with_plus (f g : X → Z) (l : list X) :
  sum_with (λ x, f x + g x) l = sum_with f l + sum_with g l.
Proof. induction l as [|x l IH]; simpl; [done|]. rewrite IH. lia. Qed.

Lemma sum_with_minus (f g : X → Z) (l : list X) :
  sum_with (λ x, f x - g x) l = sum_with f l - sum_with g l.
Proof. induction l as [|x l IH]; simpl; [done|]. rewrite IH. lia. Qed.

Lemma sum_with_fmap {Y} (h : Y → X) (f : X → Z) (l : list Y) :
  sum_with f (h <$> l) = sum_with (λ y, f (h y)) l.
Proof. unfold sum_with. induction l as [|y l IH]; simpl; [done|]. by f_equal. Qed.

Lemma sum_with_bind {Y} (h : Y → list X) (f : X → Z) (l : list Y) :
  sum_with f (l ≫= h) = sum_with (λ y, sum_with f (h y)) l.
Proof.
  induction l as [|y l IH]; [done|].
  change ((y :: l) ≫= h) with (h y ++ (l ≫= h)).
  rewrite sum_with_app, IH. reflexivity.
Qed.

Lemma sum_with_filter (P : X → Prop) `{∀ x, Decision (P x)} (f : X → Z) (l : list X) :
  sum_with f (filter P l) = sum_with (λ x, if decide (P x) then f x else 0) l.
Proof.
  induction l as [|x l IH]; simpl; [done|].
  rewrite filter_cons. destruct (decide (P x)); simpl; rewrite IH; lia.
Qed.

Lemma sum_with_perm (f : X → Z) (l1 l2 : list X) :
  l1 ≡ₚ l2 → sum_with f l1 = sum_with f l2.
Proof. induction 1; simpl; lia. Qed.

End sums.

Section group_by.
Import Db.

(** A value counted once: the sum over distinct keys of the indicator of one of them. *)
Lemma sum_with_indicator (k0 : string) (c : Z) (K : list string) :
  NoDup K → k0 ∈ K →
  sum_with (λ k, if decide (k0 = k) then c else 0) K = c.
Proof.
  induction 1 as [|k K Hk HK IH]; intros Hin; [by apply elem_of_nil in Hin|].
  simpl. destruct (decide (k0 = k)) as [->|Hne].
  - rewrite sum_with_zero; [lia|]. intros k' Hk'. rewrite decide_False; [done|].
    by intros ->.
  - rewrite IH; [lia|]. apply elem_of_cons in Hin as [?|?]; done.
Qed.

Lemma sum_group_by {X} (key : X → string) (f : X → Z) (K : list string) (l : list X) :
  NoDup K →
  (∀ x, x ∈ l → key x ∈ K) →
  sum_with (λ k, sum_with f (filter (λ x, key x = k) l)) K = sum_with f l.
Proof.
  intros HK. induction l as [|x l IH]; intros Hkeys.
  - simpl. by apply sum_with_zero.
  - simpl. rewrite <- IH by (intros y Hy; apply Hkeys; by right).
    rewrite <- (sum_with_indicator (key x) (f x) K HK) at 1 by (apply Hkeys; left).
    rewrite <- sum_with_plus. apply sum_with_ext. intros k _.
    rewrite filter_cons. destruct (decide (key x = k)); simpl; lia.
Qed.

End group_by.
Section merge.
Import Py.
Context {A B : Type}.
Implicit Types (l : list (string * A)) (r : list (string * B)) (k : string).

Lemma merge_keys_perm l r :
  merge_sort String.le (remove_dups (l.*1 ++ r.*1)) ≡ₚ remove_dups (l.*1 ++ r.*1).
Proof. apply merge_sort_Permutation. Qed.

Lemma elem_of_merge_keys l r k :
  k ∈ merge_sort String.le (remove_dups (l.*1 ++ r.*1)) ↔ k ∈ l.*1 ∨ k ∈ r.*1.
Proof. by rewrite merge_keys_perm, elem_of_remove_dups, elem_of_app. Qed.

Lemma NoDup_merge_keys l r : NoDup (merge_sort String.le (remove_dups (l.*1 ++ r.*1))).
Proof. rewrite merge_keys_perm. apply NoDup_remove_dups. Qed.

Lemma elem_of_filter_key {X} (xs : list (string * X)) k (x : string * X) :
  x ∈ filter (λ y, y.1 = k) xs ↔ x.1 = k ∧ x ∈ xs.
Proof. exact (list_elem_of_filter (λ y, y.1 = k) xs x). Qed.

Lemma filter_key_nil {X} (xs : list (string * X)) k :
  filter (λ y, y.1 = k) xs = [] ↔ k ∉ xs.*1.
Proof.
  split.
  - intros Hnil ((k' & x) & -> & Hin)%list_elem_of_fmap.
    assert ((k', x) ∈ filter (λ y, y.1 = k') xs) as Hf by (by apply elem_of_filter_key).
    simpl in Hnil. rewrite Hnil in Hf. by apply elem_of_nil in Hf.
  - intros Hk. destruct (filter _ xs) as [|x ys] eqn:Hf; [done|]. exfalso. apply Hk.
    assert (x ∈ filter (λ y, y.1 = k) xs) as [<- Hin]%elem_of_filter_key
      by (rewrite Hf; left).
    apply list_elem_of_fmap. eauto.
Qed.

Lemma filter_key_NoDup {X} (xs : list (string * X)) k :
  NoDup xs.*1 → (length (filter (λ y, y.1 = k) xs) ≤ 1)%nat.
Proof.
  induction xs as [|[k' x] xs IH]; simpl; intros Hnd; [lia|].
  apply NoDup_cons in Hnd as [Hk' Hnd]. rewrite filter_cons. simpl.
  destruct (decide (k' = k)) as [->|]; [|by apply IH].
  apply filter_key_nil in Hk'. simpl. rewrite Hk'. simpl. lia.
Qed.

(** The rows of the outer merge. *)
Lemma elem_of_merge_outer l r k (oa : option A) (ob : option B) :
  (k, oa, ob) ∈ merge_outer l r ↔
  match oa, ob with
  | Some a, Some b => (k, a) ∈ l ∧ (k, b) ∈ r
  | Some a, None => (k, a) ∈ l ∧ k ∉ r.*1
  | None, Some b => (k ∉ l.*1) ∧ (k, b) ∈ r
  | None, None => False
  end.
Proof.
  unfold merge_outer. rewrite list_elem_of_bind. split.
  - intros (k' & Hrow & Hk').
    destruct (filter (λ y, y.1 = k') l) as [|x ls] eqn:Hl;
      destruct (filter (λ y, y.1 = k') r) as [|y rs] eqn:Hr;
      cbv beta iota zeta in Hrow.
    + apply list_elem_of_fmap in Hrow as (? & _ & []%elem_of_nil).
    + apply list_elem_of_fmap in Hrow as ([k'' b] & [= -> -> ->] & Hin).
      rewrite <- Hr in Hin. apply elem_of_filter_key in Hin as [Hkey Hin]. simpl in Hkey.
      subst k''. split; [by apply filter_key_nil | done].
    + apply list_elem_of_fmap in Hrow as ([k'' a] & [= -> -> ->] & Hin).
      rewrite <- Hl in Hin. apply elem_of_filter_key in Hin as [Hkey Hin]. simpl in Hkey.
      subst k''. split; [done | by apply filter_key_nil].
    + apply list_elem_of_bind in Hrow as ([k1 a] & Hrow & Hina).
      apply list_elem_of_bind in Hrow as ([k2 b] & Hrow & Hinb).
      apply list_elem_of_singleton in Hrow as [= -> -> ->].
      rewrite <- Hl in Hina. rewrite <- Hr in Hinb.
      apply elem_of_filter_key in Hina as [Hk1 Hina].
      apply elem_of_filter_key in Hinb as [Hk2 Hinb]. simpl in *. by subst.
  - intros Hrow. exists k.
    destruct oa as [a|], ob as [b|]; [| | |done].
    + destruct Hrow as [Ha Hb]. split.
      * assert ((k, a) ∈ filter (λ y, y.1 = k) l) as Hfa by (by apply elem_of_filter_key).
        assert ((k, b) ∈ filter (λ y, y.1 = k) r) as Hfb by (by apply elem_of_filter_key).
        destruct (filter (λ y, y.1 = k) l) as [|x ls] eqn:Hl; [by apply elem_of_nil in Hfa|].
        destruct (filter (λ y, y.1 = k) r) as [|y rs] eqn:Hr; [by apply elem_of_nil in Hfb|].
        apply list_elem_of_bind. exists (k, a). split; [|done].
        apply list_elem_of_bind. exists (k, b). split; [|done].
        by apply list_elem_of_singleton.
      * apply elem_of_merge_keys. left. apply list_elem_of_fmap. by exists (k, a).
    + destruct Hrow as [Ha Hb]. split.
      * assert ((k, a) ∈ filter (λ y, y.1 = k) l) as Hfa by (by apply elem_of_filter_key).
        apply filter_key_nil in Hb. rewrite Hb.
        destruct (filter (λ y, y.1 = k) l) as [|x ls] eqn:Hl; [by apply elem_of_nil in Hfa|].
        apply list_elem_of_fmap. by exists (k, a).
      * apply elem_of_merge_keys. left. apply list_elem_of_fmap. by exists (k, a).
    + destruct Hrow as [Ha Hb]. split.
      * assert ((k, b) ∈ filter (λ y, y.1 = k) r) as Hfb by (by apply elem_of_filter_key).
        apply filter_key_nil in Ha. rewrite Ha.
        apply list_elem_of_fmap. by exists (k, b).
      * apply elem_of_merge_keys. right. apply list_elem_of_fmap. by exists (k, b).
Qed.

(** The keys of the outer merge are those of either side. *)
Lemma merge_outer_keys l r k :
  k ∈ (merge_outer l r).*1.*1 ↔ k ∈ l.*1 ∨ k ∈ r.*1.
Proof.
  split.
  - intros (p & -> & (row & -> & Hrow)%list_elem_of_fmap)%list_elem_of_fmap.
    destruct row as [[k oa] ob]. apply elem_of_merge_outer in Hrow. simpl.
    destruct oa as [a|], ob as [b|]; [| | |done]; destruct Hrow as [H1 H2].
    + left. apply list_elem_of_fmap. by exists (k, a).
    + left. apply list_elem_of_fmap. by exists (k, a).
    + right. apply list_elem_of_fmap. by exists (k, b).
  - intros Hk.
    assert (∃ oa ob, (k, oa, ob) ∈ merge_outer l r) as (oa & ob & Hrow).
    { destruct (decide (k ∈ l.*1)) as [Hl|Hl], (decide (k ∈ r.*1)) as [Hr|Hr].
      - apply list_elem_of_fmap in Hl as ([k1 a] & -> & Ha).
        apply list_elem_of_fmap in Hr as ([k2 b] & Hk2 & Hb). simpl in Hk2. subst k2.
        exists (Some a), (Some b). by apply elem_of_merge_outer.
      - apply list_elem_of_fmap in Hl as ([k1 a] & -> & Ha).
        exists (Some a), None. by apply elem_of_merge_outer.
      - apply list_elem_of_fmap in Hr as ([k2 b] & -> & Hb).
        exists None, (Some b). by apply elem_of_merge_outer.
      - by destruct Hk. }
    apply list_elem_of_fmap. exists (k, oa). split; [done|].
    apply list_elem_of_fmap. by exists (k, oa, ob).
Qed.

(** With no key twice on the right, the left rows are each met once. *)
Lemma merge_outer_sum_left (f : A → Z) l r :
  NoDup r.*1 →
  Db.sum_with (λ row, from_option f 0 row.1.2) (merge_outer l r)
  = Db.sum_with (λ x, f x.2) l.
Proof.
  intros Hr. unfold merge_outer. rewrite sum_with_bind.
  rewrite <- (sum_group_by fst (λ x, f x.2) _ l (NoDup_merge_keys l r)).
  2:{ intros [k a] Hin. apply elem_of_merge_keys. left. apply list_elem_of_fmap.
      by exists (k, a). }
  apply sum_with_ext. intros k _.
  pose proof (filter_key_NoDup r k Hr) as Hlen.
  destruct (filter (λ y, y.1 = k) l) as [|x ls];
    destruct (filter (λ y, y.1 = k) r) as [|y [|y' rs]]; cbv beta iota zeta.
  - done.
  - done.
  - simpl in Hlen. lia.
  - by rewrite sum_with_fmap.
  - rewrite sum_with_bind. apply sum_with_ext. intros z _. simpl. lia.
  - simpl in Hlen. lia.
Qed.

Lemma merge_outer_sum_right (g : B → Z) l r :
  NoDup l.*1 →
  Db.sum_with (λ row, from_option g 0 row.2) (merge_outer l r)
  = Db.sum_with (λ y, g y.2) r.
Proof.
  intros Hl. unfold merge_outer. rewrite sum_with_bind.
  rewrite <- (sum_group_by fst (λ y, g y.2) _ r (NoDup_merge_keys l r)).
  2:{ intros [k b] Hin. apply elem_of_merge_keys. right. apply list_elem_of_fmap.
      by exists (k, b). }
  apply sum_with_ext. intros k _.
  pose proof (filter_key_NoDup l k Hl) as Hlen.
  destruct (filter (λ y, y.1 = k) r) as [|y rs];
    destruct (filter (λ y, y.1 = k) l) as [|x [|x' ls]]; cbv beta iota zeta.
  - done.
  - simpl. lia.
  - simpl in Hlen. lia.
  - by rewrite sum_with_fmap.
  - rewrite sum_with_bind.
    change (Db.sum_with ?F [x]) with (F x + 0). cbv beta.
    rewrite Z.add_0_r, sum_with_bind. apply sum_with_ext. intros z _. simpl. lia.
  - simpl in Hlen. lia.
Qed.

(** With no key twice on either side, the merge has one row per key. *)
Lemma merge_outer_NoDup l r :
  NoDup l.*1 → NoDup r.*1 → NoDup (merge_outer l r).*1.*1.
Proof.
  intros Hl Hr.
  assert ((merge_outer l r).*1.*1 = merge_sort String.le (remove_dups (l.*1 ++ r.*1))) as ->;
    [|apply NoDup_merge_keys].
  unfold merge_outer.
  assert (Hin : ∀ k, k ∈ merge_sort String.le (remove_dups (l.*1 ++ r.*1)) →
                     k ∈ l.*1 ∨ k ∈ r.*1) by (intros k; apply elem_of_merge_keys).
  induction (merge_sort String.le (remove_dups (l.*1 ++ r.*1))) as [|k K IH]; [done|].
  change ((k :: K) ≫= ?h) with (h k ++ (K ≫= h)).
  rewrite !fmap_app, IH by (intros k' Hk'; apply Hin; by right).
  change (k :: K) with ([k] ++ K). f_equal.
  pose proof (filter_key_NoDup l k Hl) as Hlenl.
  pose proof (filter_key_NoDup r k Hr) as Hlenr.
  specialize (Hin k (list_elem_of_here _ _)).
  destruct (filter (λ y, y.1 = k) l) as [|x [|x' ls]] eqn:Hfl;
    destruct (filter (λ y, y.1 = k) r) as [|y [|y' rs]] eqn:Hfr;
    cbv beta iota zeta; simpl in *; try lia; try done.
  apply filter_key_nil in Hfl, Hfr. by destruct Hin.
Qed.

End merge.

(** ** The season aligner *)

Section aligner.
Import Py Db CoverageScan Overrides.
Implicit Types (nba_df : list nba_row) (db_df : list (string * totals)).

Lemma nba_keys nba_df : ((λ r, (season r, stats r)) <$> nba_df).*1 = season <$> nba_df.
Proof. by rewrite <- list_fmap_compose. Qed.

Lemma nba_keys_view nba_df : ((λ r, (season r, r)) <$> nba_df).*1 = season <$> nba_df.
Proof. by rewrite <- list_fmap_compose. Qed.

Lemma elem_of_merged nba_df db_df (row : merged_row) :
  row ∈ merged nba_df db_df ↔
  ∃ oa ob,
    (m_season row, oa, ob) ∈ merge_outer ((λ r, (season r, stats r)) <$> nba_df) db_df
    ∧ m_nba row = default zero oa ∧ m_db row = default zero ob.
Proof.
  unfold merged. rewrite list_elem_of_fmap. split.
  - intros ([[k oa] ob] & -> & Hin). by exists oa, ob.
  - intros (oa & ob & Hin & Hn & Hd). exists (m_season row, oa, ob).
    split; [|done]. destruct row. simpl in *. by subst.
Qed.

Lemma merged_seasons nba_df db_df :
  m_season <$> merged nba_df db_df
  = (merge_outer ((λ r, (season r, stats r)) <$> nba_df) db_df).*1.*1.
Proof.
  unfold merged. rewrite <- !list_fmap_compose. apply list_fmap_ext.
  by intros _ [[k oa] ob] _.
Qed.



End aligner.

(** ** The delta loop of [process_player] *)

Section delta_loop.
Import Py Db CoverageScan Overrides.
Implicit Types (row : merged_row) (t : gmap override_key totals) (c : conn).

Lemma column_minus (label : string) (a b : totals) :
  column label (minus a b) = column label a - column label b.
Proof. unfold column. repeat case_bool_decide; simpl; lia. Qed.

Lemma column_zero (label : string) : column label zero = 0.
Proof. unfold column. by repeat case_bool_decide. Qed.

Lemma totals_eq_columns (a b : totals) :
  a = b ↔ ∀ dst, dst ∈ METRICS.*2 → column dst a = column dst b.
Proof.
  split; [by intros ->|]. intros H.
  pose proof (H "points") as H1. pose proof (H "rebounds") as H2.
  pose proof (H "assists") as H3. pose proof (H "steals") as H4.
  pose proof (H "blocks") as H5.
  destruct a, b. unfold column in *. simpl in *.
  f_equal; [apply H1 | apply H2 | apply H3 | apply H4 | apply H5]; set_solver.
Qed.

Lemma has_delta_iff row : has_delta row ↔ m_nba row ≠ m_db row.
Proof.
  unfold has_delta. split.
  - intros ([m dst] & Hmd & Hne) Heq. apply Hne. rewrite Heq. lia.
  - intros Hne. destruct row as [s [a1 a2 a3 a4 a5] [b1 b2 b3 b4 b5]]. simpl in *.
    destruct (decide (a1 = b1)) as [->|]; [|exists ("PTS", "points"); split; [set_solver|unfold column; simpl; lia]].
    destruct (decide (a2 = b2)) as [->|]; [|exists ("REB", "rebounds"); split; [set_solver|unfold column; simpl; lia]].
    destruct (decide (a3 = b3)) as [->|]; [|exists ("AST", "assists"); split; [set_solver|unfold column; simpl; lia]].
    destruct (decide (a4 = b4)) as [->|]; [|exists ("STL", "steals"); split; [set_solver|unfold column; simpl; lia]].
    destruct (decide (a5 = b5)) as [->|]; [|exists ("BLK", "blocks"); split; [set_solver|unfold column; simpl; lia]].
    done.
Qed.

Lemma season_deltas_row row :
  override_row (season_deltas row).1 = minus (m_nba row) (m_db row).
Proof. by destruct row as [s [a1 a2 a3 a4 a5] [b1 b2 b3 b4 b5]]. Qed.

Lemma season_deltas_nonzero row :
  (season_deltas row).2 = bool_decide (m_nba row ≠ m_db row).
Proof.
  destruct row as [s [a1 a2 a3 a4 a5] [b1 b2 b3 b4 b5]].
  unfold season_deltas. simpl.
  change (column "points" ?t) with (points t).
  change (column "rebounds" ?t) with (rebounds t).
  change (column "assists" ?t) with (assists t).
  change (column "steals" ?t) with (steals t).
  change (column "blocks" ?t) with (blocks t). simpl.
  repeat case_decide; symmetry;
    first [ apply bool_decide_eq_true; intros [=]; lia
          | apply bool_decide_eq_false; intros Hne; apply Hne; f_equal; lia ].
Qed.

Lemma with_overrides_id c t : season_totals_override c = Some t → with_overrides c t = c.
Proof. destruct c. simpl. by intros ->. Qed.

Lemma process_row_step (player_id : string) c t (n : Z) row :
  process_row player_id (with_overrides c t, n) row
  = Returned (with_overrides c (upsert_step player_id t row),
              if decide (upserted row) then n + 1 else n).
Proof.
  unfold process_row, upsert_step.
  pose proof (season_deltas_row row) as Hrow.
  pose proof (season_deltas_nonzero row) as Hnz.
  destruct (season_deltas row) as [deltas nonzero]. simpl in *. subst nonzero.
  destruct (decide (upserted row)) as [[Hs Hne]|Hno].
  - rewrite decide_False by done. rewrite bool_decide_eq_true_2 by done.
    simpl. by rewrite Hrow.
  - destruct (decide (m_season row = "")) as [Hs|Hs]; [done|].
    rewrite bool_decide_eq_false_2; [done|]. intros Hne. apply Hno. by split.
Qed.

(** The loop over the aligned rows never raises once the table exists:
    it folds [upsert_step] over the table and counts the upserts. *)
Lemma process_rows (player_id : string) c (rows : list merged_row) :
  ∀ t (n : Z),
    for_each (process_row player_id) (with_overrides c t, n) rows
    = Returned (with_overrides c (foldl (upsert_step player_id) t rows),
                n + Z.of_nat (length (filter upserted rows))).
Proof.
  induction rows as [|row rows IH]; intros t n.
  - simpl. by rewrite Z.add_0_r.
  - cbn [for_each]. rewrite process_row_step.
    change (Returned ?s ≫= ?k) with (k s). cbv beta.
    rewrite IH. cbn [foldl]. rewrite filter_cons.
    destruct (decide (upserted row)); [|done].
    cbn [length]. do 2 f_equal. lia.
Qed.

Lemma upsert_step_other (player_id : string) t row (k : override_key) :
  k ≠ (player_id, m_season row, "Regular Season") →
  upsert_step player_id t row !! k = t !! k.
Proof.
  intros Hk. unfold upsert_step. case_decide; [|done]. by rewrite lookup_insert_ne.
Qed.

(** A key no row upserts keeps what it held. *)
Lemma upsert_steps_untouched (player_id : string) (rows : list merged_row) (k : override_key) :
  ∀ t,
    (∀ row, row ∈ rows → upserted row → k ≠ (player_id, m_season row, "Regular Season")) →
    foldl (upsert_step player_id) t rows !! k = t !! k.
Proof.
  induction rows as [|row rows IH]; intros t Hrows; [done|].
  cbn [foldl]. rewrite IH by (intros row' Hin; apply Hrows; by right).
  unfold upsert_step. case_decide as Hup; [|done].
  rewrite lookup_insert_ne; [done|]. intros <-. by apply (Hrows row); [left|..].
Qed.

(** A key some row upserts holds the delta of one of the rows that upsert it. *)
Lemma upsert_steps_written (player_id s : string) (rows : list merged_row) :
  ∀ t,
    (∃ row, row ∈ rows ∧ upserted row ∧ m_season row = s) →
    ∃ row, row ∈ rows ∧ upserted row ∧ m_season row = s
           ∧ foldl (upsert_step player_id) t rows !! (player_id, s, "Regular Season")
             = Some (minus (m_nba row) (m_db row)).
Proof.
  induction rows as [|row rows IH] using rev_ind; intros t (row0 & Hin & Hup & Hs).
  { by apply elem_of_nil in Hin. }
  rewrite foldl_app. cbn [foldl].
  destruct (decide (upserted row ∧ m_season row = s)) as [[Hup' Hs']|Hno].
  - exists row. split_and!; [apply elem_of_app; right; by left | done | done |].
    unfold upsert_step. rewrite decide_True by done. rewrite Hs'. apply lookup_insert_eq.
  - destruct (IH t) as (row1 & Hin1 & Hup1 & Hs1 & Hlook).
    { exists row0. split_and!; [|done..].
      apply elem_of_app in Hin as [?|Hin]; [done|].
      apply list_elem_of_singleton in Hin as ->. tauto. }
    exists row1. split_and!; [apply elem_of_app; by left | done | done |].
    rewrite <- Hlook. unfold upsert_step. case_decide as Hup'; [|done].
    apply lookup_insert_ne. intros [= Heq]. tauto.
Qed.
End delta_loop.

(** ** Totals of the override table *)

Section override_totals.
Import Py Db CoverageScan Overrides ValidateLeaders.
Implicit Types (row : merged_row) (t : gmap override_key totals) (c : conn).

Lemma override_total_insert_fresh (label player_id : string) t (k : override_key) (v : totals) :
  t !! k = None →
  override_total label player_id (<[k := v]> t)
  = contribution label player_id k v + override_total label player_id t.
Proof.
  intros Hk. unfold override_total, contribution.
  rewrite map_fold_insert_L; [by case_decide | | done].
  intros. repeat case_decide; lia.
Qed.

Lemma override_total_insert (label player_id : string) t (k : override_key) (v : totals) :
  override_total label player_id (<[k := v]> t)
  = contribution label player_id k v + override_total label player_id (delete k t).
Proof.
  rewrite <- insert_delete_eq. apply override_total_insert_fresh, lookup_delete_eq.
Qed.

Lemma override_total_none (label player_id : string) t :
  (∀ s, t !! (player_id, s, "Regular Season") = None) →
  override_total label player_id t = 0.
Proof.
  induction t as [|k v t Hk IH] using map_ind; intros Hnone; [done|].
  rewrite override_total_insert_fresh by done. rewrite IH.
  - unfold contribution. case_decide as Hm; [|done].
    destruct k as [[p s] ty], Hm as [Hp Hty]. simpl in *. subst.
    specialize (Hnone s). by rewrite lookup_insert_eq in Hnone.
  - intros s. specialize (Hnone s).
    destruct (decide (k = (player_id, s, "Regular Season"))) as [->|Hne]; [done|].
    by rewrite lookup_insert_ne in Hnone.
Qed.

Lemma upsert_steps_delete (player_id s : string) (rows : list merged_row) :
  ∀ t,
    s ∉ m_season <$> rows →
    delete (player_id, s, "Regular Season") (foldl (upsert_step player_id) t rows)
    = foldl (upsert_step player_id) (delete (player_id, s, "Regular Season") t) rows.
Proof.
  induction rows as [|row rows IH]; intros t Hs; [done|].
  cbn [foldl]. rewrite fmap_cons, not_elem_of_cons in Hs. destruct Hs as [Hne Hs].
  rewrite IH by done. f_equal. unfold upsert_step. case_decide; [|done].
  rewrite delete_insert_ne; [done|]. congruence.
Qed.

(** The override total of the player once the loop has run, when the
    aligned rows have distinct seasons and every override the table held
    for the player is upserted again. *)
Lemma override_total_after (label player_id : string) (rows : list merged_row) :
  ∀ t,
    NoDup (m_season <$> rows) →
    (∀ s v, t !! (player_id, s, "Regular Season") = Some v →
            ∃ row, row ∈ rows ∧ upserted row ∧ m_season row = s) →
    override_total label player_id (foldl (upsert_step player_id) t rows)
    = sum_with (λ row, if decide (upserted row)
                       then column label (minus (m_nba row) (m_db row)) else 0) rows.
Proof.
  induction rows as [|row rows IH] using rev_ind; intros t Hnd Hfresh.
  - simpl. apply override_total_none. intros s.
    destruct (t !! (player_id, s, "Regular Season")) as [v|] eqn:Hv; [|done].
    destruct (Hfresh s v Hv) as (row & Hin & _). by apply elem_of_nil in Hin.
  - rewrite foldl_app, sum_with_app. cbn [foldl]. simpl.
    rewrite fmap_app in Hnd. apply NoDup_app in Hnd as (Hnd & Hdisj & _).
    assert (Hs : m_season row ∉ m_season <$> rows).
    { intros Hin. apply (Hdisj _ Hin). simpl. left. }
    unfold upsert_step at 1. destruct (decide (upserted row)) as [Hup|Hup].
    + rewrite override_total_insert, upsert_steps_delete by done.
      rewrite IH; [| done |].
      * unfold contribution. rewrite decide_True by done. lia.
      * intros s v Hv. apply lookup_delete_Some in Hv as [Hne Hv].
        destruct (Hfresh s v Hv) as (row' & Hin & Hup' & Hs').
        exists row'. split_and!; [|done..].
        apply elem_of_app in Hin as [?|Hin]; [done|].
        apply list_elem_of_singleton in Hin as ->. congruence.
    + rewrite IH; [lia | done |].
      intros s v Hv. destruct (Hfresh s v Hv) as (row' & Hin & Hup' & Hs').
      exists row'. split_and!; [|done..].
      apply elem_of_app in Hin as [?|Hin]; [done|].
      by apply list_elem_of_singleton in Hin as ->.
Qed.

End override_totals.

(** ** The local series and the aligned rows *)

Section local_totals.
Import Py Db CoverageScan Overrides ValidateLeaders.
Implicit Types (row : merged_row) (t : gmap override_key totals) (c : conn).

Lemma column_sum_totals (label : string) (ts : list totals) :
  label ∈ CoverageScan.METRICS.*1 ∨ label ∈ CoverageScan.METRICS.*2 →
  column label (sum_totals ts) = sum_column label ts.
Proof.
  intros Hl.
  assert (Hcases : label ∈ ["PTS"; "REB"; "AST"; "STL"; "BLK";
                            "points"; "rebounds"; "assists"; "steals"; "blocks"]).
  { destruct Hl as [Hl|Hl]; simpl in Hl; each_elem Hl with (by repeat constructor). }
  clear Hl. unfold sum_totals, sum_column.
  repeat (apply elem_of_cons in Hcases as [-> | Hcases];
          [ unfold column at 1; simpl; apply sum_with_ext; intros t _;
            unfold column; simpl; reflexivity |]).
  by apply elem_of_nil in Hcases.
Qed.

Lemma sum_totals_single (x : totals) : sum_totals [x] = x.
Proof. destruct x. unfold sum_totals, sum_column, column. simpl. f_equal; lia. Qed.

Lemma sum_totals_nil : sum_totals [] = zero.
Proof. reflexivity. Qed.

Lemma db_career_keys c (player_id : string) :
  (db_career_by_season c player_id).*1
  = remove_dups (g_season <$> regular_season player_id (game_summary c)).
Proof.
  unfold db_career_by_season. rewrite <- list_fmap_compose. apply list_fmap_id.
Qed.

Lemma db_career_NoDup c (player_id : string) : NoDup (db_career_by_season c player_id).*1.
Proof. rewrite db_career_keys. apply NoDup_remove_dups. Qed.

Lemma elem_of_db_career c (player_id s : string) (b : totals) :
  (s, b) ∈ db_career_by_season c player_id → b = local_season c player_id s.
Proof.
  unfold db_career_by_season. intros (s' & [= -> ->] & _)%list_elem_of_fmap. done.
Qed.

Lemma not_elem_of_db_career c (player_id s : string) :
  s ∉ (db_career_by_season c player_id).*1 → local_season c player_id s = zero.
Proof.
  rewrite db_career_keys, elem_of_remove_dups. intros Hs. unfold local_season.
  assert (filter (λ g, g_season g = s) (regular_season player_id (game_summary c)) = [])
    as ->; [|done].
  destruct (filter _ _) as [|g gs] eqn:Hf; [done|]. exfalso. apply Hs.
  assert (g ∈ filter (λ g, g_season g = s) (regular_season player_id (game_summary c)))
    as [<- Hin]%list_elem_of_filter by (rewrite Hf; left).
  apply list_elem_of_fmap. eauto.
Qed.

(** The seasons of the local series add up to the regular-season total
    of the game log. *)
Lemma db_career_total c (player_id label : string) :
  label ∈ CoverageScan.METRICS.*1 ∨ label ∈ CoverageScan.METRICS.*2 →
  sum_with (λ x, column label x.2) (db_career_by_season c player_id)
  = sum_column label (g_stats <$> regular_season player_id (game_summary c)).
Proof.
  intros Hl. unfold db_career_by_season, sum_column.
  rewrite !sum_with_fmap. simpl.
  rewrite <- (sum_group_by g_season (λ g, column label (g_stats g))
                (remove_dups (g_season <$> regular_season player_id (game_summary c)))).
  - apply sum_with_ext. intros s _. rewrite column_sum_totals by done.
    unfold sum_column. by rewrite sum_with_fmap.
  - apply NoDup_remove_dups.
  - intros g Hg. apply elem_of_remove_dups, list_elem_of_fmap. eauto.
Qed.

Lemma official_season_elem (nba_df : list nba_row) (s : string) (a : totals) :
  NoDup (season <$> nba_df) →
  (s, a) ∈ (λ r, (season r, stats r)) <$> nba_df →
  official_season nba_df s = a.
Proof.
  intros Hnd (r & [= -> ->] & Hin)%list_elem_of_fmap. unfold official_season.
  induction nba_df as [|r' rs IH]; [by apply elem_of_nil in Hin|].
  rewrite fmap_cons in Hnd. apply NoDup_cons in Hnd as [Hr' Hnd].
  rewrite filter_cons. apply elem_of_cons in Hin as [->|Hin].
  - rewrite decide_True by done.
    assert (filter (λ r0, season r0 = season r') rs = []) as ->.
    { destruct (filter _ rs) as [|x xs] eqn:Hf; [done|]. exfalso. apply Hr'.
      assert (x ∈ filter (λ r0, season r0 = season r') rs)
        as [<- Hx]%list_elem_of_filter by (rewrite Hf; left).
      apply list_elem_of_fmap. eauto. }
    apply sum_totals_single.
  - rewrite decide_False; [by apply IH|].
    intros Heq. apply Hr'. rewrite Heq. apply list_elem_of_fmap. eauto.
Qed.

Lemma official_season_absent (nba_df : list nba_row) (s : string) :
  s ∉ season <$> nba_df → official_season nba_df s = zero.
Proof.
  intros Hs. unfold official_season.
  assert (filter (λ r, season r = s) nba_df = []) as ->; [|done].
  destruct (filter _ nba_df) as [|x xs] eqn:Hf; [done|]. exfalso. apply Hs.
  assert (x ∈ filter (λ r, season r = s) nba_df)
    as [<- Hx]%list_elem_of_filter by (rewrite Hf; left).
  apply list_elem_of_fmap. eauto.
Qed.

(** An aligned row holds the official and the local totals of its season. *)
Lemma merged_row_values c (player_id : string) (nba_df : list nba_row) row :
  NoDup (season <$> nba_df) →
  row ∈ merged nba_df (db_career_by_season c player_id) →
  m_nba row = official_season nba_df (m_season row)
  ∧ m_db row = local_season c player_id (m_season row).
Proof.
  intros Hnd (oa & ob & Hin & -> & ->)%elem_of_merged.
  apply elem_of_merge_outer in Hin.
  destruct oa as [a|], ob as [b|]; [| | |done]; destruct Hin as [Ha Hb]; simpl; split.
  - symmetry. by apply official_season_elem.
  - by apply elem_of_db_career.
  - symmetry. by apply official_season_elem.
  - symmetry. by apply not_elem_of_db_career.
  - symmetry. apply official_season_absent. by rewrite <- nba_keys.
  - by apply elem_of_db_career.
Qed.

End local_totals.

(** ** [process_player]: what is written, and the round trip *)

Section process_player.
Import Py Db Api CoverageScan Overrides ValidateLeaders.
Implicit Types (row : merged_row) (t : gmap override_key totals) (c : conn).

Lemma process_player_run (W : World) (T : PyText) c (player_id : string)
    (nba_df : list nba_row) t :
  nba_career_by_season player_id = Returned nba_df →
  season_totals_override c = Some t →
  process_player c player_id
  = Returned (with_overrides c
                (foldl (upsert_step player_id) t
                   (merged nba_df (db_career_by_season c player_id))),
              Z.of_nat (length (filter upserted
                                  (merged nba_df (db_career_by_season c player_id))))).
Proof.
  intros Hnba Ht. unfold process_player. rewrite Hnba.
  change (Returned ?x ≫= ?k) with (k x). cbv beta.
  rewrite <- (with_overrides_id c t Ht) at 1.
  rewrite process_rows. by rewrite Z.add_0_l.
Qed.

Lemma upserted_iff row : upserted row ↔ m_season row ≠ "" ∧ has_delta row.
Proof. unfold upserted. by rewrite has_delta_iff. Qed.

(** C2, against the claim as stated.  A season with a delta other than 0
    is not upserted when its key is the empty string: the game log of
    player 9 holds 5 points under the season [""], the official series
    is empty, the aligned row has a points delta of -5, and
    [process_player] leaves the store as it was and counts 0 updates. *)
Lemma process_player_skips_blank_season :
  let W := Examples.example_world in
  let T := Examples.plain_text in
  merged [] (db_career_by_season Examples.store_blank "9")
  = [MergedRow "" zero (Totals 5 1 0 0 0)]
  ∧ column "points" zero - column "points" (Totals 5 1 0 0 0) ≠ 0
  ∧ process_player Examples.store_blank "9" = Returned (Examples.store_blank, 0).
Proof. split_and!; [vm_compute; reflexivity | vm_compute; discriminate | vm_compute; reflexivity]. Qed.

(** C2, amended.  Once the official series is fetched and the override
    table exists, [process_player] returns; it upserts exactly the
    aligned rows whose season key is not empty and which have a delta
    other than 0 for some tracked metric, and returns their number.  A
    season whose aligned rows all have every delta equal to 0 keeps what
    the table held for it (nothing is written), and so does the empty
    season key; a season with a non-empty key and a non-zero delta ends
    up holding the deltas (official minus local) of an aligned row of
    that season. *)
Theorem process_player_upserts_nonzero_seasons :
  ∀ (W : World) (T : PyText) (c : conn) (player_id : string)
    (nba_df : list nba_row) (t : gmap override_key totals),
    nba_career_by_season player_id = Returned nba_df →
    season_totals_override c = Some t →
    let rows := merged nba_df (db_career_by_season c player_id) in
    let key s := (player_id, s, "Regular Season") in
    ∃ t',
      process_player c player_id
      = Returned (with_overrides c t', Z.of_nat (length (filter upserted rows)))
      ∧ (∀ row, upserted row ↔ m_season row ≠ "" ∧ has_delta row)
      ∧ (∀ s, (∀ row, row ∈ rows → m_season row = s → ¬ has_delta row) →
              t' !! key s = t !! key s)
      ∧ t' !! key "" = t !! key ""
      ∧ (∀ row, row ∈ rows → m_season row ≠ "" → has_delta row →
           ∃ row', row' ∈ rows ∧ m_season row' = m_season row ∧ has_delta row'
                   ∧ t' !! key (m_season row) = Some (minus (m_nba row') (m_db row'))).
Proof.
  intros W T c player_id nba_df t Hnba Ht rows key.
  exists (foldl (upsert_step player_id) t rows). split_and!.
  - by apply process_player_run.
  - apply upserted_iff.
  - intros s Hzero. apply upsert_steps_untouched.
    intros row Hin [Hs Hne]%upserted_iff [= ->]. by apply (Hzero row).
  - apply upsert_steps_untouched. intros row Hin [Hs Hne] [= Heq]. congruence.
  - intros row Hin Hs Hd.
    destruct (upsert_steps_written player_id (m_season row) rows t)
      as (row' & Hin' & [_ Hd']%upserted_iff & Hs' & Hlook).
    { exists row. split_and!; [done | by apply upserted_iff | done]. }
    by exists row'.
Qed.

Lemma process_player_upserts_nonzero_seasons_witness :
  let W := Examples.example_world in
  let T := Examples.plain_text in
  let c := Examples.store_fresh in
  let t : gmap override_key totals := ∅ in
  let rows := merged Examples.career_rows (db_career_by_season c "3") in
  let key s := ("3", s, "Regular Season") in
  ∃ t',
    process_player c "3"
    = Returned (with_overrides c t', Z.of_nat (length (filter upserted rows)))
    ∧ (∀ row, upserted row ↔ m_season row ≠ "" ∧ has_delta row)
    ∧ (∀ s, (∀ row, row ∈ rows → m_season row = s → ¬ has_delta row) →
            t' !! key s = t !! key s)
    ∧ t' !! key "" = t !! key ""
    ∧ (∀ row, row ∈ rows → m_season row ≠ "" → has_delta row →
         ∃ row', row' ∈ rows ∧ m_season row' = m_season row ∧ has_delta row'
                 ∧ t' !! key (m_season row) = Some (minus (m_nba row') (m_db row'))).
Proof.
  apply (process_player_upserts_nonzero_seasons Examples.example_world Examples.plain_text
           Examples.store_fresh "3" Examples.career_rows ∅); reflexivity.
Defined.

Lemma column_alias (m dst : string) (x : totals) :
  (m, dst) ∈ CoverageScan.METRICS → column m x = column dst x.
Proof.
  intros Hmd. unfold CoverageScan.METRICS in Hmd.
  repeat (apply elem_of_cons in Hmd as [[= -> ->] | Hmd]; [reflexivity |]).
  by apply elem_of_nil in Hmd.
Qed.

Lemma totals_neq_delta (a b : totals) :
  a ≠ b ↔ ∃ dst, dst ∈ CoverageScan.METRICS.*2 ∧ column dst a - column dst b ≠ 0.
Proof.
  rewrite <- (has_delta_iff (MergedRow "" a b)). unfold has_delta. cbn [m_nba m_db]. split.
  - intros ([m dst] & Hin & Hne). exists dst. split; [|done].
    apply list_elem_of_fmap. by exists (m, dst).
  - intros (dst & ([m dst'] & -> & Hin)%list_elem_of_fmap & Hne). by exists (m, dst').
Qed.

Lemma merged_NoDup c (player_id : string) (nba_df : list nba_row) :
  NoDup (season <$> nba_df) →
  NoDup (m_season <$> merged nba_df (db_career_by_season c player_id)).
Proof.
  intros Hnd. rewrite merged_seasons. apply merge_outer_NoDup.
  - by rewrite nba_keys.
  - apply db_career_NoDup.
Qed.

Lemma merged_sum_nba (dst : string) (nba_df : list nba_row) (db_df : list (string * totals)) :
  NoDup db_df.*1 →
  sum_with (λ row, column dst (m_nba row)) (merged nba_df db_df)
  = sum_with (λ r, column dst (stats r)) nba_df.
Proof.
  intros Hnd. unfold merged. rewrite sum_with_fmap.
  rewrite (sum_with_ext _ (λ row : string * option totals * option totals,
                             from_option (column dst) 0 row.1.2)).
  2:{ intros [[k [a|]] ob] _; simpl; [done | apply column_zero]. }
  rewrite merge_outer_sum_left by done. by rewrite sum_with_fmap.
Qed.

Lemma merged_sum_db (dst : string) (nba_df : list nba_row) (db_df : list (string * totals)) :
  NoDup (season <$> nba_df) →
  sum_with (λ row, column dst (m_db row)) (merged nba_df db_df)
  = sum_with (λ x, column dst x.2) db_df.
Proof.
  intros Hnd. unfold merged. rewrite sum_with_fmap.
  rewrite (sum_with_ext _ (λ row : string * option totals * option totals,
                             from_option (column dst) 0 row.2)).
  2:{ intros [[k oa] [b|]] _; simpl; [done | apply column_zero]. }
  apply merge_outer_sum_right. by rewrite nba_keys.
Qed.

(** A season is upserted exactly when its key is not empty and its
    official and local totals differ. *)
Lemma upserted_season_iff c (player_id : string) (nba_df : list nba_row) (s : string) :
  NoDup (season <$> nba_df) →
  (∃ row, row ∈ merged nba_df (db_career_by_season c player_id)
          ∧ upserted row ∧ m_season row = s)
  ↔ s ≠ "" ∧ official_season nba_df s ≠ local_season c player_id s.
Proof.
  intros Hnd. split.
  - intros (row & Hin & [Hs Hne] & <-).
    destruct (merged_row_values c player_id nba_df row Hnd Hin) as [<- <-]. done.
  - intros [Hs Hne].
    assert (s ∈ m_season <$> merged nba_df (db_career_by_season c player_id)) as Hin.
    { rewrite merged_seasons, merge_outer_keys, nba_keys.
      destruct (decide (s ∈ season <$> nba_df)) as [|Hn]; [by left|]. right.
      destruct (decide (s ∈ (db_career_by_season c player_id).*1)) as [|Hd]; [done|].
      exfalso. apply Hne.
      by rewrite official_season_absent, not_elem_of_db_career. }
    apply list_elem_of_fmap in Hin as (row & -> & Hin).
    exists row. split_and!; [done | | done].
    destruct (merged_row_values c player_id nba_df row Hnd Hin) as [Hn Hd].
    split; [done|]. by rewrite Hn, Hd.
Qed.

(** C1, amended.  Let the official series have no season twice, let the
    empty season key carry no delta, and let every override the table
    already holds for the player belong to a season with a non-empty key
    whose delta is not 0 now (an empty table in particular).  Then after
    [process_player], for every season and every tracked metric the
    override stored for the player (0 when there is none) is the
    official value minus the value of the raw game log for that season,
    and the corrected total [get_db_total], raw sum plus override sum,
    is the official total of the metric. *)
Theorem round_trip_official_totals :
  ∀ (W : World) (T : PyText) (c : conn) (player_id : string)
    (nba_df : list nba_row) (t : gmap override_key totals),
    nba_career_by_season player_id = Returned nba_df →
    season_totals_override c = Some t →
    NoDup (season <$> nba_df) →
    (∀ dst, dst ∈ CoverageScan.METRICS.*2 → season_delta nba_df c player_id "" dst = 0) →
    (∀ s v, t !! (player_id, s, "Regular Season") = Some v →
            s ≠ "" ∧ ∃ dst, dst ∈ CoverageScan.METRICS.*2
                            ∧ season_delta nba_df c player_id s dst ≠ 0) →
    ∃ c' updated t',
      process_player c player_id = Returned (c', updated)
      ∧ game_summary c' = game_summary c
      ∧ season_totals_override c' = Some t'
      ∧ (∀ s dst, dst ∈ CoverageScan.METRICS.*2 →
           column dst (default zero (t' !! (player_id, s, "Regular Season")))
           = season_delta nba_df c player_id s dst)
      ∧ (∀ m dst, (m, dst) ∈ CoverageScan.METRICS →
           get_db_total c' player_id dst = sum_column m (stats <$> nba_df)).
Proof.
  intros W T c player_id nba_df t Hnba Ht Hnd Hblank Hfresh.
  set (rows := merged nba_df (db_career_by_season c player_id)).
  set (t' := foldl (upsert_step player_id) t rows).
  assert (Hdelta : ∀ s, official_season nba_df s ≠ local_season c player_id s ↔
            ∃ dst, dst ∈ CoverageScan.METRICS.*2 ∧ season_delta nba_df c player_id s dst ≠ 0)
    by (intros s; apply totals_neq_delta).
  assert (Hfresh' : ∀ s v, t !! (player_id, s, "Regular Season") = Some v →
            ∃ row, row ∈ rows ∧ upserted row ∧ m_season row = s).
  { intros s v Hv. destruct (Hfresh s v Hv) as [Hs Hd].
    apply upserted_season_iff; [done|]. split; [done|]. by apply Hdelta. }
  exists (with_overrides c t'), (Z.of_nat (length (filter upserted rows))), t'.
  split_and!; [by apply process_player_run | done | done | |].
  - intros s dst Hdst.
    destruct (decide (s ≠ "" ∧ official_season nba_df s ≠ local_season c player_id s))
      as [Hup|Hno].
    + apply (upserted_season_iff c player_id nba_df s Hnd) in Hup.
      destruct (upsert_steps_written player_id s rows t Hup)
        as (row & Hin & _ & <- & Hlook).
      unfold t'. rewrite Hlook. simpl. rewrite column_minus.
      destruct (merged_row_values c player_id nba_df row Hnd Hin) as [-> ->]. done.
    + assert (Hnone : ¬ ∃ row, row ∈ rows ∧ upserted row ∧ m_season row = s)
        by (intros Hex; apply Hno; by apply (upserted_season_iff c player_id nba_df s Hnd)).
      unfold t'. rewrite upsert_steps_untouched.
      2:{ intros row Hin Hup [= Heq]. apply Hnone. by exists row. }
      destruct (t !! (player_id, s, "Regular Season")) as [v|] eqn:Hv.
      { destruct Hnone. by eapply Hfresh'. }
      simpl. rewrite column_zero. symmetry.
      destruct (decide (s = "")) as [->|Hs]; [by apply Hblank|].
      unfold season_delta.
      destruct (decide (official_season nba_df s = local_season c player_id s)) as [->|Hne];
        [lia | tauto].
  - intros m dst Hmd.
    assert (Hdst : dst ∈ CoverageScan.METRICS.*2)
      by (apply list_elem_of_fmap; by exists (m, dst)).
    unfold get_db_total, with_overrides. cbn [season_totals_override game_summary].
    unfold t'.
    rewrite (override_total_after dst player_id rows t (merged_NoDup c player_id nba_df Hnd) Hfresh').
    rewrite (sum_with_ext _ (λ row, column dst (m_nba row) - column dst (m_db row))).
    2:{ intros row Hin. rewrite column_minus. case_decide as Hup; [done|].
        destruct (merged_row_values c player_id nba_df row Hnd Hin) as [Hn Hd].
        destruct (decide (m_season row = "")) as [Hs|Hs].
        - specialize (Hblank dst Hdst). unfold season_delta in Hblank.
          rewrite Hn, Hd, Hs. lia.
        - destruct (decide (m_nba row = m_db row)) as [->|Hne]; [lia|].
          destruct Hup. by split. }
    rewrite sum_with_minus. unfold rows.
    rewrite merged_sum_nba by apply db_career_NoDup.
    rewrite merged_sum_db by done.
    rewrite db_career_total by (by right).
    unfold sum_column. rewrite !sum_with_fmap.
    rewrite (sum_with_ext (λ y, column m (stats y)) (λ y, column dst (stats y)))
      by (intros; by apply column_alias).
    lia.
Qed.

Lemma round_trip_official_totals_witness :
  let W := Examples.example_world in
  let T := Examples.plain_text in
  let c := Examples.store_fresh in
  let nba_df := Examples.career_rows in
  ∃ c' updated t',
    process_player c "3" = Returned (c', updated)
    ∧ game_summary c' = game_summary c
    ∧ season_totals_override c' = Some t'
    ∧ (∀ s dst, dst ∈ CoverageScan.METRICS.*2 →
         column dst (default zero (t' !! ("3", s, "Regular Season")))
         = season_delta nba_df c "3" s dst)
    ∧ (∀ m dst, (m, dst) ∈ CoverageScan.METRICS →
         get_db_total c' "3" dst = sum_column m (stats <$> nba_df)).
Proof.
  apply (round_trip_official_totals Examples.example_world Examples.plain_text
           Examples.store_fresh "3" Examples.career_rows ∅).
  - reflexivity.
  - reflexivity.
  - apply NoDup_cons. split; [|apply NoDup_singleton].
    intros Hin%list_elem_of_singleton. discriminate Hin.
  - intros dst Hdst. simpl in Hdst. each_elem Hdst with reflexivity.
  - intros s v Hv. by rewrite lookup_empty in Hv.
Defined.

(** C1, against the claim as stated.  First, a stale override: the log
    of player 3 now holds the 100 points of 2019-20, so that season's
    delta is 0 and nothing is written for it, the override of 8 stored
    by an earlier run stays, and the corrected total is 115 where the
    official total is 107.  Second, the empty season key: the 5 points
    logged for player 9 under the season [""] differ from the official
    0, no override is written, and the corrected total stays 5. *)
Lemma stale_override_breaks_round_trip :
  let W := Examples.example_world in
  let T := Examples.plain_text in
  let after : conn :=
    with_overrides Examples.store_stale
      (<[("3", "2018-19", "Regular Season") := Totals 7 0 0 0 0]>
         (<[("3", "2019-20", "Regular Season") := Totals 8 0 0 0 0]> ∅)) in
  (nba_career_by_season "3" = Returned Examples.career_rows
   ∧ process_player Examples.store_stale "3" = Returned (after, 1)
   ∧ season_delta Examples.career_rows Examples.store_stale "3" "2019-20" "points" = 0
   ∧ get_db_total after "3" "points" = 115
   ∧ sum_column "PTS" (stats <$> Examples.career_rows) = 107)
  ∧ (nba_career_by_season "9" = Returned []
     ∧ process_player Examples.store_blank "9" = Returned (Examples.store_blank, 0)
     ∧ season_delta [] Examples.store_blank "9" "" "points" = -5
     ∧ get_db_total Examples.store_blank "9" "points" = 5).
Proof. split; split_and!; vm_compute; reflexivity. Qed.
End process_player.

(** ** Batch drivers: a failure while processing one player *)

Section update_database.
Import Py UpdateActive.
Context `{GameLog}.

Lemma statement_tally {A} (run : list game_row → A * list game_row) (s s' : state) r :
  statement run s = (r, s') → tally s' = tally s.
Proof.
  unfold statement. destruct (faults s) as [|[e|] fs]; [destruct (run _) | | destruct (run _)];
    by intros [= <- <-].
Qed.

Lemma getitem_state (game : record) (key : string) (s s' : state) r :
  getitem game key s = (r, s') → s' = s.
Proof. unfold getitem. destruct (game !! key); by intros [= <- <-]. Qed.

Lemma add_game_tally (player_id player_name season : string) (game : record) (s s' : state) r :
  add_game player_id player_name season game s = (r, s') → tally s' = tally s.
Proof.
  unfold add_game, mbind, M_bind.
  destruct (getitem game "Game_ID" s) as [[game_id|e] s1] eqn:H1;
    apply getitem_state in H1 as ->; [|by intros [= <- <-]].
  destruct (statement _ s) as [[found|e] s2] eqn:H2;
    apply statement_tally in H2; [|by intros [= <- <-]].
  destruct found.
  { intros [= <- <-]. by rewrite <- H2. }
  destruct (getitem game "GAME_DATE" s2) as [[game_date|e] s3] eqn:H3;
    apply getitem_state in H3 as ->; [|by intros [= <- <-]].
  destruct (statement _ s2) as [[[]|e] s4] eqn:H4;
    apply statement_tally in H4; [|intros [= <- <-]; congruence].
  intros [= <- <-]. rewrite <- H2, <- H4. done.
Qed.

Lemma for_each_add_game_tally (player_id player_name season : string) (games : list record) :
  ∀ (s s' : state) r,
    for_each (add_game player_id player_name season) games s = (r, s') → tally s' = tally s.
Proof.
  induction games as [|game games IH]; intros s s' r.
  - by intros [= <- <-].
  - cbn [for_each]. unfold mbind, M_bind.
    destruct (add_game _ _ _ game s) as [[[]|e] s1] eqn:H1; apply add_game_tally in H1.
    + intros Hrest%IH. congruence.
    + intros [= <- <-]. done.
Qed.

(** The [try] body of one player: it either returns, having counted the
    player as processed, or raises, having counted nothing. *)
Lemma process_tally (season : string) (player : string * string) (s s' : state) r :
  process season player s = (r, s') →
  match r with
  | Returned _ => tally s' = ((tally s).1 + 1, (tally s).2)
  | Raised _ => tally s' = tally s
  end.
Proof.
  destruct player as [player_id player_name]. unfold process, mbind, M_bind.
  destruct (for_each _ _ s) as [[[]|e] s1] eqn:H1; apply for_each_add_game_tally in H1;
    [|intros [= <- <-]; done].
  destruct (statement _ s1) as [[[]|e] s2] eqn:H2; apply statement_tally in H2;
    [|intros [= <- <-]; congruence].
  intros [= <- <-]. unfold tally in *. simpl. congruence.
Qed.

(** One turn of the loop of [update_database] never raises, and counts
    the player once: as processed, or as an error. *)
Lemma guarded_process (season : string) (player : string * string) (s : state) :
  ∃ s',
    catch (process season player)
          (λ _, count (λ st, Stats (players_processed st) (games_added st)
                               (games_skipped st) (errors st + 1))) s
    = (Returned (), s')
    ∧ match (process season player s).1 with
      | Returned _ => tally s' = ((tally s).1 + 1, (tally s).2)
      | Raised _ => tally s' = ((tally s).1, (tally s).2 + 1)
      end.
Proof.
  unfold catch. destruct (process season player s) as [[[]|e] s1] eqn:H1;
    apply process_tally in H1; simpl.
  - by exists s1.
  - eexists. split; [reflexivity|]. unfold tally in *. simpl. congruence.
Qed.

Lemma update_database_total (season : string) (active_players : list (string * string)) :
  ∀ s : state,
    ∃ s',
      update_database season active_players s = (Returned (), s')
      ∧ (tally s').1 + (tally s').2
        = (tally s).1 + (tally s).2 + Z.of_nat (length active_players)
      ∧ (tally s).2 ≤ (tally s').2.
Proof.
  induction active_players as [|player players IH]; intros s.
  - exists s. split_and!; [done | simpl; lia | lia].
  - destruct (guarded_process season player s) as (s1 & Hrun & Htally).
    destruct (IH s1) as (s2 & Hrest & Hsum & Hle).
    exists s2. split_and!.
    + unfold update_database in *. cbn [for_each]. unfold mbind, M_bind at 1.
      by rewrite Hrun.
    + rewrite Hsum. cbn [length]. destruct (process season player s).1;
        rewrite Htally; simpl; lia.
    + destruct (process season player s).1; rewrite Htally in Hle; simpl in *; lia.
Qed.

End update_database.

Section batch_drivers.
Import Py Db Api CoverageScan Overrides.





End batch_drivers.

(** ** The executor: where the loop stops, and how long it sleeps *)

Section executor_loop.
Import Py Retry RetryTiming.
Context {A : Type}.
Variable callable_fn : nat → outcome A.
Variable uniform : nat → Q.
Variables (max_attempts : nat) (base_delay max_delay : Q).

Abbreviation run := (attempts callable_fn uniform max_attempts base_delay max_delay).


Lemma sleep_budget_nonneg (range : list nat) :
  (0 <= base_delay)%Q → (0 <= max_delay)%Q →
  (0 <= sleep_budget max_attempts base_delay max_delay range)%Q.
Proof.
  intros Hb Hm. induction range as [|i range IH]; [cbn; lra|].
  cbn [sleep_budget foldr]. fold (sleep_budget max_attempts base_delay max_delay range).
  pose proof (backoff_delay_nonneg _ _ i Hb Hm). unfold SLEEP_SECONDS.
  destruct (i <? max_attempts)%nat; lra.
Qed.

(** No run sleeps longer than its budget. *)
Lemma attempts_total_sleep (len : nat) :
  (0 <= base_delay)%Q → (0 <= max_delay)%Q →
  (∀ i, (0 <= uniform i)%Q ∧ (uniform i <= 1 # 2)%Q) →
  ∀ (start : nat) (last : option exn),
    (total_sleep (run (seq start len) last).1
     <= sleep_budget max_attempts base_delay max_delay (seq start len))%Q.
Proof.
  intros Hb Hm Hu. induction len as [|len IH]; intros start last.
  - cbn. lra.
  - change (seq start (S len)) with (start :: seq (S start) len).
    cbn [attempts sleep_budget foldr].
    pose proof (backoff_delay_nonneg _ _ start Hb Hm) as Hd.
    pose proof (sleep_budget_nonneg (seq (S start) len) Hb Hm) as Hrest.
    fold (sleep_budget max_attempts base_delay max_delay (seq (S start) len)).
    destruct (callable_fn start) as [a|e].
    + cbn [total_sleep foldr fst]. unfold SLEEP_SECONDS in *.
      destruct (start <? max_attempts)%nat; lra.
    + destruct (max_attempts <=? start)%nat eqn:Hlast; cbn [orb].
      { cbn [total_sleep foldr fst]. unfold SLEEP_SECONDS in *.
        destruct (start <? max_attempts)%nat; lra. }
      destruct (negb (_should_retry_error e)).
      { cbn [total_sleep foldr fst]. unfold SLEEP_SECONDS in *.
        destruct (start <? max_attempts)%nat; lra. }
      specialize (IH (S start) (Some e)).
      destruct (run (seq (S start) len) (Some e)) as [evs r].
      cbn [total_sleep foldr fst] in IH |- *.
      replace (start <? max_attempts)%nat with true
        by (symmetry; apply Nat.ltb_lt; apply Nat.leb_gt in Hlast; lia).
      destruct (Hu start) as [Hu0 Hu1].
      assert (backoff_delay base_delay max_delay start * uniform start
              <= backoff_delay base_delay max_delay start * (1 # 2))%Q as Hjit.
      { rewrite !(Qmult_comm (backoff_delay _ _ _)). by apply Qmult_le_compat_r. }
      unfold SLEEP_SECONDS in *. fold (total_sleep evs) in IH |- *.
      set (d := backoff_delay base_delay max_delay start) in *.
      set (j := (d * uniform start)%Q) in *. lra.
Qed.

(** Every call costs at least its pacing second. *)
Lemma attempts_pacing (range : list nat) :
  (0 <= base_delay)%Q → (0 <= max_delay)%Q →
  (∀ i, (0 <= uniform i)%Q) →
  ∀ (last : option exn),
    (inject_Z (Z.of_nat (length (calls (run range last).1)))
     <= total_sleep (run range last).1)%Q.
Proof.
  intros Hb Hm Hu. induction range as [|start range IH]; intros last.
  - vm_compute. discriminate.
  - cbn [attempts].
    assert (Hone : ∀ evs, (inject_Z (Z.of_nat (length (calls evs))) <= total_sleep evs)%Q →
              (inject_Z (Z.of_nat (length (calls [Sleep SLEEP_SECONDS; Call start])))
               <= total_sleep [Sleep SLEEP_SECONDS; Call start])%Q).
    { intros _ _. vm_compute. discriminate. }
    destruct (callable_fn start) as [a|e]; [by apply (Hone [])|].
    destruct ((max_attempts <=? start)%nat || negb (_should_retry_error e));
      [by apply (Hone [])|].
    specialize (IH (Some e)).
    destruct (run range (Some e)) as [evs r]. cbn [fst] in IH |- *.
    pose proof (backoff_delay_nonneg _ _ start Hb Hm) as Hd.
    assert (0 <= backoff_delay base_delay max_delay start * uniform start)%Q as Hj
      by (apply Qmult_le_0_compat; [done | apply Hu]).
    change (calls (Sleep SLEEP_SECONDS :: Call start :: ?p :: Sleep ?q :: evs))
      with (start :: calls evs).
    cbn [total_sleep foldr length]. fold (total_sleep evs).
    rewrite Nat2Z.inj_succ, <- Z.add_1_r, inject_Z_plus. unfold SLEEP_SECONDS.
    set (d := backoff_delay base_delay max_delay start) in *.
    set (j := (d * uniform start)%Q) in *.
    set (c := inject_Z (Z.of_nat (length (calls evs)))) in *.
    change (inject_Z 1) with 1%Q. lra.
Qed.

End executor_loop.

Section executor_extras.
Import Py Api Retry RetryTiming.





(** X3.  With the limits of the scripts (5 attempts, base delay 0.8 s,
    cap 8 s) and a jitter factor drawn from [0.2, 0.5], a request sleeps
    at least one second per call it makes and at most 23 seconds in all,
    however the provider behaves. *)
Theorem request_with_retries_sleep_bounds :
  ∀ (W : World) (A : Type) (callable_fn : nat → outcome A),
    (∀ i, (2 # 10 <= uniform i)%Q ∧ (uniform i <= 5 # 10)%Q) →
    (CoverageScan.request_with_retries callable_fn).1
      = (ValidateLeaders.request_with_retries callable_fn).1
    ∧ (inject_Z (Z.of_nat (length (calls (CoverageScan.request_with_retries callable_fn).1)))
       <= total_sleep (CoverageScan.request_with_retries callable_fn).1)%Q
    ∧ (total_sleep (CoverageScan.request_with_retries callable_fn).1 <= 23)%Q.
Proof.
  intros W A callable_fn Hu. split; [done|]. split.
  - apply attempts_pacing; [done | done |].
    intros i. destruct (Hu i). lra.
  - unfold CoverageScan.request_with_retries, Retry.request_with_retries.
    apply Qle_trans with (sleep_budget MAX_ATTEMPTS BASE_DELAY MAX_DELAY (seq 1 5)).
    + apply (attempts_total_sleep callable_fn uniform MAX_ATTEMPTS BASE_DELAY MAX_DELAY 5);
        [done | done |].
      intros i. destruct (Hu i). split; lra.
    + vm_compute. discriminate.
Qed.

Lemma request_with_retries_sleep_bounds_witness :
  let W := Examples.example_world in
  (CoverageScan.request_with_retries (PlayerCareerStats "2544")).1
    = (ValidateLeaders.request_with_retries (PlayerCareerStats "2544")).1
  ∧ (inject_Z (Z.of_nat (length (calls
        (CoverageScan.request_with_retries (PlayerCareerStats "2544")).1)))
     <= total_sleep (CoverageScan.request_with_retries (PlayerCareerStats "2544")).1)%Q
  ∧ (total_sleep (CoverageScan.request_with_retries (PlayerCareerStats "2544")).1 <= 23)%Q.
Proof.
  apply (request_with_retries_sleep_bounds Examples.example_world _
           (@PlayerCareerStats Examples.example_world "2544")).
  intros i. split; vm_compute; discriminate.
Defined.

End executor_extras.

(** ** Which errors are retried *)

Section transient_errors.
Import Py Retry.

Lemma prefix_app (m s : string) :
  String.prefix m s = true ↔ ∃ post, s = m +:+ post.
Proof.
  revert s. induction m as [|c m IH]; intros s.
  - simpl. split; [eauto|]. by destruct s.
  - destruct s as [|c' s]; simpl.
    + split; [done|]. by intros [post [=]].
    + destruct (ascii_dec c c') as [->|Hne].
      * rewrite IH. split; intros [post Hp]; exists post; [by rewrite Hp | by injection Hp].
      * split; [done|]. intros [post [= ? ?]]. done.
Qed.

Lemma contains_app (m s : string) :
  contains m s = true ↔ ∃ pre post, s = pre +:+ m +:+ post.
Proof.
  induction s as [|c s IH]; cbn [contains].
  - rewrite orb_false_r, prefix_app. split.
    + intros [post Hp]. by exists "", post.
    + intros (pre & post & Hp). destruct pre; [by exists post|done].
  - rewrite orb_true_iff, prefix_app, IH. split.
    + intros [[post Hp] | (pre & post & Hp)].
      * by exists "", post.
      * exists (String c pre), post. simpl. by rewrite Hp.
    + intros (pre & post & Hp). destruct pre as [|c' pre]; simpl in Hp.
      * left. by exists post.
      * right. injection Hp as -> ->. by exists pre, post.
Qed.

Lemma lower_upper_ascii (c : ascii) : lower_ascii (upper_ascii c) = lower_ascii c.
Proof. destruct c as [[] [] [] [] [] [] [] []]; reflexivity. Qed.

Lemma lower_lower_ascii (c : ascii) : lower_ascii (lower_ascii c) = lower_ascii c.
Proof. destruct c as [[] [] [] [] [] [] [] []]; reflexivity. Qed.

Lemma lower_upper (s : string) : lower (upper s) = lower s.
Proof. induction s as [|c s IH]; simpl; [done|]. by rewrite lower_upper_ascii, IH. Qed.

Lemma lower_lower (s : string) : lower (lower s) = lower s.
Proof. induction s as [|c s IH]; simpl; [done|]. by rewrite lower_lower_ascii, IH. Qed.

Lemma lower_app (s1 s2 : string) : lower (s1 +:+ s2) = lower s1 +:+ lower s2.
Proof. induction s1 as [|c s1 IH]; simpl; [done|]. by rewrite IH. Qed.

Lemma append_assoc (s1 s2 s3 : string) : (s1 +:+ s2) +:+ s3 = s1 +:+ s2 +:+ s3.
Proof.
  induction s1 as [|c s1 IH]; [done|].
  change (String c ((s1 +:+ s2) +:+ s3) = String c (s1 +:+ s2 +:+ s3)). by f_equal.
Qed.

(** X4.  [_should_retry_error] holds exactly when the lower-cased
    description of the error contains one of the ten markers as a
    contiguous substring.  The test does not depend on the case of the
    description, and wrapping a transient description in more text
    keeps it transient. *)
Theorem should_retry_error_substring :
  ∀ err : exn,
    (_should_retry_error err = true ↔
     ∃ m pre post, m ∈ transient_markers ∧ lower err = pre +:+ m +:+ post)
    ∧ _should_retry_error (upper err) = _should_retry_error err
    ∧ _should_retry_error (lower err) = _should_retry_error err
    ∧ ∀ pre post, _should_retry_error err = true →
                  _should_retry_error (pre +:+ err +:+ post) = true.
Proof.
  intros err.
  assert (Hchar : ∀ e, _should_retry_error e = true ↔
            ∃ m pre post, m ∈ transient_markers ∧ lower e = pre +:+ m +:+ post).
  { intros e. unfold _should_retry_error. rewrite existsb_exists. split.
    - intros (m & Hin%list_elem_of_In & (pre & post & Hc)%contains_app). eauto.
    - intros (m & pre & post & Hin & Hc). exists m. split; [by apply list_elem_of_In|].
      apply contains_app. eauto. }
  split_and!.
  - apply Hchar.
  - unfold _should_retry_error. by rewrite lower_upper.
  - unfold _should_retry_error. by rewrite lower_lower.
  - intros pre post (m & p & q & Hin & Hc)%Hchar. apply Hchar.
    exists m, (lower pre +:+ p), (q +:+ lower post). split; [done|].
    rewrite !lower_app, Hc. by rewrite !append_assoc.
Qed.
End transient_errors.

(** ** The override scripts run again, and what they leave alone *)

Section overrides_rerun.
Import Py Db Api CoverageScan Overrides ValidateLeaders.
Implicit Types (row : merged_row) (t : gmap override_key totals) (c : conn).

(** X5.  [ensure_table] creates the override table empty when it is
    missing and changes nothing when it exists: running it twice is
    running it once, the game log is untouched, and no total that
    [get_db_total] reports changes. *)
Theorem ensure_table_idempotent :
  ∀ (c : conn),
    ensure_table (ensure_table c) = ensure_table c
    ∧ game_summary (ensure_table c) = game_summary c
    ∧ (∀ t, season_totals_override c = Some t → ensure_table c = c)
    ∧ (season_totals_override c = None →
       season_totals_override (ensure_table c) = Some ∅)
    ∧ ∀ player_id db_col,
        get_db_total (ensure_table c) player_id db_col = get_db_total c player_id db_col.
Proof.
  intros [gs [t|] ps]; split_and!; try done; intros; by try discriminate.
Qed.

(** A key some row upserts ends up independent of what the table held. *)
Lemma upsert_steps_overwrite (player_id : string) (rows : list merged_row) (k : override_key) :
  ∀ t1 t2,
    (∃ row, row ∈ rows ∧ upserted row ∧ k = (player_id, m_season row, "Regular Season")) →
    foldl (upsert_step player_id) t1 rows !! k = foldl (upsert_step player_id) t2 rows !! k.
Proof.
  induction rows as [|row rows IH] using rev_ind; intros t1 t2 (row0 & Hin & Hup & Hk).
  { by apply elem_of_nil in Hin. }
  rewrite !foldl_app. cbn [foldl].
  destruct (decide (upserted row ∧ k = (player_id, m_season row, "Regular Season")))
    as [[Hup' ->]|Hno].
  - unfold upsert_step. rewrite !decide_True by done. by rewrite !lookup_insert_eq.
  - assert (∀ t, upsert_step player_id t row !! k = t !! k) as Hstep.
    { intros t. unfold upsert_step. case_decide; [|done].
      apply lookup_insert_ne. intros <-. tauto. }
    rewrite !Hstep. apply IH. exists row0. split_and!; [|done..].
    apply elem_of_app in Hin as [?|Hin]; [done|].
    apply list_elem_of_singleton in Hin as ->. tauto.
Qed.

Lemma upsert_steps_idempotent (player_id : string) (rows : list merged_row) t :
  foldl (upsert_step player_id) (foldl (upsert_step player_id) t rows) rows
  = foldl (upsert_step player_id) t rows.
Proof.
  apply map_eq. intros k.
  destruct (decide (Exists (λ row, upserted row
                                   ∧ k = (player_id, m_season row, "Regular Season")) rows))
    as [Hw|Hnw]; rewrite Exists_exists in *.
  - by apply upsert_steps_overwrite.
  - apply upsert_steps_untouched. intros row Hin Hup ->. apply Hnw. eauto.
Qed.

(** X6.  Running [process_player] again on the store it has just
    written, the official series being the same, leaves that store as
    it is and reports the same number of updated seasons: the deltas
    are taken against the game log, not against the overrides. *)
Theorem process_player_idempotent :
  ∀ (W : World) (T : PyText) (c c' : conn) (player_id : string)
    (t : gmap override_key totals) (updated : Z),
    season_totals_override c = Some t →
    process_player c player_id = Returned (c', updated) →
    process_player c' player_id = Returned (c', updated).
Proof.
  intros W T c c' player_id t updated Ht Hrun.
  destruct (nba_career_by_season player_id) as [nba_df|e] eqn:Hnba.
  2:{ unfold process_player in Hrun. by rewrite Hnba in Hrun. }
  rewrite (process_player_run W T c player_id nba_df t Hnba Ht) in Hrun.
  injection Hrun as <- <-.
  rewrite (process_player_run W T _ player_id nba_df _ Hnba (with_overrides_table _ _)).
  change (db_career_by_season (with_overrides c ?x) player_id)
    with (db_career_by_season c player_id).
  by rewrite with_overrides_twice, upsert_steps_idempotent.
Qed.

Lemma process_player_idempotent_witness :
  let W := Examples.example_world in
  let T := Examples.plain_text in
  let c' := with_overrides Examples.store_fresh
              (<[("3", "2019-20", "Regular Season") := Totals 8 0 0 0 0]>
                 (<[("3", "2018-19", "Regular Season") := Totals 7 0 0 0 0]> ∅)) in
  process_player Examples.store_fresh "3" = Returned (c', 2)
  ∧ process_player c' "3" = Returned (c', 2).
Proof.
  split; [vm_compute; reflexivity|].
  apply (process_player_idempotent Examples.example_world Examples.plain_text
           Examples.store_fresh _ "3" ∅ 2); [reflexivity | vm_compute; reflexivity].
Defined.

Lemma override_total_delete_other (label p : string) t (k : override_key) :
  k.1.1 ≠ p →
  override_total label p (delete k t) = override_total label p t.
Proof.
  intros Hk. destruct (t !! k) as [v|] eqn:Hv; [|by rewrite delete_id].
  rewrite <- (insert_delete_id t k v Hv) at 2.
  rewrite override_total_insert_fresh by apply lookup_delete_eq.
  unfold contribution. rewrite decide_False by tauto. lia.
Qed.

Lemma override_total_insert_other (label p : string) t (k : override_key) (v : totals) :
  k.1.1 ≠ p →
  override_total label p (<[k := v]> t) = override_total label p t.
Proof.
  intros Hk. rewrite override_total_insert, override_total_delete_other by done.
  unfold contribution. rewrite decide_False by tauto. lia.
Qed.

Lemma upsert_steps_other_player (label p player_id : string) (rows : list merged_row) :
  p ≠ player_id →
  ∀ t, override_total label p (foldl (upsert_step player_id) t rows)
       = override_total label p t.
Proof.
  intros Hp. induction rows as [|row rows IH]; intros t; [done|].
  cbn [foldl]. rewrite IH. unfold upsert_step. case_decide; [|done].
  apply override_total_insert_other. simpl. congruence.
Qed.

Lemma upsert_steps_keep (player_id : string) (rows : list merged_row) (k : override_key) :
  ∀ t, is_Some (t !! k) → is_Some (foldl (upsert_step player_id) t rows !! k).
Proof.
  induction rows as [|row rows IH]; intros t Hk; [done|].
  cbn [foldl]. apply IH. unfold upsert_step. case_decide; [|done].
  by apply lookup_insert_is_Some'; right.
Qed.

(** X7.  What [process_player] leaves alone: the game log and
    [player_stats] are unchanged; an override record of another player,
    or of a season type other than the regular season, is unchanged; no
    record is deleted; and the totals [get_db_total] reports for any
    other player are unchanged. *)
Theorem process_player_frame :
  ∀ (W : World) (T : PyText) (c c' : conn) (player_id : string)
    (t : gmap override_key totals) (updated : Z),
    season_totals_override c = Some t →
    process_player c player_id = Returned (c', updated) →
    game_summary c' = game_summary c
    ∧ player_stats c' = player_stats c
    ∧ ∃ t', season_totals_override c' = Some t'
            ∧ (∀ p s ty, p ≠ player_id ∨ ty ≠ "Regular Season" →
                         t' !! (p, s, ty) = t !! (p, s, ty))
            ∧ (∀ k, is_Some (t !! k) → is_Some (t' !! k))
            ∧ (∀ p db_col, p ≠ player_id →
                 get_db_total c' p db_col = get_db_total c p db_col).
Proof.
  intros W T c c' player_id t updated Ht Hrun.
  destruct (nba_career_by_season player_id) as [nba_df|e] eqn:Hnba.
  2:{ unfold process_player in Hrun. by rewrite Hnba in Hrun. }
  rewrite (process_player_run W T c player_id nba_df t Hnba Ht) in Hrun.
  injection Hrun as <- <-. split_and!; [done | done |].
  eexists. split_and!; [reflexivity | | |].
  - intros p s ty Hother. apply upsert_steps_untouched.
    intros row _ _ [= -> _ ->]. by destruct Hother.
  - intros k. apply upsert_steps_keep.
  - intros p db_col Hp. unfold get_db_total, with_overrides.
    cbn [season_totals_override game_summary]. rewrite Ht.
    by rewrite upsert_steps_other_player.
Qed.

Lemma process_player_frame_witness :
  let W := Examples.example_world in
  let T := Examples.plain_text in
  let c := Examples.store_stale in
  let t : gmap override_key totals :=
    {[("3", "2019-20", "Regular Season") := Totals 8 0 0 0 0]} in
  let c' := with_overrides c
              (<[("3", "2018-19", "Regular Season") := Totals 7 0 0 0 0]> t) in
  game_summary c' = game_summary c
  ∧ player_stats c' = player_stats c
  ∧ ∃ t', season_totals_override c' = Some t'
          ∧ (∀ p s ty, p ≠ "3" ∨ ty ≠ "Regular Season" →
                       t' !! (p, s, ty) = t !! (p, s, ty))
          ∧ (∀ k, is_Some (t !! k) → is_Some (t' !! k))
          ∧ (∀ p db_col, p ≠ "3" →
               get_db_total c' p db_col = get_db_total c p db_col).
Proof.
  apply (process_player_frame Examples.example_world Examples.plain_text
           Examples.store_stale _ "3" _ 1); [reflexivity | vm_compute; reflexivity].
Defined.

(** X8.  The proof-of-concept script on one player leaves the
    database exactly as the batch script does when the set of discrepant
    players is that one player, and fails exactly when it does, with
    the same error. *)
Theorem poc_main_is_main_on_one_player :
  ∀ (W : World) (T : PyText) (c : conn) (player_id : string),
    (poc_main player_id c).1 = (main {[player_id]} c).1
    ∧ ((poc_main player_id c).2 = Returned () ↔ ∃ n, (main {[player_id]} c).2 = Returned n)
    ∧ ∀ e, (poc_main player_id c).2 = Raised e ↔ (main {[player_id]} c).2 = Raised e.
Proof.
  intros W T c player_id. unfold poc_main, main.
  rewrite decide_False by (apply non_empty_singleton_L).
  rewrite elements_singleton. cbn [merge_sort]. 
  change (merge_sort String.le [player_id]) with [player_id].
  cbn [for_each].
  destruct (process_player (ensure_table c) player_id) as [[c1 n]|e]; cbn.
  - split; [done|]. split; [split; eauto|]. intros e. split; intros [=].
  - split; [done|]. split; [split; [intros [=] | intros [? [=]]]|]. intros e'. split; by intros [= ->].
Qed.
End overrides_rerun.

(** ** The two series of the coverage scan *)

Section coverage_series.
Import Py Db Api CoverageScan Overrides ValidateLeaders.

Lemma upper_upper_ascii (c : ascii) : upper_ascii (upper_ascii c) = upper_ascii c.
Proof. destruct c as [[] [] [] [] [] [] [] []]; reflexivity. Qed.

Lemma upper_upper (s : string) : upper (upper s) = upper s.
Proof. induction s as [|c s IH]; simpl; [done|]. by rewrite upper_upper_ascii, IH. Qed.

Lemma find_column_fmap (p : string → bool) (f : string → string) (cols : list string) :
  find_column p (f <$> cols) = find_column (λ l, p (f l)) cols.
Proof.
  induction cols as [|c cols IH]; [done|].
  rewrite fmap_cons. cbn [find_column]. by rewrite IH.
Qed.

Lemma find_column_ext (p q : string → bool) (cols : list string) :
  (∀ l, p l = q l) → find_column p cols = find_column q cols.
Proof.
  intros Hpq. induction cols as [|c cols IH]; [done|].
  cbn [find_column]. by rewrite Hpq, IH.
Qed.

(** X9.  The career fetch does not depend on the case of the column
    labels of the response: upper-casing or lower-casing every label
    changes neither whether a frame has the needed columns nor the row
    read from it. *)
Theorem career_fetch_ignores_label_case :
  ∀ (T : PyText) (needed : list string) (f : frame) (row : list cell),
    has_columns needed (Frame (upper <$> columns f) (rows f)) = has_columns needed f
    ∧ has_columns needed (Frame (lower <$> columns f) (rows f)) = has_columns needed f
    ∧ normalize_row (Frame (upper <$> columns f) (rows f)) row = normalize_row f row
    ∧ normalize_row (Frame (lower <$> columns f) (rows f)) row = normalize_row f row.
Proof.
  intros T needed f row.
  assert (Hul : ∀ s, upper (lower s) = upper s).
  { induction s as [|c s IH]; simpl; [done|]. rewrite IH. f_equal.
    destruct c as [[] [] [] [] [] [] [] []]; reflexivity. }
  assert (Hcols_u : upper <$> (upper <$> columns f) = upper <$> columns f).
  { rewrite <- list_fmap_compose. apply list_fmap_ext. intros _ l _. apply upper_upper. }
  assert (Hcols_l : upper <$> (lower <$> columns f) = upper <$> columns f).
  { rewrite <- list_fmap_compose. apply list_fmap_ext. intros _ l _. apply Hul. }
  assert (Hcell_u : ∀ c, upper_cell (Frame (upper <$> columns f) (rows f)) row c
                         = upper_cell f row c).
  { intros c. unfold upper_cell. cbn [columns]. rewrite find_column_fmap.
    erewrite find_column_ext; [done|]. intros l. simpl. by rewrite upper_upper. }
  assert (Hcell_l : ∀ c, upper_cell (Frame (lower <$> columns f) (rows f)) row c
                         = upper_cell f row c).
  { intros c. unfold upper_cell. cbn [columns]. rewrite find_column_fmap.
    erewrite find_column_ext; [done|]. intros l. simpl. by rewrite Hul. }
  unfold has_columns, normalize_row. cbn [columns].
  rewrite Hcols_u, Hcols_l, !Hcell_u, !Hcell_l. done.
Qed.

(** X10.  Outcomes of [nba_career_by_season]: an error the executor
    raises is propagated to the caller (nothing is caught); when no
    frame of the response has the needed columns the result is the
    empty series; otherwise the series is read from the first frame
    that has them, one row per row of that frame. *)
Theorem nba_career_by_season_outcomes :
  ∀ (W : World) (T : PyText) (player_id : string),
    (∀ e, (CoverageScan.request_with_retries (PlayerCareerStats player_id)).2 = Raised e →
          nba_career_by_season player_id = Raised e)
    ∧ (∀ frames,
         (CoverageScan.request_with_retries (PlayerCareerStats player_id)).2 = Returned frames →
         (∀ f, f ∈ frames →
               has_columns (["SEASON_ID"; "GP"] ++ CoverageScan.METRICS.*1) f = false) →
         nba_career_by_season player_id = Returned [])
    ∧ (∀ frames before f after,
         (CoverageScan.request_with_retries (PlayerCareerStats player_id)).2 = Returned frames →
         frames = before ++ f :: after →
         (∀ f', f' ∈ before →
                has_columns (["SEASON_ID"; "GP"] ++ CoverageScan.METRICS.*1) f' = false) →
         has_columns (["SEASON_ID"; "GP"] ++ CoverageScan.METRICS.*1) f = true →
         nba_career_by_season player_id = Returned (normalize_row f <$> rows f)).
Proof.
  intros W T player_id. unfold nba_career_by_season.
  set (needed := ["SEASON_ID"; "GP"] ++ CoverageScan.METRICS.*1). split_and!.
  - intros e ->. done.
  - intros frames -> Hnone. unfold mbind, outcome_bind, bind.
    assert (select_frame needed frames = None) as ->; [|done].
    unfold select_frame. induction frames as [|f fs IH]; [done|].
    cbn [List.find]. rewrite Hnone by left. apply IH. intros f' Hf'. apply Hnone. by right.
  - intros frames before f after -> -> Hbefore Hf. unfold mbind, outcome_bind, bind.
    assert (select_frame needed (before ++ f :: after) = Some f) as ->; [|done].
    unfold select_frame. induction before as [|f' fs IH]; cbn [List.find app].
    + by rewrite Hf.
    + rewrite Hbefore by left. apply IH. intros f'' Hf''. apply Hbefore. by right.
Qed.

(** X11.  The local series of [db_career_by_season] has one row per
    season in which the player has a regular-season game, no season
    twice; the totals of a row are the sums over the regular-season
    games of the player in that season; and the series is empty exactly
    when the player has no regular-season game. *)
Theorem db_career_by_season_groups :
  ∀ (c : conn) (player_id : string),
    NoDup (db_career_by_season c player_id).*1
    ∧ (∀ s, s ∈ (db_career_by_season c player_id).*1 ↔
            ∃ g, g ∈ game_summary c ∧ g_player_id g = player_id
                 ∧ g_season_type g = "Regular Season" ∧ g_season g = s)
    ∧ (∀ s b, (s, b) ∈ db_career_by_season c player_id →
              b = sum_totals (g_stats <$>
                    filter (λ g, g_player_id g = player_id
                                 ∧ g_season_type g = "Regular Season"
                                 ∧ g_season g = s) (game_summary c)))
    ∧ (db_career_by_season c player_id = [] ↔
       ∀ g, g ∈ game_summary c → g_player_id g = player_id →
            g_season_type g ≠ "Regular Season").
Proof.
  intros c player_id.
  assert (Hkeys : ∀ s, s ∈ (db_career_by_season c player_id).*1 ↔
            ∃ g, g ∈ game_summary c ∧ g_player_id g = player_id
                 ∧ g_season_type g = "Regular Season" ∧ g_season g = s).
  { intros s. rewrite db_career_keys, elem_of_remove_dups, list_elem_of_fmap.
    unfold regular_season. split.
    - intros (g & -> & [[Hp Ht] Hin]%list_elem_of_filter). eauto 10.
    - intros (g & Hin & Hp & Ht & <-). exists g. split; [done|].
      by apply list_elem_of_filter. }
  split_and!.
  - apply db_career_NoDup.
  - apply Hkeys.
  - intros s b ->%elem_of_db_career. unfold local_season, regular_season.
    do 2 f_equal. rewrite list_filter_filter. apply list_filter_iff. intros g. tauto.
  - split.
    + intros Hnil g Hin Hp Ht.
      assert (g_season g ∈ (db_career_by_season c player_id).*1) as Hs
        by (apply Hkeys; eauto 10).
      rewrite Hnil in Hs. by apply elem_of_nil in Hs.
    + intros Hno. destruct (db_career_by_season c player_id) as [|[s b] rest] eqn:Hdb; [done|].
      assert (s ∈ ((s, b) :: rest).*1) as (g & Hin & Hp & Ht & _)%Hkeys by left.
      by destruct (Hno g Hin Hp).
Qed.

(** X12.  While no override is stored, the seasons of the local
    series add up, for each tracked metric, to the career total
    [get_db_total] reports. *)
Theorem db_career_adds_up_to_db_total :
  ∀ (c : conn) (player_id dst : string),
    dst ∈ CoverageScan.METRICS.*2 →
    season_totals_override c = None ∨ season_totals_override c = Some ∅ →
    sum_with (λ x, column dst x.2) (db_career_by_season c player_id)
    = get_db_total c player_id dst.
Proof.
  intros c player_id dst Hdst Htable. rewrite db_career_total by (by right).
  unfold get_db_total. destruct Htable as [-> | ->]; [lia|].
  unfold override_total. rewrite map_fold_empty. lia.
Qed.
Lemma db_career_adds_up_to_db_total_witness :
  sum_with (λ x, column "points" x.2) (db_career_by_season Examples.store_fresh "3")
  = get_db_total Examples.store_fresh "3" "points".
Proof.
  apply (db_career_adds_up_to_db_total Examples.store_fresh "3" "points").
  - cbn. by left.
  - right. reflexivity.
Defined.
End coverage_series.

(** ** The coverage report *)

Section coverage_report.
Import Py Db Api CoverageScan Overrides CoverageReport.
Implicit Types (nba_df : list nba_row) (db_df : list (string * totals)).

Lemma merged_view_rows nba_df db_df (row : coverage_row) :
  row ∈ merged_view nba_df db_df ↔
  ∃ oa ob,
    (c_season row, oa, ob) ∈ merge_outer ((λ r, (season r, r)) <$> nba_df) db_df
    ∧ row = CoverageRow (c_season row) (default zero (stats <$> oa)) (GP <$> oa)
              (default zero ob) (bool_decide (is_Some oa)) (bool_decide (is_Some ob))
              (minus (default zero ob) (default zero (stats <$> oa))).
Proof.
  unfold merged_view. rewrite list_elem_of_fmap. split.
  - intros ([[k oa] ob] & -> & Hin). by exists oa, ob.
  - intros (oa & ob & Hin & Hrow). exists (c_season row, oa, ob). by split.
Qed.

Lemma missing_db_iff nba_df db_df (s : string) :
  s ∈ missing_db (merged_view nba_df db_df) ↔ s ∈ season <$> nba_df ∧ s ∉ db_df.*1.
Proof.
  unfold missing_db. rewrite list_elem_of_fmap. rewrite <- (nba_keys_view nba_df). split.
  - intros (row & -> & [[Hn Hd] (oa & ob & Hin & Hrow)%merged_view_rows]%list_elem_of_filter).
    rewrite Hrow in Hn, Hd. cbn in Hn, Hd.
    apply bool_decide_eq_true in Hn as [a ->].
    apply bool_decide_eq_false in Hd. destruct ob as [b|]; [by destruct Hd|].
    apply elem_of_merge_outer in Hin as [Ha Hb]. split; [|done].
    apply list_elem_of_fmap. by exists (c_season row, a).
  - intros [((k & a) & -> & Ha)%list_elem_of_fmap Hb]. simpl in *.
    eexists (CoverageRow k _ _ _ _ _ _). split; [done|].
    apply list_elem_of_filter. split; [|apply merged_view_rows; exists (Some a), None;
      split; [by apply elem_of_merge_outer | reflexivity]].
    done.
Qed.

Lemma missing_nba_iff nba_df db_df (s : string) :
  s ∈ missing_nba (merged_view nba_df db_df) ↔ s ∈ db_df.*1 ∧ s ∉ season <$> nba_df.
Proof.
  unfold missing_nba. rewrite list_elem_of_fmap. rewrite <- (nba_keys_view nba_df). split.
  - intros (row & -> & [[Hd Hn] (oa & ob & Hin & Hrow)%merged_view_rows]%list_elem_of_filter).
    rewrite Hrow in Hn, Hd. cbn in Hn, Hd.
    apply bool_decide_eq_true in Hd as [b ->].
    apply bool_decide_eq_false in Hn. destruct oa as [a|]; [by destruct Hn|].
    apply elem_of_merge_outer in Hin as [Ha Hb]. split; [|done].
    apply list_elem_of_fmap. by exists (c_season row, b).
  - intros [((k & b) & -> & Hb)%list_elem_of_fmap Ha]. simpl in *.
    eexists (CoverageRow k _ _ _ _ _ _). split; [done|].
    apply list_elem_of_filter. split; [|apply merged_view_rows; exists None, (Some b);
      split; [by apply elem_of_merge_outer | reflexivity]].
    done.
Qed.

(** X13.  The coverage report lists as missing in the store exactly
    the seasons of the official series that the local series lacks, as
    extra in the store exactly the seasons of the local series that the
    official series lacks, and says that the season coverage matches
    exactly when both series have the same seasons. *)
Theorem coverage_report_missing_seasons :
  ∀ (nba_df : list nba_row) (db_df : list (string * totals)),
    (∀ s, s ∈ missing_db (merged_view nba_df db_df) ↔ s ∈ season <$> nba_df ∧ s ∉ db_df.*1)
    ∧ (∀ s, s ∈ missing_nba (merged_view nba_df db_df)
            ↔ s ∈ db_df.*1 ∧ s ∉ season <$> nba_df)
    ∧ (coverage_matches (merged_view nba_df db_df) = true
       ↔ ∀ s, s ∈ season <$> nba_df ↔ s ∈ db_df.*1).
Proof.
  intros nba_df db_df. split_and!; [apply missing_db_iff | apply missing_nba_iff |].
  unfold coverage_matches. rewrite andb_true_iff, !bool_decide_eq_true. split.
  - intros [Hdb Hnba] s. split; intros Hs.
    + destruct (decide (s ∈ db_df.*1)) as [|Hno]; [done|].
      assert (s ∈ missing_db (merged_view nba_df db_df)) as Hin by by apply missing_db_iff.
      rewrite Hdb in Hin. by apply elem_of_nil in Hin.
    + destruct (decide (s ∈ season <$> nba_df)) as [|Hno]; [done|].
      assert (s ∈ missing_nba (merged_view nba_df db_df)) as Hin by by apply missing_nba_iff.
      rewrite Hnba in Hin. by apply elem_of_nil in Hin.
  - intros Hsame. split.
    + destruct (missing_db _) as [|s l] eqn:Hm; [done|].
      assert (s ∈ missing_db (merged_view nba_df db_df)) as [Hn Hd]%missing_db_iff
        by (rewrite Hm; left).
      destruct Hd. by apply Hsame.
    + destruct (missing_nba _) as [|s l] eqn:Hm; [done|].
      assert (s ∈ missing_nba (merged_view nba_df db_df)) as [Hd Hn]%missing_nba_iff
        by (rewrite Hm; left).
      destruct Hn. by apply Hsame.
Qed.
End coverage_report.

Section delta_sign.
Import Py Db Api CoverageScan Overrides.

Lemma filter_key_fmap {X Y} (f : X → Y) (k : string) (l : list (string * X)) :
  filter (λ y, y.1 = k) ((λ x : string * X, (x.1, f x.2)) <$> l)
  = (λ x : string * X, (x.1, f x.2)) <$> filter (λ y, y.1 = k) l.
Proof.
  induction l as [|[k' x] l IH]; [done|].
  rewrite fmap_cons, !filter_cons. simpl. destruct (decide (k' = k)); by rewrite IH.
Qed.

Lemma fmap_bind_list {X Y Z'} (F : Y → Z') (h : X → list Y) (l : list X) :
  F <$> (l ≫= h) = l ≫= λ x, F <$> h x.
Proof.
  induction l as [|x l IH]; [done|].
  change ((x :: l) ≫= ?g) with (g x ++ (l ≫= g)). by rewrite fmap_app, IH.
Qed.

(** Mapping the payload of the left frame commutes with the outer merge. *)
Lemma merge_outer_fmap_l {A A' B} (f : A → A') (l : list (string * A)) (r : list (string * B)) :
  merge_outer ((λ x : string * A, (x.1, f x.2)) <$> l) r
  = (λ row : string * option A * option B, (row.1.1, f <$> row.1.2, row.2))
    <$> merge_outer l r.
Proof.
  unfold merge_outer. rewrite fmap_bind_list.
  assert (((λ x : string * A, (x.1, f x.2)) <$> l).*1 = l.*1) as ->.
  { rewrite <- list_fmap_compose. by apply list_fmap_ext. }
  apply list_bind_ext; [|done]. intros k. rewrite filter_key_fmap.
  destruct (filter (λ y, y.1 = k) l) as [|x ls];
    destruct (filter (λ y, y.1 = k) r) as [|y rs];
    rewrite ?fmap_nil, ?fmap_cons; cbv beta iota zeta.
  - done.
  - simpl. f_equal. rewrite <- list_fmap_compose. by apply list_fmap_ext.
  - simpl. f_equal. rewrite <- !list_fmap_compose. by apply list_fmap_ext.
  - change ((x.1, f x.2) :: (?g <$> ls)) with (g <$> (x :: ls)).
    rewrite list_fmap_bind, fmap_bind_list.
    apply list_bind_ext; [|done]. intros [k1 a]. unfold compose.
    rewrite fmap_bind_list. by apply list_bind_ext.
Qed.

(** X14.  The coverage scan and the override scripts align the same
    seasons with the same official and local totals, and take the
    difference with opposite signs: the override written for a season
    is the negation of the DELTA columns the coverage scan reports
    for it. *)
Theorem coverage_delta_is_minus_override_delta :
  ∀ (nba_df : list nba_row) (db_df : list (string * totals)),
    (λ r, (c_season r, NBA r, DB r)) <$> merged_view nba_df db_df
    = (λ r, (m_season r, m_nba r, m_db r)) <$> merged nba_df db_df
    ∧ (λ r, override_row (season_deltas r).1) <$> merged nba_df db_df
      = (λ r, minus zero (DELTA r)) <$> merged_view nba_df db_df.
Proof.
  intros nba_df db_df. unfold merged_view, merged.
  replace ((λ r, (season r, stats r)) <$> nba_df)
    with ((λ x : string * nba_row, (x.1, stats x.2)) <$> ((λ r, (season r, r)) <$> nba_df))
    by (rewrite <- list_fmap_compose; by apply list_fmap_ext).
  rewrite merge_outer_fmap_l, <- !list_fmap_compose. split.
  - apply list_fmap_ext. by intros _ [[k oa] ob] _.
  - apply list_fmap_ext. intros _ [[k oa] ob] _. unfold compose.
    rewrite season_deltas_row. cbn [m_nba m_db DELTA].
    unfold minus, zero.
    destruct oa as [[sn [] ]|], ob as [[]|]; simpl; f_equal; lia.
Qed.
End delta_sign.

(** ** The totals cache across calls *)

Section cache_reuse.
Import Py Db Api Retry ValidateLeaders.

Lemma find_column_eqb_Some (label : string) (cols : list string) (i : nat) :
  find_column (String.eqb label) cols = Some i → cols !! i = Some label.
Proof.
  revert i. induction cols as [|c cols IH]; intros i; [done|].
  cbn [find_column]. destruct (String.eqb label c) eqn:Hc.
  - intros [= <-]. apply String.eqb_eq in Hc. by subst.
  - destruct (find_column (String.eqb label) cols) as [j|]; [|done].
    intros [= <-]. by apply IH.
Qed.

Lemma find_column_eqb_None (label : string) (cols : list string) :
  find_column (String.eqb label) cols = None ↔ label ∉ cols.
Proof.
  induction cols as [|c cols IH]; cbn [find_column].
  - split; [intros _ []%elem_of_nil | done].
  - rewrite not_elem_of_cons. destruct (String.eqb label c) eqn:Hc.
    + apply String.eqb_eq in Hc. split; [done | intros [? _]; done].
    + apply String.eqb_neq in Hc.
      destruct (find_column (String.eqb label) cols) as [j|].
      * split; [done|]. intros [_ Hno]. by apply IH in Hno.
      * split; [|done]. intros _. split; [done|]. by apply IH.
Qed.

Lemma column_cells_label (f : frame) (label : string) :
  (label ∈ columns f → ∃ cells, column_cells f label = Returned cells)
  ∧ (label ∉ columns f → column_cells f label = Raised label).
Proof.
  unfold column_cells. split.
  - intros Hin. destruct (find_column (String.eqb label) (columns f)) as [i|] eqn:Hf;
      [by eexists|]. by apply find_column_eqb_None in Hf.
  - intros Hno. apply find_column_eqb_None in Hno. by rewrite Hno.
Qed.

(** The totals read from a response always form a full record. *)
Lemma career_totals_full (T : PyText) (frames : list frame) (totals : gmap string Z) :
  career_totals frames = Returned (Some totals) → full_record (Some totals) = true.
Proof.
  unfold career_totals. destruct (CoverageScan.select_frame TOTAL_KEYS frames) as [f|]; [|done].
  destruct (column_total f "PTS") as [pts|]; [|done].
  destruct (column_total f "REB") as [reb|]; [|done].
  destruct (column_total f "AST") as [ast|]; [|done].
  destruct (column_total f "STL") as [stl|]; [|done].
  destruct (column_total f "BLK") as [blk|]; [|done].
  intros [= <-]. apply full_record_spec. eexists. split; [done|].
  intros k Hk. unfold TOTAL_KEYS in Hk.
  each_elem Hk with (by repeat (rewrite lookup_insert_eq || rewrite lookup_insert_ne by done)).
Qed.

(** X15.  A successful [fetch_official_totals] is remembered: the same
    call on the cache it leaves returns the same totals without any
    request; and when the totals came from a request and the disk can
    be written, a fresh process that starts from the cache file it
    leaves gets them from the file, again without any request. *)
Theorem fetch_official_totals_memoized :
  ∀ (W : World) (T : PyText) (player_id : string) (st st' : cache)
    (evs : list event) (totals : gmap string Z),
    fetch_official_totals player_id st = (st', evs, Some totals) →
    fetch_official_totals player_id st' = (st', [], Some totals)
    ∧ (evs ≠ [] → disk_ok st = true →
       ∀ b, ∃ st'',
         fetch_official_totals player_id (Cache ∅ (file st') b) = (st'', [], Some totals)
         ∧ file st'' = file st').
Proof.
  intros W T player_id st st' evs totals. unfold fetch_official_totals at 1.
  set (st1 := if bool_decide (_CAREER_CACHE st = ∅) then _load_cache st else st).
  assert (Hdisk : disk_ok st1 = disk_ok st).
  { unfold st1, _load_cache. case_bool_decide; [|done]. by destruct (file st). }
  assert (Hhit : ∀ s, _CAREER_CACHE s !! player_id = Some totals →
            full_record (Some totals) = true →
            fetch_official_totals player_id s = (s, [], Some totals)).
  { intros s Hs Hfull. unfold fetch_official_totals.
    rewrite bool_decide_eq_false_2 by (intros Hs'; by rewrite Hs' in Hs).
    by rewrite Hs, Hfull. }
  destruct (full_record (_CAREER_CACHE st1 !! player_id)) eqn:Hfull.
  - intros [= <- <- Hc]. split; [|done]. apply Hhit; [done|]. by rewrite <- Hc.
  - destruct (ValidateLeaders.request_with_retries (PlayerCareerStats player_id))
      as [evs0 res]. destruct res as [frames|e]; cbn.
    2:{ intros [=]. }
    destruct (career_totals frames) as [[totals0|]|e] eqn:Htot; cbn; [|intros [=]..].
    intros [= <- <- <-]. pose proof (career_totals_full T frames totals0 Htot) as Hfull'.
    split.
    + apply Hhit; [|done]. unfold _save_cache. cbn.
      destruct (disk_ok st1); cbn; apply lookup_insert_eq.
    + intros _ Hok b. unfold _save_cache. cbn. rewrite Hdisk, Hok. cbn.
      eexists. split.
      * unfold fetch_official_totals. cbn.
        rewrite bool_decide_eq_true_2 by done. cbn.
        rewrite lookup_insert_eq, Hfull'. reflexivity.
      * reflexivity.
Qed.

Lemma fetch_official_totals_memoized_witness :
  let W := Examples.example_world in
  let T := Examples.plain_text in
  let st := Cache ∅ NoFile true in
  let st' := Cache {["3" := Examples.career_frame_totals]}
               (Document {["3" := Examples.career_frame_totals]}) true in
  fetch_official_totals "3" st' = (st', [], Some Examples.career_frame_totals)
  ∧ ([Sleep 1; Call 1] ≠ [] → disk_ok st = true →
     ∀ b, ∃ st'',
       fetch_official_totals "3" (Cache ∅ (file st') b)
       = (st'', [], Some Examples.career_frame_totals)
       ∧ file st'' = file st').
Proof.
  apply (fetch_official_totals_memoized Examples.example_world Examples.plain_text "3"
           (Cache ∅ NoFile true)).
  vm_compute. reflexivity.
Defined.

(** X16.  A failed [fetch_official_totals] is not remembered: when the
    result is [None] a request was made, the in-memory cache is the one
    the load left, the cache file is untouched, and the same call again
    makes the same request. *)
Theorem fetch_official_totals_failure_not_cached :
  ∀ (W : World) (T : PyText) (player_id : string) (st st' : cache) (evs : list event),
    fetch_official_totals player_id st = (st', evs, None) →
    st' = (if bool_decide (_CAREER_CACHE st = ∅) then _load_cache st else st)
    ∧ file st' = file st
    ∧ (∃ evs', evs = Sleep 1 :: Call 1 :: evs')
    ∧ fetch_official_totals player_id st' = (st', evs, None).
Proof.
  intros W T player_id st st' evs Hrun.
  assert (Hload : ∀ s, _load_cache (_load_cache s) = _load_cache s ∧ file (_load_cache s) = file s).
  { intros s. unfold _load_cache. destruct (file s) eqn:Hf; cbn; by rewrite ?Hf. }
  set (st1 := if bool_decide (_CAREER_CACHE st = ∅) then _load_cache st else st).
  assert (Hst1 : (if bool_decide (_CAREER_CACHE st1 = ∅) then _load_cache st1 else st1) = st1).
  { unfold st1. destruct (decide (_CAREER_CACHE st = ∅)) as [Hc|Hc].
    - rewrite (bool_decide_eq_true_2 _ Hc). case_bool_decide; [apply Hload | done].
    - by rewrite !(bool_decide_eq_false_2 _ Hc). }
  assert (Hfile : file st1 = file st).
  { unfold st1. destruct (bool_decide (_CAREER_CACHE st = ∅)); [apply Hload | done]. }
  assert (Hagain : fetch_official_totals player_id st1 = fetch_official_totals player_id st).
  { unfold fetch_official_totals. fold st1. by rewrite Hst1. }
  unfold fetch_official_totals in Hrun. fold st1 in Hrun.
  destruct (full_record (_CAREER_CACHE st1 !! player_id)) eqn:Hfull.
  { injection Hrun as _ _ Hnone. by rewrite Hnone in Hfull. }
  destruct (request_with_retries_calls W (PlayerCareerStats player_id)) as [evs' Hevs].
  assert (Hst' : st' = st1 ∧ evs = (ValidateLeaders.request_with_retries
                                      (PlayerCareerStats player_id)).1).
  { destruct (ValidateLeaders.request_with_retries (PlayerCareerStats player_id))
      as [evs0 res]. destruct res as [frames|e]; cbn in Hrun.
    - destruct (career_totals frames) as [[totals0|]|e]; cbn in Hrun;
        by injection Hrun as <- <-.
    - by injection Hrun as <- <-. }
  destruct Hst' as [-> ->]. split_and!; [done | done | by eexists |].
  rewrite Hagain. unfold fetch_official_totals. fold st1. rewrite Hfull.
  destruct (ValidateLeaders.request_with_retries (PlayerCareerStats player_id))
    as [evs0 res]. destruct res as [frames|e]; cbn in Hrun |- *.
  - destruct (career_totals frames) as [[totals0|]|e]; cbn in Hrun |- *; by try done.
  - done.
Qed.

Lemma fetch_official_totals_failure_not_cached_witness :
  let W := Examples.example_world in
  let T := Examples.plain_text in
  let st := Cache ∅ NoFile true in
  st = (if bool_decide (_CAREER_CACHE st = ∅) then _load_cache st else st)
  ∧ file st = file st
  ∧ (∃ evs', [Sleep 1; Call 1] = Sleep 1 :: Call 1 :: evs')
  ∧ fetch_official_totals "1" st = (st, [Sleep 1; Call 1], None).
Proof.
  apply (fetch_official_totals_failure_not_cached Examples.example_world Examples.plain_text
           "1" (Cache ∅ NoFile true)).
  vm_compute. reflexivity.
Defined.

(** X17.  [fetch_official_totals] selects a frame by its upper-cased
    labels and then reads the columns by their exact labels.  When the
    selected frame has the five labels as they are, the totals are the
    sums of the coerced cells of each column; when one of them is
    present in another case only, reading it raises [KeyError], which
    the fetch turns into [None]. *)
Theorem career_totals_reads_exact_labels :
  ∀ (T : PyText) (frames : list frame) (f : frame),
    CoverageScan.select_frame TOTAL_KEYS frames = Some f →
    (∀ k, k ∈ TOTAL_KEYS → k ∈ upper <$> columns f)
    ∧ ((∀ k, k ∈ TOTAL_KEYS → k ∈ columns f) →
       ∃ r, career_totals frames = Returned (Some r)
            ∧ ∀ k, k ∈ TOTAL_KEYS →
                   ∃ cells, column_cells f k = Returned cells
                            ∧ r !! k = Some (sum_with coerce_int cells))
    ∧ ((∃ k, k ∈ TOTAL_KEYS ∧ (k ∉ columns f)) →
       (∃ k, k ∈ TOTAL_KEYS ∧ (k ∉ columns f) ∧ career_totals frames = Raised k)
       ∧ ∀ (W : World) (player_id : string) (st : cache),
           (ValidateLeaders.request_with_retries (PlayerCareerStats player_id)).2
           = Returned frames →
           full_record
             (_CAREER_CACHE (if bool_decide (_CAREER_CACHE st = ∅)
                             then _load_cache st else st) !! player_id) = false →
           (fetch_official_totals player_id st).2 = None).
Proof.
  intros T frames f Hsel.
  assert (Hkeys : ∀ k, k ∈ ["PTS"; "REB"; "AST"; "STL"; "BLK"] → k ∈ TOTAL_KEYS) by done.
  assert (Hpts : "PTS" ∈ TOTAL_KEYS) by (apply Hkeys; rewrite !elem_of_cons; tauto).
  assert (Hreb : "REB" ∈ TOTAL_KEYS) by (apply Hkeys; rewrite !elem_of_cons; tauto).
  assert (Hast : "AST" ∈ TOTAL_KEYS) by (apply Hkeys; rewrite !elem_of_cons; tauto).
  assert (Hstl : "STL" ∈ TOTAL_KEYS) by (apply Hkeys; rewrite !elem_of_cons; tauto).
  assert (Hblk : "BLK" ∈ TOTAL_KEYS) by (apply Hkeys; rewrite !elem_of_cons; tauto).
  split_and!.
  - intros k Hk. unfold CoverageScan.select_frame in Hsel.
    apply find_some in Hsel as [_ Hhas]. unfold CoverageScan.has_columns in Hhas.
    rewrite forallb_forall in Hhas. apply list_elem_of_In, Hhas in Hk.
    by apply bool_decide_eq_true in Hk.
  - intros Hall. unfold career_totals. rewrite Hsel.
    assert (Hcol : ∀ k, k ∈ TOTAL_KEYS →
              ∃ cells, column_cells f k = Returned cells
                       ∧ column_total f k = Returned (sum_with coerce_int cells)).
    { intros k Hk. destruct (proj1 (column_cells_label f k) (Hall k Hk)) as [cells Hc].
      exists cells. split; [done|]. unfold column_total. by rewrite Hc. }
    destruct (Hcol "PTS" Hpts) as (c1 & Hc1 & ->).
    destruct (Hcol "REB" Hreb) as (c2 & Hc2 & ->).
    destruct (Hcol "AST" Hast) as (c3 & Hc3 & ->).
    destruct (Hcol "STL" Hstl) as (c4 & Hc4 & ->).
    destruct (Hcol "BLK" Hblk) as (c5 & Hc5 & ->).
    eexists. split; [reflexivity|]. intros k Hk. unfold TOTAL_KEYS in Hk.
    each_elem Hk with
      (eexists; split; [eassumption|];
       by repeat (rewrite lookup_insert_eq || rewrite lookup_insert_ne by done)).
  - intros Hmiss.
    assert (Hraise : ∃ k, k ∈ TOTAL_KEYS ∧ (k ∉ columns f) ∧ career_totals frames = Raised k).
    { unfold career_totals. rewrite Hsel.
      assert (Hcol : ∀ k, (k ∈ columns f ∧ ∃ z, column_total f k = Returned z)
                          ∨ ((k ∉ columns f) ∧ column_total f k = Raised k)).
      { intros k. unfold column_total. destruct (decide (k ∈ columns f)) as [Hin|Hno].
        - left. split; [done|].
          destruct (proj1 (column_cells_label f k) Hin) as [cells ->]. by eexists.
        - right. split; [done|]. by rewrite (proj2 (column_cells_label f k) Hno). }
      destruct (Hcol "PTS") as [[H1 [z1 ->]] | [Hno ->]]; [|by exists "PTS"].
      destruct (Hcol "REB") as [[H2 [z2 ->]] | [Hno ->]]; [|by exists "REB"].
      destruct (Hcol "AST") as [[H3 [z3 ->]] | [Hno ->]]; [|by exists "AST"].
      destruct (Hcol "STL") as [[H4 [z4 ->]] | [Hno ->]]; [|by exists "STL"].
      destruct (Hcol "BLK") as [[H5 [z5 ->]] | [Hno ->]]; [|by exists "BLK"].
      destruct Hmiss as (k & Hk & Hno). exfalso. unfold TOTAL_KEYS in Hk.
      each_elem Hk with (by apply Hno). }
    split; [done|]. intros W player_id st Hreq Hfull.
    destruct Hraise as (k & _ & _ & Hk).
    unfold fetch_official_totals. rewrite Hfull.
    destruct (ValidateLeaders.request_with_retries (PlayerCareerStats player_id))
      as [evs res]. cbn in Hreq. subst res. cbn. by rewrite Hk.
Qed.

Lemma career_totals_reads_exact_labels_witness :
  let T := Examples.plain_text in
  let frames := [MoreExamples.lowercase_frame] in
  let f := MoreExamples.lowercase_frame in
  (∀ k, k ∈ TOTAL_KEYS → k ∈ upper <$> columns f)
  ∧ ((∀ k, k ∈ TOTAL_KEYS → k ∈ columns f) →
     ∃ r, career_totals frames = Returned (Some r)
          ∧ ∀ k, k ∈ TOTAL_KEYS →
                 ∃ cells, column_cells f k = Returned cells
                          ∧ r !! k = Some (sum_with coerce_int cells))
  ∧ ((∃ k, k ∈ TOTAL_KEYS ∧ (k ∉ columns f)) →
     (∃ k, k ∈ TOTAL_KEYS ∧ (k ∉ columns f) ∧ career_totals frames = Raised k)
     ∧ ∀ (W : World) (player_id : string) (st : cache),
         (ValidateLeaders.request_with_retries (PlayerCareerStats player_id)).2
         = Returned frames →
         full_record
           (_CAREER_CACHE (if bool_decide (_CAREER_CACHE st = ∅)
                           then _load_cache st else st) !! player_id) = false →
         (fetch_official_totals player_id st).2 = None).
Proof.
  apply (career_totals_reads_exact_labels Examples.plain_text
           [MoreExamples.lowercase_frame] MoreExamples.lowercase_frame).
  reflexivity.
Defined.
End cache_reuse.

(** ** Overrides as seen by the leaderboard check *)

Section db_total.
Import Py Db Api CoverageScan Overrides ValidateLeaders.
Implicit Types (t : gmap override_key totals) (c : conn).

Lemma override_total_delete (label p : string) t (k : override_key) :
  override_total label p (delete k t)
  = override_total label p t - contribution label p k (default zero (t !! k)).
Proof.
  destruct (t !! k) as [v|] eqn:Hv; simpl.
  - assert (override_total label p t
            = contribution label p k v + override_total label p (delete k t)) as ->; [|lia].
    rewrite <- override_total_insert_fresh by apply lookup_delete_eq.
    by rewrite insert_delete_id.
  - rewrite delete_id by done. unfold contribution. case_decide; [|lia].
    unfold column, zero. repeat case_bool_decide; simpl; lia.
Qed.

(** X18.  One upsert moves the total [get_db_total] reports for the
    player, for each tracked metric, by the new delta minus the delta
    stored before for that season (0 when none was stored); the totals
    of every other player and the game log are unchanged. *)
Theorem upsert_override_moves_db_total :
  ∀ (c c' : conn) (player_id season : string) (deltas : gmap string Z)
    (t : gmap override_key totals),
    season_totals_override c = Some t →
    upsert_override c player_id season deltas = Returned c' →
    (∀ dst, dst ∈ CoverageScan.METRICS.*2 →
       get_db_total c' player_id dst
       = get_db_total c player_id dst
         - column dst (default zero (t !! (player_id, season, "Regular Season")))
         + default 0 (deltas !! dst))
    ∧ (∀ p db_col, p ≠ player_id → get_db_total c' p db_col = get_db_total c p db_col)
    ∧ game_summary c' = game_summary c.
Proof.
  intros c c' player_id season deltas t Ht. unfold upsert_override. rewrite Ht.
  intros [= <-]. split_and!; [| |done].
  - intros dst Hdst. unfold get_db_total, with_overrides.
    cbn [season_totals_override game_summary]. rewrite Ht.
    rewrite override_total_insert, override_total_delete. unfold contribution.
    rewrite !decide_True by done.
    assert (column dst (override_row deltas) = default 0 (deltas !! dst)) as ->; [|lia].
    unfold CoverageScan.METRICS in Hdst. rewrite !fmap_cons in Hdst. cbn [snd fmap] in Hdst.
    each_elem Hdst with reflexivity.
  - intros p db_col Hp. unfold get_db_total, with_overrides.
    cbn [season_totals_override game_summary]. rewrite Ht.
    rewrite override_total_insert, override_total_delete. unfold contribution.
    rewrite !decide_False by (simpl; intros [? _]; congruence). lia.
Qed.

Lemma upsert_override_moves_db_total_witness :
  let c := Examples.store_fresh in
  let deltas : gmap string Z := {["points" := 8]} in
  let c' := with_overrides c {[("3", "2019-20", "Regular Season") := Totals 8 0 0 0 0]} in
  (∀ dst, dst ∈ CoverageScan.METRICS.*2 →
     get_db_total c' "3" dst
     = get_db_total c "3" dst
       - column dst (default zero ((∅ : gmap override_key totals)
                                     !! ("3", "2019-20", "Regular Season")))
       + default 0 (deltas !! dst))
  ∧ (∀ p db_col, p ≠ "3" → get_db_total c' p db_col = get_db_total c p db_col)
  ∧ game_summary c' = game_summary c.
Proof.
  apply (upsert_override_moves_db_total Examples.store_fresh _ "3" "2019-20"
           {["points" := 8]} ∅); [reflexivity | vm_compute; reflexivity].
Defined.
End db_total.

(** ** The leaderboard check *)

Section leaderboard.
Import Py Db Api ValidateLeaders.

Lemma validate_row_report (T : PyText) (c : conn) (metric_key table_key db_col : string)
    (rank_col : option string) (f : frame) (row : list cell) (r : report_row) :
  validate_row c metric_key table_key db_col rank_col f row = Returned (Some r) →
  r_metric r = metric_key
  ∧ r_db_total r = get_db_total c (r_player_id r) db_col
  ∧ r_delta r = r_db_total r - r_nba_official r
  ∧ r_null_season_type_rows r = get_null_season_type_count c (r_player_id r)
  ∧ r_player r ≠ ""
  ∧ py_int (default CNone (first_present f row [table_key; "VALUE"; lower table_key]))
    = Returned (r_nba_official r).
Proof.
  unfold validate_row.
  destruct (first_present f row ["PLAYER_ID"; "PERSON_ID"; "PLAYERID"; "PERSONID"])
    as [pid_cell|]; [|done].
  destruct (py_int (default CNone (first_present f row [table_key; "VALUE"; lower table_key])))
    as [official|e]; [|done].
  match goal with |- context [?m ≫= _] => destruct m as [rank|e] end; [|done].
  change (Returned rank ≫= ?k) with (k rank). cbv beta. intros [= <-].
  cbn [r_metric r_db_total r_delta r_null_season_type_rows r_player r_player_id r_nba_official].
  split_and!; try done.
  destruct (first_present f row _) as [n|]; [|done].
  case_bool_decide; done.
Qed.

Lemma validate_loop (T : PyText) (c : conn) (metric_key table_key db_col : string)
    (rank_col : option string) (f : frame) (rows : list (list cell)) :
  ∀ (acc out : list report_row),
    Overrides.for_each
      (λ acc row,
         r ← validate_row c metric_key table_key db_col rank_col f row;
         Returned (acc ++ option_list r)) acc rows = Returned out →
    ∃ rs, out = acc ++ rs
          ∧ (length rs ≤ length rows)%nat
          ∧ ∀ r, r ∈ rs →
                 ∃ row, row ∈ rows
                        ∧ validate_row c metric_key table_key db_col rank_col f row
                          = Returned (Some r).
Proof.
  induction rows as [|row rows IH]; intros acc out; cbn [Overrides.for_each].
  - intros [= <-]. exists []. rewrite app_nil_r. split_and!; [done | done |].
    by intros r ?%elem_of_nil.
  - destruct (validate_row c metric_key table_key db_col rank_col f row) as [r|e] eqn:Hrow;
      [|done].
    change (Returned r ≫= ?k) with (k r). cbv beta.
    change (Returned ?x ≫= ?k) with (k x). cbv beta.
    intros (rs & -> & Hlen & Hrs)%IH. exists (option_list r ++ rs).
    rewrite app_assoc. split_and!; [done | |].
    + rewrite length_app. destruct r; cbn; lia.
    + intros r' [Hr'|Hr']%elem_of_app.
      * destruct r as [r|]; [|by apply elem_of_nil in Hr'].
        apply list_elem_of_singleton in Hr' as ->. exists row. split; [by left | done].
      * destruct (Hrs r' Hr') as (row' & Hin & Hv). exists row'. split; [by right | done].
Qed.

(** X19.  What [validate_metric] reports, when it returns: at most
    [TOP_N] rows and at most one per row of the leaderboard; every row
    carries the metric asked for, the total [get_db_total] gives for
    its player, the count of [get_null_season_type_count], a player
    name that is not empty, and [delta = db_total - nba_official]; the
    discrepancies are exactly the rows whose two totals differ. *)
Theorem validate_metric_report :
  ∀ (T : PyText) (df : frame) (metric_key : string) (c : conn)
    (report discrepancies : list report_row),
    validate_metric df metric_key c = Returned (report, discrepancies) →
    ∃ table_key db_col,
      (metric_key, (table_key, db_col)) ∈ METRICS
      ∧ (length report ≤ TOP_N)%nat
      ∧ (length report ≤ length (rows df))%nat
      ∧ (∀ r, r ∈ report →
           r_metric r = metric_key
           ∧ r_db_total r = get_db_total c (r_player_id r) db_col
           ∧ r_delta r = r_db_total r - r_nba_official r
           ∧ r_null_season_type_rows r = get_null_season_type_count c (r_player_id r)
           ∧ r_player r ≠ "")
      ∧ (∀ r, r ∈ discrepancies ↔ r ∈ report ∧ r_db_total r ≠ r_nba_official r).
Proof.
  intros T df metric_key c report discrepancies. unfold validate_metric.
  destruct (list_find (λ m, m.1 = metric_key) METRICS) as [[i [mk [table_key db_col]]]|] eqn:Hm;
    [|done].
  apply list_find_Some in Hm as (Hi & Hmk & _). cbn in Hmk. subst mk.
  match goal with |- context [Overrides.for_each ?body [] ?rows] =>
    destruct (Overrides.for_each body [] rows) as [out|e] eqn:Hloop end; [|done].
  change (Returned out ≫= ?k) with (k out). cbv beta. intros [= <- <-].
  apply validate_loop in Hloop as (rs & -> & Hlen & Hrs). cbn [app] in *.
  assert (Hrow : ∀ r, r ∈ rs →
            r_metric r = metric_key
            ∧ r_db_total r = get_db_total c (r_player_id r) db_col
            ∧ r_delta r = r_db_total r - r_nba_official r
            ∧ r_null_season_type_rows r = get_null_season_type_count c (r_player_id r)
            ∧ r_player r ≠ "").
  { intros r (row & _ & Hv)%Hrs. apply validate_row_report in Hv. tauto. }
  exists table_key, db_col. split_and!.
  - by eapply list_elem_of_lookup_2.
  - rewrite length_take in Hlen. unfold TOP_N in *. lia.
  - rewrite length_take in Hlen. lia.
  - done.
  - intros r. rewrite list_elem_of_filter. split.
    + intros [Hne Hin]. split; [done|]. destruct (Hrow r Hin) as (_ & _ & Hd & _). lia.
    + intros [Hin Hne]. split; [|done]. destruct (Hrow r Hin) as (_ & _ & Hd & _). lia.
Qed.

Lemma validate_metric_report_witness :
  let T := Examples.plain_text in
  let c := Conn [] None [] in
  let report := [ReportRow "points" None "2544" "LeBron James" 0 0 0 0] in
  let discrepancies : list report_row := [] in
  ∃ table_key db_col,
    ("points", (table_key, db_col)) ∈ METRICS
    ∧ (length report ≤ TOP_N)%nat
    ∧ (length report ≤ length (rows Examples.leaders_zero))%nat
    ∧ (∀ r, r ∈ report →
         r_metric r = "points"
         ∧ r_db_total r = get_db_total c (r_player_id r) db_col
         ∧ r_delta r = r_db_total r - r_nba_official r
         ∧ r_null_season_type_rows r = get_null_season_type_count c (r_player_id r)
         ∧ r_player r ≠ "")
    ∧ (∀ r, r ∈ discrepancies ↔ r ∈ report ∧ r_db_total r ≠ r_nba_official r).
Proof.
  apply (validate_metric_report Examples.plain_text Examples.leaders_zero "points"
           (Conn [] None [])).
  vm_compute. reflexivity.
Defined.

Lemma validate_loop_raises (T : PyText) (c : conn) (metric_key table_key db_col : string)
    (rank_col : option string) (f : frame) (rows : list (list cell)) (row : list cell)
    (e : exn) :
  row ∈ rows →
  validate_row c metric_key table_key db_col rank_col f row = Raised e →
  ∀ acc : list report_row,
    ∃ e', Overrides.for_each
            (λ acc row,
               r ← validate_row c metric_key table_key db_col rank_col f row;
               Returned (acc ++ option_list r)) acc rows = Raised e'.
Proof.
  intros Hin Hrow. induction rows as [|row' rows IH]; intros acc.
  { by apply elem_of_nil in Hin. }
  cbn [Overrides.for_each].
  destruct (validate_row c metric_key table_key db_col rank_col f row') as [r|e'] eqn:Hrow'.
  - change (Returned r ≫= ?k) with (k r). cbv beta.
    change (Returned ?x ≫= ?k) with (k x). cbv beta.
    apply IH. apply elem_of_cons in Hin as [->|Hin]; [congruence | done].
  - by exists e'.
Qed.

(** X20.  An unreadable rank aborts the check where an unreadable
    value is only skipped: when a row among the first [TOP_N] has a
    player id and a value [int] converts, and the rank column holds a
    cell [int] cannot convert, [validate_metric] raises (the conversion
    of the rank is outside the [try]). *)
Theorem validate_metric_unreadable_rank_aborts :
  ∀ (T : PyText) (df : frame) (metric_key table_key db_col : string) (c : conn)
    (i : nat) (rank_label : string) (row : list cell) (pid_cell rank_cell : cell)
    (official : Z) (e : exn),
    (metric_key, (table_key, db_col)) ∈ METRICS →
    list_find (λ l, l ∈ columns df) [table_key +:+ "_RANK"; "RANK"; "Rank"]
    = Some (i, rank_label) →
    row ∈ take TOP_N (rows df) →
    first_present df row ["PLAYER_ID"; "PERSON_ID"; "PLAYERID"; "PERSONID"] = Some pid_cell →
    py_int (default CNone (first_present df row [table_key; "VALUE"; lower table_key]))
    = Returned official →
    row_get df row rank_label = Some rank_cell →
    py_int rank_cell = Raised e →
    ∃ e', validate_metric df metric_key c = Raised e'.
Proof.
  intros T df metric_key table_key db_col c i rank_label row pid_cell rank_cell official e
    Hm Hrank Hrow Hpid Hval Hcell Hint.
  unfold validate_metric.
  assert (∃ j, list_find (λ m, m.1 = metric_key) METRICS
               = Some (j, (metric_key, (table_key, db_col)))) as [j ->].
  { unfold METRICS in Hm |- *.
    repeat (apply elem_of_cons in Hm as [[= -> -> ->] | Hm];
            [eexists; vm_compute; reflexivity |]).
    by apply elem_of_nil in Hm. }
  rewrite Hrank. cbn [fmap option_fmap option_map snd mbind option_bind].
  assert (rank_label ≠ "") as Hne.
  { apply list_find_Some in Hrank as (Hl%list_elem_of_lookup_2 & _ & _).
    intros ->. rewrite !elem_of_cons, elem_of_nil in Hl.
    destruct Hl as [Hl | [Hl | [Hl | []]]]; [by destruct table_key | done | done]. }
  rewrite (bool_decide_eq_false_2 _ Hne).
  destruct (validate_loop_raises T c metric_key table_key db_col (Some rank_label) df
              (take TOP_N (rows df)) row e Hrow) with (acc := @nil report_row)
    as [e' ->]; [|by exists e'].
  unfold validate_row. rewrite Hpid, Hval. cbn [mbind option_bind].
  by rewrite Hcell, Hint.
Qed.

Lemma validate_metric_unreadable_rank_aborts_witness :
  ∃ e', @validate_metric Examples.plain_text MoreExamples.leaders_no_rank "points"
          (Conn [] None []) = Raised e'.
Proof.
  apply (validate_metric_unreadable_rank_aborts Examples.plain_text
           MoreExamples.leaders_no_rank "points" "PTS" "points" (Conn [] None [])
           0 "PTS_RANK" [CInt 2544; CStr "LeBron James"; CInt 38652; CNaN]
           (CInt 2544) CNaN 38652 "cannot convert float NaN to integer").
  - unfold METRICS. by left.
  - vm_compute. reflexivity.
  - cbn. by left.
  - reflexivity.
  - reflexivity.
  - reflexivity.
  - reflexivity.
Defined.
End leaderboard.

(** ** The fallback of the leaderboard check *)

Section fallback.
Import Py Db Api Retry ValidateLeaders ValidateFallback.
Context `{W : World, T : PyText}.

(** A full record in the in-memory cache is returned without a request. *)
Lemma fetch_hit (player_id : string) (s : cache) (totals : gmap string Z) :
  _CAREER_CACHE s !! player_id = Some totals →
  full_record (Some totals) = true →
  fetch_official_totals player_id s = (s, [], Some totals).
Proof.
  intros Hs Hfull. unfold fetch_official_totals.
  rewrite bool_decide_eq_false_2 by (intros Hs'; by rewrite Hs' in Hs).
  by rewrite Hs, Hfull.
Qed.

(** The totals a fetch returns are in the cache it leaves. *)
Lemma fetch_stores (player_id : string) (st st' : cache) (evs : list event)
    (totals : gmap string Z) :
  fetch_official_totals player_id st = (st', evs, Some totals) →
  _CAREER_CACHE st' !! player_id = Some totals ∧ full_record (Some totals) = true.
Proof.
  unfold fetch_official_totals.
  set (st1 := if bool_decide (_CAREER_CACHE st = ∅) then _load_cache st else st).
  destruct (full_record (_CAREER_CACHE st1 !! player_id)) eqn:Hfull.
  - intros [= <- <- Hc]. by rewrite Hc in Hfull |- *.
  - destruct (ValidateLeaders.request_with_retries (PlayerCareerStats player_id))
      as [evs0 res]. destruct res as [frames|e]; cbn; [|intros [=]].
    destruct (career_totals frames) as [[totals0|]|e] eqn:Htot; cbn; [|intros [=]..].
    intros [= <- <- <-]. split; [|by eapply career_totals_full].
    unfold _save_cache. cbn. destruct (disk_ok st1); cbn; apply lookup_insert_eq.
Qed.

(** A full record of the in-memory cache survives every fetch. *)
Lemma fetch_keeps (player_id q : string) (st st' : cache) (evs : list event)
    (res : option (gmap string Z)) (r : gmap string Z) :
  fetch_official_totals player_id st = (st', evs, res) →
  _CAREER_CACHE st !! q = Some r →
  full_record (Some r) = true →
  _CAREER_CACHE st' !! q = Some r.
Proof.
  intros Hrun Hq Hfull. unfold fetch_official_totals in Hrun.
  rewrite bool_decide_eq_false_2 in Hrun by (intros Hs'; by rewrite Hs' in Hq).
  destruct (full_record (_CAREER_CACHE st !! player_id)) eqn:Hp.
  { by injection Hrun as <- _ _. }
  destruct (ValidateLeaders.request_with_retries (PlayerCareerStats player_id))
    as [evs0 res0]. destruct res0 as [frames|e]; cbn in Hrun; [|by injection Hrun as <- _ _].
  destruct (career_totals frames) as [[totals0|]|e]; cbn in Hrun;
    [|by injection Hrun as <- _ _..].
  injection Hrun as <- _ _.
  assert (q ≠ player_id) by (intros ->; by rewrite Hq, Hfull in Hp).
  unfold _save_cache. cbn. destruct (disk_ok st); cbn; by rewrite lookup_insert_ne.
Qed.

Lemma fallback_step_report (c : conn) (metric_key table_key : string) (acc : progress)
    (rank : Z) (row : top_row) :
  ∃ r,
    p_report (fallback_step c metric_key table_key acc (rank, row)) = p_report acc ++ [r]
    ∧ f_metric r = metric_key ∧ f_rank r = rank
    ∧ f_player_id r = t_player_id row ∧ f_player r = t_player row
    ∧ f_db_total r = t_db_total row
    ∧ f_null_season_type_rows r = get_null_season_type_count c (t_player_id row)
    ∧ f_delta r = (λ official, f_db_total r - official) <$> f_nba_official r
    ∧ f_nba_official r
      = (λ totals : gmap string Z, default 0 (totals !! table_key))
        <$> (fetch_official_totals (t_player_id row) (p_cache acc)).2
    ∧ p_cache (fallback_step c metric_key table_key acc (rank, row))
      = (fetch_official_totals (t_player_id row) (p_cache acc)).1.1
    ∧ p_discrepancies (fallback_step c metric_key table_key acc (rank, row))
      = p_discrepancies acc
        ++ match f_delta r with
           | Some d => if bool_decide (d ≠ 0) then [r] else []
           | None => []
           end.
Proof.
  unfold fallback_step.
  destruct (fetch_official_totals (t_player_id row) (p_cache acc)) as [[st evs] official].
  eexists. cbn [p_report p_cache p_discrepancies f_metric f_rank f_player_id f_player
                f_db_total f_null_season_type_rows f_delta f_nba_official fst snd].
  split_and!; reflexivity.
Qed.

(** The loop of [validate_metric_fallback]. *)
Lemma fallback_loop (c : conn) (metric_key table_key : string)
    (ranked : list (Z * top_row)) :
  ∀ acc : progress,
    ∃ rs : list fallback_row,
      p_report (foldl (fallback_step c metric_key table_key) acc ranked) = p_report acc ++ rs
      ∧ f_rank <$> rs = ranked.*1
      ∧ (λ r, (f_player_id r, f_player r, f_db_total r)) <$> rs
        = (λ row, (t_player_id row, t_player row, t_db_total row)) <$> ranked.*2
      ∧ (∀ r, r ∈ rs →
           f_metric r = metric_key
           ∧ f_delta r = (λ official, f_db_total r - official) <$> f_nba_official r
           ∧ f_null_season_type_rows r = get_null_season_type_count c (f_player_id r)
           ∧ (f_nba_official r = None
              ∨ ∃ totals,
                  f_nba_official r = Some (default 0 (totals !! table_key))
                  ∧ _CAREER_CACHE
                      (p_cache (foldl (fallback_step c metric_key table_key) acc ranked))
                    !! f_player_id r = Some totals
                  ∧ full_record (Some totals) = true))
      ∧ (∀ r, r ∈ p_discrepancies (foldl (fallback_step c metric_key table_key) acc ranked)
              ↔ r ∈ p_discrepancies acc ∨ (r ∈ rs ∧ ∃ d, f_delta r = Some d ∧ d ≠ 0))
      ∧ (∀ q totals,
           _CAREER_CACHE (p_cache acc) !! q = Some totals →
           full_record (Some totals) = true →
           _CAREER_CACHE (p_cache (foldl (fallback_step c metric_key table_key) acc ranked))
           !! q = Some totals).
Proof.
  induction ranked as [|[rank row] ranked IH]; intros acc.
  { exists []. rewrite app_nil_r. split_and!; try done.
    - by intros r ?%elem_of_nil.
    - intros r. split; [by left|]. intros [?|[?%elem_of_nil _]]; done. }
  cbn [foldl].
  destruct (fallback_step_report c metric_key table_key acc rank row)
    as (r1 & Hrep & Hm & Hrk & Hpid & Hname & Hdb & Hnull & Hdelta & Hoff & Hcache & Hdisc).
  destruct (IH (fallback_step c metric_key table_key acc (rank, row)))
    as (rs & Hrep' & Hrk' & Hrows' & Hrs' & Hdisc' & Hkeep').
  set (acc1 := fallback_step c metric_key table_key acc (rank, row)) in *.
  set (acc' := foldl (fallback_step c metric_key table_key) acc1 ranked) in *.
  destruct (fetch_official_totals (t_player_id row) (p_cache acc)) as [[st evs] official]
    eqn:Hfetch.
  cbn [fst snd] in Hoff, Hcache.
  exists (r1 :: rs). split_and!.
  - rewrite Hrep', Hrep, <- app_assoc. done.
  - rewrite !fmap_cons, Hrk', Hrk. done.
  - rewrite !fmap_cons, Hrows', Hpid, Hname, Hdb. done.
  - intros r [->|Hr]%elem_of_cons; [|by apply Hrs'].
    split_and!; [done | done | by rewrite Hnull, Hpid |].
    destruct official as [totals|]; [right | by left].
    exists totals. split; [done|].
    rewrite <- Hcache in Hfetch. apply fetch_stores in Hfetch as [Hin Hfull].
    split; [|done]. rewrite Hpid. by apply Hkeep'.
  - intros r. rewrite Hdisc', Hdisc, elem_of_app, elem_of_cons.
    assert (r ∈ match f_delta r1 with
                | Some d => if bool_decide (d ≠ 0) then [r1] else []
                | None => []
                end
            ↔ r = r1 ∧ ∃ d, f_delta r = Some d ∧ d ≠ 0) as Hx.
    { destruct (f_delta r1) as [d|] eqn:Hd1.
      - case_bool_decide as Hne.
        + rewrite list_elem_of_singleton. split; [intros ->; eauto | tauto].
        + rewrite elem_of_nil. split; [done|]. intros [-> (d' & Hd' & Hne')].
          rewrite Hd1 in Hd'. by injection Hd' as ->.
      - rewrite elem_of_nil. split; [done|]. intros [-> (d' & Hd' & _)].
        by rewrite Hd1 in Hd'. }
    rewrite Hx. tauto.
  - intros q totals Hq Hfull. apply Hkeep'; [|done]. rewrite Hcache.
    by eapply fetch_keeps.
Qed.

(** The rows of [compute_db_top25]. *)
Lemma filter_key_single {X} (xs : list (string * X)) (k : string) (x : X) :
  NoDup xs.*1 → (k, x) ∈ xs → filter (λ y, y.1 = k) xs = [(k, x)].
Proof.
  intros Hnd Hin. pose proof (filter_key_NoDup xs k Hnd) as Hlen.
  assert ((k, x) ∈ filter (λ y, y.1 = k) xs) as Hin' by (by apply list_elem_of_filter).
  destruct (filter (λ y, y.1 = k) xs) as [|y [|z l]]; cbn in Hlen.
  - by apply elem_of_nil in Hin'.
  - by apply list_elem_of_singleton in Hin' as ->.
  - lia.
Qed.

Lemma joined_total (players : list (string * string)) (c : conn) (db_col pid name : string) :
  NoDup players.*1 → (pid, name) ∈ players →
  sum_with (λ x, x.2) (filter (λ x, x.1 = (pid, name)) (joined players c db_col))
  = sum_column db_col (g_stats <$> regular_season pid (game_summary c)).
Proof.
  intros Hnd Hin. unfold joined, sum_column, regular_season.
  rewrite sum_with_filter, sum_with_bind, sum_with_fmap.
  rewrite <- (list_filter_filter (λ g, g_player_id g = pid)
                (λ g, g_season_type g = "Regular Season")).
  rewrite (sum_with_filter (λ g, g_player_id g = pid)).
  apply sum_with_ext. intros s _. rewrite sum_with_bind.
  destruct (decide (g_player_id s = pid)) as [->|Hne].
  - rewrite (filter_key_single players pid name Hnd Hin). cbn.
    rewrite decide_True by done. lia.
  - apply sum_with_zero. intros p _. cbn. rewrite decide_False; [lia|].
    intros [= ? _]. done.
Qed.

Lemma elem_of_compute_db_top25 (players : list (string * string)) (c : conn)
    (metric_key : string) (db_top : list top_row) :
  compute_db_top25 players c metric_key = Returned db_top →
  ∃ table_key db_col,
    (metric_key, (table_key, db_col)) ∈ METRICS
    ∧ list_find (λ m, m.1 = metric_key) METRICS ≠ None
    ∧ (length db_top ≤ TOP_N)%nat
    ∧ ∀ row, row ∈ db_top →
        (t_player_id row, t_player row) ∈ players
        ∧ t_db_total row
          = sum_with (λ x, x.2)
              (filter (λ x, x.1 = (t_player_id row, t_player row)) (joined players c db_col)).
Proof.
  unfold compute_db_top25.
  destruct (list_find (λ m, m.1 = metric_key) METRICS) as [[i [mk [table_key db_col]]]|] eqn:Hm;
    [|done].
  apply list_find_Some in Hm as (Hi & Hmk & _). cbn in Hmk. subst mk.
  intros [= <-]. exists table_key, db_col. split_and!.
  - by eapply list_elem_of_lookup_2.
  - done.
  - rewrite length_take. lia.
  - intros row Hrow%subseteq_take. rewrite merge_sort_Permutation in Hrow.
    apply list_elem_of_fmap in Hrow as ([pid name] & -> & Hg).
    cbn [t_player_id t_player t_db_total fst snd]. split; [|done].
    apply elem_of_remove_dups, list_elem_of_fmap in Hg as ([[pid' name'] z] & [= <- <-] & Hx).
    unfold joined in Hx.
    apply list_elem_of_bind in Hx as (s & Hx & _).
    apply list_elem_of_bind in Hx as ([p n] & Hx & [Hp Hin]%list_elem_of_filter).
    apply list_elem_of_singleton in Hx. injection Hx as -> -> _. cbn in Hp. by subst.
Qed.

(** X21.  What [validate_metric_fallback] reports, when it returns: at
    most [TOP_N] rows, ranked 1, 2, ... in order; every row carries the
    metric asked for, a player of the [players] table, the count of
    [get_null_season_type_count], and [delta = db_total - nba_official]
    when the official totals could be fetched, no delta otherwise; the
    discrepancies are exactly the rows with a delta other than 0, so a
    player without official totals is never one.  The [db_total] of the
    fallback is the total of the game log alone: when every player is
    listed once it differs from [get_db_total] by the overrides. *)
Theorem validate_metric_fallback_report :
  ∀ (players : list (string * string)) (metric_key : string) (c : conn) (st : cache)
    (pr : progress),
    validate_metric_fallback players metric_key c st = Returned pr →
    ∃ table_key db_col,
      (metric_key, (table_key, db_col)) ∈ METRICS
      ∧ (length (p_report pr) ≤ TOP_N)%nat
      ∧ f_rank <$> p_report pr = Z.of_nat <$> seq 1 (length (p_report pr))
      ∧ (∀ r, r ∈ p_report pr →
           f_metric r = metric_key
           ∧ f_delta r = (λ official, f_db_total r - official) <$> f_nba_official r
           ∧ f_null_season_type_rows r = get_null_season_type_count c (f_player_id r)
           ∧ (f_player_id r, f_player r) ∈ players
           ∧ (NoDup players.*1 →
              f_db_total r
              = sum_column db_col
                  (g_stats <$> regular_season (f_player_id r) (game_summary c))
              ∧ get_db_total c (f_player_id r) db_col
                = f_db_total r
                  + match season_totals_override c with
                    | Some t => override_total db_col (f_player_id r) t
                    | None => 0
                    end))
      ∧ (∀ r, r ∈ p_discrepancies pr
              ↔ r ∈ p_report pr ∧ ∃ d, f_delta r = Some d ∧ d ≠ 0).
Proof.
  intros players metric_key c st pr. unfold validate_metric_fallback.
  destruct (compute_db_top25 players c metric_key) as [db_top|e] eqn:Htop; [|done].
  change (Returned db_top ≫= ?k) with (k db_top). cbv beta.
  pose proof Htop as Htop'.
  apply elem_of_compute_db_top25 in Htop' as (table_key & db_col & Hm & _ & Hlen & Hrows).
  assert (snd <$> list_find (λ m, m.1 = metric_key) METRICS
          = Some (metric_key, (table_key, db_col))) as Hfind.
  { unfold METRICS in Hm |- *.
    repeat (apply elem_of_cons in Hm as [[= -> -> ->] | Hm]; [vm_compute; reflexivity |]).
    by apply elem_of_nil in Hm. }
  destruct (list_find (λ m, m.1 = metric_key) METRICS) as [[i [mk [tk dc]]]|]; [|done].
  cbn in Hfind. injection Hfind as -> -> ->. intros [= <-].
  destruct (fallback_loop c metric_key table_key
              (zip (Z.of_nat <$> seq 1 (length db_top)) db_top) (Progress st [] [] []))
    as (rs & Hrep & Hrk & Hrs_rows & Hrs & Hdisc & _).
  cbn [p_report p_discrepancies app] in Hrep, Hdisc.
  rewrite fst_zip in Hrk by (by rewrite length_fmap, length_seq).
  rewrite snd_zip in Hrs_rows by (by rewrite length_fmap, length_seq).
  assert (length rs = length db_top) as Hlen'.
  { rewrite <- (length_fmap f_rank rs), Hrk, length_fmap, length_seq. done. }
  exists table_key, db_col. rewrite Hrep. split_and!.
  - done.
  - lia.
  - by rewrite Hrk, Hlen'.
  - intros r Hr. destruct (Hrs r Hr) as (Hmk & Hdelta & Hnull & _).
    assert (∃ row, row ∈ db_top ∧ f_player_id r = t_player_id row
                   ∧ f_player r = t_player row ∧ f_db_total r = t_db_total row)
      as (row & Hrow & Hpid & Hname & Hdb).
    { assert ((f_player_id r, f_player r, f_db_total r)
              ∈ (λ row, (t_player_id row, t_player row, t_db_total row)) <$> db_top) as Hin.
      { rewrite <- Hrs_rows. apply list_elem_of_fmap. eauto. }
      apply list_elem_of_fmap in Hin as (row & [= -> -> ->] & Hrow). eauto. }
    destruct (Hrows row Hrow) as [Hpl Htot].
    split_and!; [done | done | done | by rewrite Hpid, Hname |].
    intros Hnd.
    assert (f_db_total r
            = sum_column db_col
                (g_stats <$> regular_season (f_player_id r) (game_summary c))) as Hbase.
    { rewrite Hdb, Htot, Hpid. by apply joined_total. }
    split; [done|]. unfold get_db_total. rewrite <- Hbase. done.
  - intros r. rewrite Hdisc, elem_of_nil. tauto.
Qed.

(** X22.  The fallback keeps what it has fetched: on the cache it
    leaves, the official totals of every reported player that has them
    are returned without any request, and so are those that were
    returned without a request before the run. *)
Theorem validate_metric_fallback_keeps_totals :
  ∀ (players : list (string * string)) (metric_key : string) (c : conn) (st : cache)
    (pr : progress),
    validate_metric_fallback players metric_key c st = Returned pr →
    (∀ r, r ∈ p_report pr → is_Some (f_nba_official r) →
       ∃ totals,
         fetch_official_totals (f_player_id r) (p_cache pr) = (p_cache pr, [], Some totals))
    ∧ (∀ q totals,
         fetch_official_totals q st = (st, [], Some totals) →
         fetch_official_totals q (p_cache pr) = (p_cache pr, [], Some totals)).
Proof.
  intros players metric_key c st pr. unfold validate_metric_fallback.
  destruct (compute_db_top25 players c metric_key) as [db_top|e]; [|done].
  change (Returned db_top ≫= ?k) with (k db_top). cbv beta.
  destruct (list_find (λ m, m.1 = metric_key) METRICS) as [[i [mk [table_key dc]]]|]; [|done].
  intros [= <-].
  destruct (fallback_loop c metric_key table_key
              (zip (Z.of_nat <$> seq 1 (length db_top)) db_top) (Progress st [] [] []))
    as (rs & Hrep & _ & _ & Hrs & _ & Hkeep).
  cbn [p_report p_cache app] in Hrep, Hkeep. rewrite Hrep. split.
  - intros r Hr [z Hz]. destruct (Hrs r Hr) as (_ & _ & _ & [Hnone | (totals & _ & Hin & Hfull)]).
    { by rewrite Hnone in Hz. }
    exists totals. by apply fetch_hit.
  - intros q totals Hhit.
    pose proof (fetch_stores q st st [] totals Hhit) as [Hin Hfull].
    apply fetch_hit; [|done]. by apply Hkeep.
Qed.

End fallback.

Section fallback_examples.
Import Py Db Api Retry ValidateLeaders ValidateFallback.

Lemma validate_metric_fallback_report_witness :
  let W := Examples.example_world in
  let T := Examples.plain_text in
  let players := MoreExamples.players_table in
  let c := Examples.store_stale in
  let report := [FallbackRow "points" 1 "3" "Player Three" (Some 107) 100 (Some (-7)) 0] in
  ∃ table_key db_col,
    ("points", (table_key, db_col)) ∈ METRICS
    ∧ (length report ≤ TOP_N)%nat
    ∧ f_rank <$> report = Z.of_nat <$> seq 1 (length report)
    ∧ (∀ r, r ∈ report →
         f_metric r = "points"
         ∧ f_delta r = (λ official, f_db_total r - official) <$> f_nba_official r
         ∧ f_null_season_type_rows r = get_null_season_type_count c (f_player_id r)
         ∧ (f_player_id r, f_player r) ∈ players
         ∧ (NoDup players.*1 →
            f_db_total r
            = sum_column db_col
                (g_stats <$> regular_season (f_player_id r) (game_summary c))
            ∧ get_db_total c (f_player_id r) db_col
              = f_db_total r
                + match season_totals_override c with
                  | Some t => override_total db_col (f_player_id r) t
                  | None => 0
                  end))
    ∧ (∀ r, r ∈ report ↔ r ∈ report ∧ ∃ d, f_delta r = Some d ∧ d ≠ 0).
Proof.
  pose proof (@validate_metric_fallback_report Examples.example_world Examples.plain_text
                MoreExamples.players_table "points" Examples.store_stale
                (Cache ∅ NoFile true)
                (Progress
                   (Cache {["3" := Examples.career_frame_totals]}
                      (Document {["3" := Examples.career_frame_totals]}) true)
                   [Sleep 1; Call 1]
                   [FallbackRow "points" 1 "3" "Player Three" (Some 107) 100 (Some (-7)) 0]
                   [FallbackRow "points" 1 "3" "Player Three" (Some 107) 100 (Some (-7)) 0]))
    as Hw.
  apply Hw. vm_compute. reflexivity.
Defined.

Lemma validate_metric_fallback_keeps_totals_witness :
  let W := Examples.example_world in
  let T := Examples.plain_text in
  let st' := Cache {["3" := Examples.career_frame_totals]}
               (Document {["3" := Examples.career_frame_totals]}) true in
  let report := [FallbackRow "points" 1 "3" "Player Three" (Some 107) 100 (Some (-7)) 0] in
  (∀ r, r ∈ report → is_Some (f_nba_official r) →
     ∃ totals, fetch_official_totals (f_player_id r) st' = (st', [], Some totals))
  ∧ (∀ q totals,
       fetch_official_totals q (Cache ∅ NoFile true)
       = (Cache ∅ NoFile true, [], Some totals) →
       fetch_official_totals q st' = (st', [], Some totals)).
Proof.
  apply (@validate_metric_fallback_keeps_totals Examples.example_world Examples.plain_text
           MoreExamples.players_table "points" Examples.store_stale
           (Cache ∅ NoFile true)
           (Progress
              (Cache {["3" := Examples.career_frame_totals]}
                 (Document {["3" := Examples.career_frame_totals]}) true)
              [Sleep 1; Call 1]
              [FallbackRow "points" 1 "3" "Player Three" (Some 107) 100 (Some (-7)) 0]
              [FallbackRow "points" 1 "3" "Player Three" (Some 107) 100 (Some (-7)) 0])).
  vm_compute. reflexivity.
Defined.
End fallback_examples.

(** ** The update of the active players: what is appended *)

Section update_log.
Import Py UpdateActive UpdateLog.
Context `{GameLog}.
Implicit Types (s : state) (P : game_row → Prop).

Lemma grows_refl P s : grows P s s.
Proof.
  exists []. rewrite app_nil_r. split_and!; [done | simpl; lia | lia | done | done].
Qed.

Lemma grows_trans P s1 s2 s3 : grows P s1 s2 → grows P s2 s3 → grows P s1 s3.
Proof.
  intros (a1 & Ht1 & Hn1 & Hs1 & HP1 & Hd1) (a2 & Ht2 & Hn2 & Hs2 & HP2 & Hd2).
  exists (a1 ++ a2). split_and!.
  - by rewrite Ht2, Ht1, app_assoc.
  - rewrite Hn2, Hn1, length_app. lia.
  - lia.
  - by apply Forall_app.
  - auto.
Qed.

Lemma grows_weaken P Q s s' : (∀ r, P r → Q r) → grows P s s' → grows Q s s'.
Proof.
  intros HPQ (a & Ht & Hn & Hs & HP & Hd). exists a. split_and!; try done.
  eapply Forall_impl; eauto.
Qed.

(** A state that differs in the fault script or in the counters other
    than [games_added] and [games_skipped] has grown by nothing. *)
Lemma grows_same P s s' :
  game_summary s' = game_summary s →
  games_added (counters s') = games_added (counters s) →
  games_skipped (counters s) ≤ games_skipped (counters s') →
  grows P s s'.
Proof.
  intros Ht Hn Hs. exists []. rewrite app_nil_r.
  split_and!; [done | simpl; lia | done | done | by rewrite Ht].
Qed.

Lemma statement_read {A} (run : list game_row → A * list game_row) s s' r :
  (∀ rows, (run rows).2 = rows) →
  statement run s = (r, s') →
  game_summary s' = game_summary s ∧ counters s' = counters s.
Proof.
  intros Hrun. unfold statement.
  destruct (faults s) as [|[e|] fs].
  - pose proof (Hrun (game_summary s)) as Hr. destruct (run _) as [a rows']. simpl in Hr.
    by intros [= <- <-].
  - by intros [= <- <-].
  - pose proof (Hrun (game_summary s)) as Hr. destruct (run _) as [a rows']. simpl in Hr.
    by intros [= <- <-].
Qed.

Lemma stored_key (rows : list game_row) (p : string) (id : cell) :
  Exists (λ r, UpdateActive.player_id r = p ∧ UpdateActive.game_id r = id) rows
  ↔ (p, id) ∈ key <$> rows.
Proof.
  rewrite Exists_exists, list_elem_of_fmap. unfold key. split.
  - intros (r & Hin & <- & <-). eauto.
  - intros (r & [= -> ->] & Hin). eauto.
Qed.

Lemma get_or_0_ok (game : record) (key : string) : count_ok (get_or_0 game key).
Proof.
  unfold get_or_0, count_ok. cbv zeta.
  destruct (truthy (default (CInt 0) (game !! key))) eqn:Ht; [by left | by right].
Qed.

Lemma inserted_row_ok (p n season : string) (game : record) (game_id game_date : cell) :
  Forall (λ row, UpdateActive.player_id row = p ∧ player_name row = n
                 ∧ UpdateActive.season row = season
                 ∧ season_type row = "Regular Season"
                 ∧ counts_ok row)
    [GameRow p n game_id game_date season "Regular Season"
       (get_or_0 game "PTS") (get_or_0 game "REB") (get_or_0 game "AST")
       (get_or_0 game "BLK") (get_or_0 game "STL")].
Proof.
  apply Forall_singleton. split_and!; try done.
  unfold counts_ok. cbn. split_and!; apply get_or_0_ok.
Qed.

(** One game: at most one row is appended, for this player and season,
    and only when its pair of player and game is not stored yet. *)
Lemma add_game_grows (p n season : string) (game : record) s s' r :
  add_game p n season game s = (r, s') →
  grows (λ row, UpdateActive.player_id row = p ∧ player_name row = n
                ∧ UpdateActive.season row = season
                ∧ season_type row = "Regular Season"
                ∧ counts_ok row) s s'.
Proof.
  unfold add_game, mbind, M_bind.
  destruct (getitem game "Game_ID" s) as [[game_id|e] s1] eqn:H1;
    apply getitem_state in H1 as ->; [|intros [= <- <-]; apply grows_refl].
  unfold statement at 1.
  destruct (faults s) as [|[e|] fs] eqn:Hf.
  3:{ (* the check succeeds, faults remain *)
    cbv beta iota zeta. case_bool_decide as Hfound.
    - intros [= <- <-]. apply grows_same; simpl; [done | done | lia].
    - unfold getitem. destruct (game !! "GAME_DATE") as [d|]; cbn.
      2:{ intros [= <- <-]. apply grows_same; simpl; [done | done | lia]. }
      unfold statement. cbn [faults game_summary counters].
      destruct fs as [|[e|] fs]; cbv beta iota zeta.
      + intros [= <- <-]. eexists [_]. cbn [game_summary counters games_added games_skipped].
        split_and!; [done | simpl; lia | lia | by apply inserted_row_ok |].
        intros Hnd. rewrite fmap_app. apply NoDup_app. split_and!; [done | | apply NoDup_singleton].
        intros k Hk ->%list_elem_of_singleton. apply Hfound, stored_key. done.
      + intros [= <- <-]. apply grows_same; simpl; [done | done | lia].
      + intros [= <- <-]. eexists [_]. cbn [game_summary counters games_added games_skipped].
        split_and!; [done | simpl; lia | lia | by apply inserted_row_ok |].
        intros Hnd. rewrite fmap_app. apply NoDup_app. split_and!; [done | | apply NoDup_singleton].
        intros k Hk ->%list_elem_of_singleton. apply Hfound, stored_key. done. }
  2:{ intros [= <- <-]. apply grows_same; simpl; [done | done | lia]. }
  cbv beta iota zeta. case_bool_decide as Hfound.
  - intros [= <- <-]. apply grows_same; simpl; [done | done | lia].
  - unfold getitem. destruct (game !! "GAME_DATE") as [d|]; cbn.
    2:{ intros [= <- <-]. apply grows_same; simpl; [done | done | lia]. }
    unfold statement. cbn [faults game_summary counters]. cbv beta iota zeta.
    intros [= <- <-]. eexists [_]. cbn [game_summary counters games_added games_skipped].
    split_and!; [done | simpl; lia | lia | by apply inserted_row_ok |].
    intros Hnd. rewrite fmap_app. apply NoDup_app. split_and!; [done | | apply NoDup_singleton].
    intros k Hk ->%list_elem_of_singleton. apply Hfound, stored_key. done.
Qed.

Lemma for_each_grows {X} P (body : X → M ()) (xs : list X) :
  (∀ x s s' r, body x s = (r, s') → grows P s s') →
  ∀ s s' r, for_each body xs s = (r, s') → grows P s s'.
Proof.
  intros Hbody. induction xs as [|x xs IH]; intros s s' r.
  - intros [= <- <-]. apply grows_refl.
  - cbn [for_each]. unfold mbind, M_bind.
    destruct (body x s) as [[[]|e] s1] eqn:H1; apply Hbody in H1.
    + intros Hrest%IH. by eapply grows_trans.
    + by intros [= <- <-].
Qed.

Lemma process_grows (season : string) (player : string * string) s s' r :
  process season player s = (r, s') →
  grows (λ row, UpdateActive.player_id row = player.1 ∧ player_name row = player.2
                ∧ UpdateActive.season row = season
                ∧ season_type row = "Regular Season"
                ∧ counts_ok row) s s'.
Proof.
  destruct player as [p n]. unfold process, mbind, M_bind.
  destruct (for_each _ _ s) as [[[]|e] s1] eqn:H1;
    apply (for_each_grows _ _ _ (add_game_grows p n season)) in H1;
    [|by intros [= <- <-]].
  destruct (statement _ s1) as [[[]|e] s2] eqn:H2;
    apply statement_read in H2 as [Ht Hc]; try done.
  - intros [= <- <-]. eapply grows_trans; [done|].
    apply grows_same; simpl; rewrite ?Hc; [done | done | lia].
  - intros [= <- <-]. eapply grows_trans; [done|].
    apply grows_same; simpl; rewrite ?Hc; [done | done | lia].
Qed.

(** One turn of the loop of [update_database], with its handler. *)
Lemma guarded_process_grows (season : string) (player : string * string) s s' r :
  catch (process season player)
        (λ _, count (λ st, Stats (players_processed st) (games_added st)
                             (games_skipped st) (errors st + 1))) s = (r, s') →
  grows (λ row, UpdateActive.player_id row = player.1 ∧ player_name row = player.2
                ∧ UpdateActive.season row = season
                ∧ season_type row = "Regular Season"
                ∧ counts_ok row) s s'.
Proof.
  unfold catch. destruct (process season player s) as [[[]|e] s1] eqn:H1;
    apply process_grows in H1.
  - by intros [= <- <-].
  - intros [= <- <-]. eapply grows_trans; [done|].
    apply grows_same; simpl; [done | done | lia].
Qed.

Lemma update_database_grows (season : string) (active_players : list (string * string)) s :
  ∃ s',
    update_database season active_players s = (Returned (), s')
    ∧ grows (λ row, (UpdateActive.player_id row, player_name row) ∈ active_players
                    ∧ UpdateActive.season row = season
                    ∧ season_type row = "Regular Season"
                    ∧ counts_ok row) s s'.
Proof.
  destruct (update_database_total season active_players s) as (s' & Hrun & _).
  exists s'. split; [done|]. unfold update_database in Hrun.
  assert (∀ players, players ⊆ active_players →
            ∀ s s' r,
              for_each (λ player,
                 catch (process season player)
                       (λ _, count (λ st, Stats (players_processed st) (games_added st)
                                            (games_skipped st) (errors st + 1))))
                players s = (r, s') →
              grows (λ row, (UpdateActive.player_id row, player_name row) ∈ active_players
                            ∧ UpdateActive.season row = season
                            ∧ season_type row = "Regular Season"
                            ∧ counts_ok row) s s') as Hloop.
  { induction players as [|player players IH]; intros Hsub u u' r.
    - intros [= <- <-]. apply grows_refl.
    - cbn [for_each]. unfold mbind, M_bind.
      destruct (catch _ _ u) as [[[]|e] u1] eqn:H1;
        apply guarded_process_grows in H1.
      all: assert (grows (λ row, (UpdateActive.player_id row, player_name row)
                                   ∈ active_players
                                 ∧ UpdateActive.season row = season
                                 ∧ season_type row = "Regular Season"
                                 ∧ counts_ok row) u u1) as Hw
        by (eapply grows_weaken; [|exact H1];
            intros row (Hp & Hn & Hrest); split; [|exact Hrest];
            rewrite Hp, Hn, <- surjective_pairing; apply Hsub; by left).
      + intros Hrest%IH; [by eapply grows_trans|].
        intros x Hx. apply Hsub. by right.
      + by intros [= <- <-]. }
  by eapply (Hloop active_players).
Qed.


(** *** A second run over a connection that never fails *)

Lemma add_game_clean (p n season : string) (game : record) s :
  faults s = [] →
  ∃ s' r,
    add_game p n season game s = (r, s')
    ∧ faults s' = []
    ∧ match game !! "Game_ID" with
      | None => (∃ e, r = Raised e) ∧ game_summary s' = game_summary s
                ∧ games_added (counters s') = games_added (counters s)
      | Some id =>
          if decide ((p, id) ∈ key <$> game_summary s)
          then r = Returned () ∧ game_summary s' = game_summary s
               ∧ games_added (counters s') = games_added (counters s)
          else match game !! "GAME_DATE" with
               | None => (∃ e, r = Raised e) ∧ game_summary s' = game_summary s
                         ∧ games_added (counters s') = games_added (counters s)
               | Some _ => r = Returned () ∧ (p, id) ∈ key <$> game_summary s'
               end
      end.
Proof.
  destruct s as [rows fs cs]. cbn [faults]. intros ->.
  unfold add_game, mbind, M_bind, getitem.
  destruct (game !! "Game_ID") as [id|];
    unfold mret, M_ret, raise, statement, count;
    cbn [faults game_summary counters]; cbv beta iota zeta.
  2:{ eexists _, _. split_and!; [reflexivity | done | by eexists | done | done]. }
  destruct (decide ((p, id) ∈ key <$> rows)) as [Hin|Hout].
  - rewrite bool_decide_eq_true_2 by (by apply stored_key).
    cbn [faults game_summary counters]. eexists _, _. by split_and!.
  - rewrite bool_decide_eq_false_2 by (by rewrite stored_key).
    destruct (game !! "GAME_DATE") as [d|];
      cbn [faults game_summary counters]; cbv beta iota zeta.
    + eexists _, _. split_and!; [reflexivity | done | done |].
      cbn [game_summary]. rewrite fmap_app. apply elem_of_app. right. by left.
    + eexists _, _. split_and!; [reflexivity | done | by eexists | done | done].
Qed.

(** The loop over the games of one player, run on a table that stores
    the same games of this player as the table a first run has left,
    changes nothing. *)
Lemma player_loop_stable (p n season : string) (games : list record) :
  ∀ s s' r u,
    faults s = [] → faults u = [] →
    for_each (add_game p n season) games s = (r, s') →
    (∀ id, (p, id) ∈ key <$> game_summary u ↔ (p, id) ∈ key <$> game_summary s') →
    ∃ u' r',
      for_each (add_game p n season) games u = (r', u')
      ∧ faults u' = []
      ∧ game_summary u' = game_summary u
      ∧ games_added (counters u') = games_added (counters u).
Proof.
  induction games as [|game games IH]; intros s s' r u Hs Hu Hrun Hsame.
  { eexists _, _. by split_and!. }
  cbn [for_each] in Hrun |- *. unfold mbind, M_bind in Hrun |- *.
  destruct (add_game_clean p n season game s Hs) as (s1 & r1 & Hs1 & Hf1 & Hcase).
  destruct (add_game_clean p n season game u Hu) as (u1 & q1 & Hu1 & Hg1 & Hcase').
  rewrite Hs1 in Hrun. rewrite Hu1.
  assert (Hrest : ∀ r s', for_each (add_game p n season) games s1 = (r, s') →
            ∀ k, k ∈ key <$> game_summary s1 → k ∈ key <$> game_summary s').
  { intros r0 s0 Hr0 k Hk.
    apply (for_each_grows _ _ _ (add_game_grows p n season)) in Hr0 as (a & Ht & _).
    rewrite Ht, fmap_app. apply elem_of_app. by left. }
  destruct (game !! "Game_ID") as [id|].
  2:{ destruct Hcase' as ([e ->] & Ht & Hn). eexists _, _. by split_and!. }
  destruct (decide ((p, id) ∈ key <$> game_summary s)) as [Hin|Hout].
  - (* stored before the first run: skipped then, skipped now *)
    destruct Hcase as (-> & Ht1 & Hn1).
    assert ((p, id) ∈ key <$> game_summary u) as Hin'.
    { apply Hsame. eapply Hrest; [done|]. by rewrite Ht1. }
    rewrite decide_True in Hcase' by done. destruct Hcase' as (-> & Ht' & Hn').
    destruct (IH s1 s' r u1 Hf1 Hg1 Hrun) as (u' & r' & Hrun' & Hf' & Ht'' & Hn'').
    { intros id'. by rewrite Ht'. }
    exists u', r'. split_and!; [done | done | congruence | congruence].
  - destruct (game !! "GAME_DATE") as [d|].
    + (* inserted by the first run: skipped now *)
      destruct Hcase as (-> & Hnew).
      assert ((p, id) ∈ key <$> game_summary u) as Hin'.
      { apply Hsame. by eapply Hrest. }
      rewrite decide_True in Hcase' by done. destruct Hcase' as (-> & Ht' & Hn').
      destruct (IH s1 s' r u1 Hf1 Hg1 Hrun) as (u' & r' & Hrun' & Hf' & Ht'' & Hn'').
      { intros id'. by rewrite Ht'. }
      exists u', r'. split_and!; [done | done | congruence | congruence].
    + (* the first run stopped here: so does this one *)
      destruct Hcase as ([e ->] & Ht1 & Hn1). injection Hrun as <- <-.
      assert ((p, id) ∉ key <$> game_summary u) as Hout'.
      { rewrite Hsame, Ht1. done. }
      rewrite decide_False in Hcase' by done. destruct Hcase' as ([e' ->] & Ht' & Hn').
      eexists _, _. by split_and!.
Qed.

Lemma for_each_clean (p n season : string) (games : list record) :
  ∀ s, faults s = [] →
       ∃ s' r, for_each (add_game p n season) games s = (r, s') ∧ faults s' = [].
Proof.
  induction games as [|game games IH]; intros s Hs.
  { by eexists _, _. }
  cbn [for_each]. unfold mbind, M_bind.
  destruct (add_game_clean p n season game s Hs) as (s1 & r1 & -> & Hf1 & _).
  destruct r1 as [[]|e]; [by apply IH | by eexists _, _].
Qed.

(** One turn of the loop of [update_database] when no statement fails:
    the table it leaves is the table the loop over the games leaves. *)
Lemma guarded_process_clean (season p n : string) s sl r :
  faults s = [] → faults sl = [] →
  for_each (add_game p n season) (fetch_player_games p season) s = (r, sl) →
  ∃ s1,
    catch (process season (p, n))
          (λ _, count (λ st, Stats (players_processed st) (games_added st)
                               (games_skipped st) (errors st + 1))) s
    = (Returned (), s1)
    ∧ faults s1 = []
    ∧ game_summary s1 = game_summary sl
    ∧ games_added (counters s1) = games_added (counters sl).
Proof.
  intros Hs Hsl Hloop. unfold catch, process, mbind, M_bind. rewrite Hloop.
  destruct sl as [rows fs cs]. cbn [faults] in Hsl. subst fs.
  destruct r as [[]|e]; cbn; eexists; by split_and!.
Qed.

Lemma update_database_clean (season : string) (active_players : list (string * string)) :
  ∀ s, faults s = [] → faults (update_database season active_players s).2 = [].
Proof.
  unfold update_database.
  induction active_players as [|[p n] players IH]; intros s Hs; [done|].
  cbn [for_each]. unfold mbind, M_bind.
  destruct (for_each_clean p n season (fetch_player_games p season) s Hs)
    as (sl & r & Hloop & Hfl).
  destruct (guarded_process_clean season p n s sl r Hs Hfl Hloop) as (s1 & -> & Hf1 & _).
  by apply IH.
Qed.

(** X24.  On a connection that never fails, and with every active
    player listed once, running [update_database] a second time, the
    game log service answering as before, appends nothing: every game
    the first run has stored is found and skipped. *)
Theorem update_database_rerun_adds_nothing :
  ∀ (season : string) (active_players : list (string * string)) (s : state),
    faults s = [] →
    NoDup active_players.*1 →
    let s1 := (update_database season active_players s).2 in
    let s2 := (update_database season active_players s1).2 in
    game_summary s2 = game_summary s1
    ∧ games_added (counters s2) = games_added (counters s1).
Proof.
  intros season active_players s Hs Hnd s1 s2. subst s1 s2.
  assert (Hgen : ∀ players, NoDup players.*1 →
            ∀ s u, faults s = [] → faults u = [] →
              (∀ p id, p ∈ players.*1 →
                 (p, id) ∈ key <$> game_summary u
                 ↔ (p, id) ∈ key <$> game_summary (update_database season players s).2) →
              game_summary (update_database season players u).2 = game_summary u
              ∧ games_added (counters (update_database season players u).2)
                = games_added (counters u)).
  { clear. induction players as [|[p n] players IH]; intros Hnd s u Hs Hu Hsame; [done|].
    apply NoDup_cons in Hnd as [Hp Hnd]. cbn [fmap list_fmap fst] in Hp.
    unfold update_database in *. cbn [for_each] in Hsame |- *.
    unfold mbind, M_bind in Hsame |- *.
    destruct (for_each_clean p n season (fetch_player_games p season) s Hs)
      as (sl & r & Hloop & Hfl).
    destruct (guarded_process_clean season p n s sl r Hs Hfl Hloop)
      as (s1 & Hstep & Hf1 & Ht1 & _).
    rewrite Hstep in Hsame.
    (* what the rest of the first run adds belongs to other players *)
    destruct (update_database_grows season players s1)
      as (s' & Hrun' & added & Ht' & _ & _ & Hadd & _).
    rewrite Forall_forall in Hadd.
    unfold update_database in Hrun'. rewrite Hrun' in Hsame. cbn [snd] in Hsame.
    destruct (player_loop_stable p n season (fetch_player_games p season) s sl r u Hs Hu Hloop)
      as (ul & r' & Hloop' & Hful & Htul & Hnul).
    { intros id. rewrite (Hsame p id) by (by left). rewrite Ht', <- Ht1, fmap_app, elem_of_app.
      split; [|by left]. intros [?|Hnew]; [done|]. exfalso.
      apply list_elem_of_fmap in Hnew as (row & Hk & Hrow). unfold key in Hk.
      injection Hk as Hpid _. apply Hadd in Hrow as [Hrow _]. apply Hp. rewrite Hpid.
      apply list_elem_of_fmap. eexists. split; [|exact Hrow]. done. }
    destruct (guarded_process_clean season p n u ul r' Hu Hful Hloop')
      as (u1 & Hstep' & Hg1 & Htu1 & Hnu1).
    rewrite Hstep'.
    destruct (IH Hnd s1 u1 Hf1 Hg1) as [Ht2 Hn2].
    { intros q id Hq. rewrite Htu1, Htul. rewrite (Hsame q id) by (by right).
      by rewrite Hrun'. }
    split; congruence. }
  apply (Hgen active_players Hnd s); [done | by apply update_database_clean | done].
Qed.

End update_log.

Section update_log_examples.
Import Py UpdateActive UpdateLog.

Lemma update_database_rerun_adds_nothing_witness :
  let G := Examples.example_game_log in
  let players := [("1", "Ann"); ("2", "Bob")] in
  let s := State [] [] (Stats 0 0 0 0) in
  let s1 := (update_database "2025-26" players s).2 in
  let s2 := (update_database "2025-26" players s1).2 in
  game_summary s2 = game_summary s1
  ∧ games_added (counters s2) = games_added (counters s1).
Proof.
  apply (@update_database_rerun_adds_nothing Examples.example_game_log "2025-26"
           [("1", "Ann"); ("2", "Bob")] (State [] [] (Stats 0 0 0 0))).
  - reflexivity.
  - apply (bool_decide_unpack _). vm_compute. exact I.
Defined.
End update_log_examples.

(** ** Seasons and ages *)

Section dates.
Import Py UpdateDates.

(** X25.  [calculate_age_at_game] counts the birthdays passed: when
    both dates parse, the age it returns is the one number [n] with the
    game on or after the [n]-th birthday and before the next one, in
    calendar order (a negative number for a game before the birth), and
    a later game never gives a smaller age; when either date does not
    parse it returns [None]. *)
Theorem calculate_age_at_game_counts_birthdays :
  ∀ (S : Strptime) (birthdate game_date : cell),
    match strptime birthdate, strptime game_date with
    | Some birth, Some game =>
        ∃ age,
          calculate_age_at_game birthdate game_date = Some age
          ∧ ¬ date_lt game (birthday birth age)
          ∧ date_lt game (birthday birth (age + 1))
          ∧ (∀ n, ¬ date_lt game (birthday birth n) →
                  date_lt game (birthday birth (n + 1)) → n = age)
          ∧ (∀ later_date later age',
               strptime later_date = Some later →
               ¬ date_lt later game →
               calculate_age_at_game birthdate later_date = Some age' →
               age ≤ age')
    | _, _ => calculate_age_at_game birthdate game_date = None
    end.
Proof.
  intros S birthdate game_date. unfold calculate_age_at_game.
  destruct (strptime birthdate) as [[by_ bm bd]|]; [|done].
  destruct (strptime game_date) as [[gy gm gd]|]; [|done].
  cbn [year month day].
  eexists. split; [reflexivity|].
  unfold date_lt, birthday. cbn [year month day].
  split_and!.
  - case_bool_decide; simpl; lia.
  - case_bool_decide; simpl; lia.
  - intros n. case_bool_decide; simpl; lia.
  - intros later_date [ly lm ld] age' ->. cbn [year month day].
    repeat case_bool_decide; intros Hlt [= <-]; lia.
Qed.

Lemma pretty_N_go_app (x : N) :
  ∀ s, pretty_N_go x s = pretty_N_go x "" +:+ s.
Proof.
  induction (N.lt_wf_0 x) as [x _ IH]. intros s.
  assert (x = 0 ∨ 0 < x)%N as [-> | Hx] by lia; [by rewrite !pretty_N_go_0|].
  rewrite !(pretty_N_go_step x) by done.
  assert (x `div` 10 < x)%N as Hlt by (by apply N.div_lt).
  rewrite (IH _ Hlt (String _ s)), (IH _ Hlt (String _ "")).
  by rewrite append_assoc.
Qed.

Lemma pretty_N_go_dashless (x : N) :
  ∀ s, dashless s → dashless (pretty_N_go x s).
Proof.
  induction (N.lt_wf_0 x) as [x _ IH]. intros s Hs.
  assert (x = 0 ∨ 0 < x)%N as [-> | Hx] by lia; [by rewrite pretty_N_go_0|].
  rewrite pretty_N_go_step by done. apply IH; [by apply N.div_lt|].
  split; [|done]. unfold pretty_N_char. by repeat case_match.
Qed.

Lemma pretty_Z_dashless (n : Z) : 0 ≤ n → dashless (pretty n).
Proof.
  destruct n as [|p|p]; [by repeat split | | lia]. intros _.
  unfold pretty, pretty_Z, pretty, pretty_positive, pretty, pretty_N.
  rewrite decide_False by done. by apply pretty_N_go_dashless.
Qed.

Lemma dashless_cancel (s1 s2 x y : string) :
  dashless s1 → dashless s2 →
  s1 +:+ String "-" x = s2 +:+ String "-" y → s1 = s2.
Proof.
  revert s2. induction s1 as [|c s1 IH]; intros [|c' s2] H1 H2 Heq.
  - done.
  - injection Heq as <- _. by destruct H2.
  - injection Heq as -> _. by destruct H1.
  - destruct H1 as [_ H1], H2 as [_ H2].
    change (String c (s1 +:+ String "-" x) = String c' (s2 +:+ String "-" y)) in Heq.
    injection Heq as -> Heq. f_equal. by apply IH.
Qed.

Lemma string_drop_app (pre suf : string) :
  string_drop (String.length pre) (pre +:+ suf) = suf.
Proof. induction pre as [|c pre IH]; [by destruct suf | exact IH]. Qed.

Lemma length_app_string (pre suf : string) :
  String.length (pre +:+ suf) = (String.length pre + String.length suf)%nat.
Proof.
  induction pre as [|c pre IH]; [done|].
  change (S (String.length (pre +:+ suf)) = S (String.length pre + String.length suf)).
  by rewrite IH.
Qed.

Lemma last_chars_app (pre suf : string) :
  last_chars (String.length suf) (pre +:+ suf) = suf.
Proof.
  unfold last_chars. rewrite length_app_string.
  replace (String.length pre + String.length suf - String.length suf)%nat
    with (String.length pre) by lia.
  apply string_drop_app.
Qed.

(** The decimal text of a number of at least two digits ends in its
    last two digits. *)
Lemma pretty_last_two (n : Z) :
  10 ≤ n →
  last_chars 2 (pretty n) = String (digit ((n `div` 10) `mod` 10)) (String (digit (n `mod` 10)) "").
Proof.
  intros Hn. destruct n as [|p|p]; [lia | | lia].
  unfold pretty, pretty_Z, pretty, pretty_positive, pretty, pretty_N.
  rewrite decide_False by done.
  rewrite pretty_N_go_step by lia.
  rewrite pretty_N_go_step by (apply N.div_str_pos; lia).
  rewrite pretty_N_go_app.
  unfold digit.
  rewrite !Z2N.inj_mod, Z2N.inj_div by (try apply Z.div_pos; lia).
  change (Z.to_N (Z.pos p)) with (N.pos p). change (Z.to_N 10) with 10%N.
  apply (last_chars_app _ (String _ (String _ ""))).
Qed.

(** X26.  [get_current_season] labels a moment by the year in which
    the season started, October being the first month of a season: two
    moments get the same label exactly when that year is the same (so
    the label changes between September and October, and not at the new
    year), and the label is that year, a dash, and the last two digits
    of the following year. *)
Theorem get_current_season_rollover :
  ∀ (year month year' month' : Z),
    1 ≤ year → 1 ≤ year' →
    (get_current_season year month = get_current_season year' month'
     ↔ (if bool_decide (10 ≤ month) then year else year - 1)
       = (if bool_decide (10 ≤ month') then year' else year' - 1))
    ∧ (10 ≤ year →
       let season_start := if bool_decide (10 ≤ month) then year else year - 1 in
       get_current_season year month
       = pretty season_start +:+ "-"
         +:+ String (digit (((season_start + 1) `div` 10) `mod` 10))
               (String (digit ((season_start + 1) `mod` 10)) "")).
Proof.
  intros year month year' month' Hy Hy'. unfold get_current_season.
  set (a := if bool_decide (10 ≤ month) then year else year - 1).
  set (b := if bool_decide (10 ≤ month') then year' else year' - 1).
  assert (0 ≤ a) by (unfold a; case_bool_decide; lia).
  assert (0 ≤ b) by (unfold b; case_bool_decide; lia).
  split.
  - split; [|by intros ->]. intros Heq.
    apply (inj pretty). by eapply dashless_cancel; [apply pretty_Z_dashless.. | exact Heq].
  - intros Hy10. cbv zeta. rewrite pretty_last_two; [done|].
    unfold a. case_bool_decide; lia.
Qed.

Lemma get_current_season_rollover_witness :
  (get_current_season 2025 11 = get_current_season 2026 3
   ↔ (if bool_decide (10 ≤ 11) then 2025 else 2025 - 1)
     = (if bool_decide (10 ≤ 3) then 2026 else 2026 - 1))
  ∧ (10 ≤ 2025 →
     let season_start := if bool_decide (10 ≤ 11) then 2025 else 2025 - 1 in
     get_current_season 2025 11
     = pretty season_start +:+ "-"
       +:+ String (digit (((season_start + 1) `div` 10) `mod` 10))
             (String (digit ((season_start + 1) `mod` 10)) "")).
Proof. apply (get_current_season_rollover 2025 11 2026 3); lia. Defined.
End dates.

(** ** The coverage scan: names and sums *)

Section coverage_totals.
Import Py Db Api CoverageScan Overrides ValidateLeaders CoverageNames.

(** X27.  The name in the coverage report.  A frame with none of the
    name columns never supplies the name, and the frame [main] passes,
    the official series with its renamed columns, has none: the name is
    the [full_name] of the [players] table when the query yields a
    non-empty one, and [player_<id>] otherwise, never a name from the
    response, and never the empty string. *)
Theorem get_player_name_in_main :
  ∀ (full_names : outcome (list (option string))) (player_id : string),
    let from_players :=
      match full_names with
      | Returned (Some name :: _) =>
          if bool_decide (name = "") then "player_" +:+ player_id else name
      | _ => "player_" +:+ player_id
      end in
    (∀ f : frame,
        (∀ c, c ∈ name_cols → c ∉ columns f) →
        get_player_name full_names player_id f = from_players)
    ∧ (∀ nba_df : list nba_row,
         get_player_name full_names player_id (nba_frame nba_df) = from_players)
    ∧ from_players ≠ "".
Proof.
  intros full_names player_id from_players.
  assert (Hgen : ∀ f : frame,
            (∀ c, c ∈ name_cols → c ∉ columns f) →
            get_player_name full_names player_id f = from_players).
  { intros f Hno. unfold get_player_name, from_players.
    assert (list_find (λ c, has_value f c = true) name_cols = None) as Hfind.
    { apply list_find_None, Forall_forall. intros c Hc. unfold has_value.
      by rewrite (proj2 (find_column_eqb_None c (columns f)) (Hno c Hc)). }
    destruct full_names as [[|[name|] rest]|e]; rewrite ?Hfind; try done.
    case_bool_decide; by rewrite ?Hfind. }
  split_and!.
  - exact Hgen.
  - intros nba_df. apply Hgen. intros c Hc. unfold name_cols in Hc.
    unfold nba_frame. cbn [columns].
    each_elem Hc with (by apply (bool_decide_unpack _)).
  - unfold from_players. destruct full_names as [[|[name|] rest]|e]; try done.
    by case_bool_decide.
Qed.

(** X28.  The deltas of the coverage scan add up: with every season
    once in the official series, the DELTA column of a tracked metric
    sums, over the merged view, to the regular-season total of the game
    log minus the total of the official series. *)
Theorem coverage_deltas_add_up :
  ∀ (c : conn) (player_id dst : string) (nba_df : list nba_row),
    dst ∈ CoverageScan.METRICS.*2 →
    NoDup (season <$> nba_df) →
    sum_with (λ row, column dst (DELTA row))
      (merged_view nba_df (db_career_by_season c player_id))
    = sum_column dst (g_stats <$> regular_season player_id (game_summary c))
      - sum_with (λ r, column dst (stats r)) nba_df.
Proof.
  intros c player_id dst nba_df Hdst Hnd. unfold merged_view.
  rewrite sum_with_fmap.
  rewrite (sum_with_ext _ (λ row : string * option nba_row * option totals,
             from_option (column dst) 0 row.2
             - from_option (λ r : nba_row, column dst (stats r)) 0 row.1.2)).
  2:{ intros [[k oa] ob] _. cbn [DELTA]. rewrite column_minus.
      destruct oa, ob; cbn; rewrite ?column_zero; lia. }
  rewrite sum_with_minus, merge_outer_sum_right, merge_outer_sum_left.
  - rewrite db_career_total by (by right). rewrite sum_with_fmap. done.
  - apply db_career_NoDup.
  - by rewrite nba_keys_view.
Qed.

Lemma coverage_deltas_add_up_witness :
  sum_with (λ row, column "points" (DELTA row))
    (merged_view Examples.career_rows (db_career_by_season Examples.store_fresh "3"))
  = sum_column "points"
      (g_stats <$> regular_season "3" (game_summary Examples.store_fresh))
    - sum_with (λ r, column "points" (stats r)) Examples.career_rows.
Proof.
  apply (coverage_deltas_add_up Examples.store_fresh "3" "points" Examples.career_rows).
  - cbn. by left.
  - apply (bool_decide_unpack _). vm_compute. exact I.
Defined.
End coverage_totals.
